(** * Two-pass assemblers for a MIPS-style and a RISC-V-style ISA

    A shallow embedding of [mips_assembler.py] and [riscv_assembler.py]:
    Python integers are [Z] (with [Z.land], [Z.lor], [Z.shiftl], [Z.shiftr]
    for [&], [|], [<<], [>>]), Python strings are [string] (the source text
    is taken to be ASCII), the label dictionary is a [gmap string Z], the
    static opcode and register dictionaries are association lists, and a
    raised Python exception is the [Raise] case of [result]. *)

From Stdlib Require Import ZArith Lia Ascii DecimalString HexadecimalString.
From Stdlib Require Import DecimalFacts DecimalPos HexadecimalFacts HexadecimalPos HexadecimalN.
From stdpp Require Import base option list gmap strings.
From coqutil Require Import Z.prove_Zeq_bitwise Z.bitblast.

Local Open Scope Z_scope.

(** ** Exceptions and the error monad *)

Inductive exn : Type :=
  | ValueError
  | KeyError
  | IndexError
  | AttributeError
  | FileNotFoundError
  | SystemExit (code : Z).

Inductive result (A : Type) : Type :=
  | Ok (a : A)
  | Raise (e : exn).
Arguments Ok {A} a.
Arguments Raise {A} e.

#[global] Instance result_ret : MRet result := λ A a, Ok a.
#[global] Instance result_bind : MBind result := λ A B f r,
  match r with
  | Ok a => f a
  | Raise e => Raise e
  end.
#[global] Instance result_fmap : FMap result := λ A B f r,
  match r with
  | Ok a => Ok (f a)
  | Raise e => Raise e
  end.

Definition is_ok {A} (r : result A) : bool :=
  match r with Ok _ => true | Raise _ => false end.

(** [o] or, when it is [None], the exception [e]. *)
Definition or_raise {A} (e : exn) (o : option A) : result A :=
  match o with
  | Some a => Ok a
  | None => Raise e
  end.

(** ** The Python string and integer primitives the assemblers use *)

Module Py.

(** [str.isspace] on one ASCII character: TAB..CR, FS..US and the blank. *)
Definition is_space (c : ascii) : bool :=
  let n := Z.of_N (N_of_ascii c) in
  ((9 <=? n) && (n <=? 13)) || ((28 <=? n) && (n <=? 32)).

Fixpoint lstrip (s : string) : string :=
  match s with
  | EmptyString => EmptyString
  | String c s' => if is_space c then lstrip s' else s
  end.

(** [rstrip] keeps a character when it or anything after it is not blank. *)
Fixpoint rstrip (s : string) : string :=
  match s with
  | EmptyString => EmptyString
  | String c s' =>
      match rstrip s' with
      | EmptyString => if is_space c then EmptyString else String c EmptyString
      | r => String c r
      end
  end.

(** [s.strip()] *)
Definition strip (s : string) : string := rstrip (lstrip s).

(** [s == ""] *)
Definition is_empty (s : string) : bool :=
  match s with EmptyString => true | _ => false end.

(** [c in s] for a one-character [c]. *)
Fixpoint contains (c : ascii) (s : string) : bool :=
  match s with
  | EmptyString => false
  | String d s' => Ascii.eqb c d || contains c s'
  end.

(** [s.split(c, 1)]: the text before the first [c] and, when there is a
    [c], the text after it. *)
Fixpoint split1 (c : ascii) (s : string) : string * option string :=
  match s with
  | EmptyString => (EmptyString, None)
  | String d s' =>
      if Ascii.eqb c d then (EmptyString, Some s')
      else let '(a, b) := split1 c s' in (String d a, b)
  end.

(** [a, b = s.split(c, 1)]: unpacking fails with [ValueError] when [s] has
    no [c]. *)
Definition unpack_split1 (c : ascii) (s : string) : result (string * string) :=
  match split1 c s with
  | (a, Some b) => Ok (a, b)
  | (_, None) => Raise ValueError
  end.

(** [s.split(c)]: all the pieces between occurrences of [c]. *)
Fixpoint split (c : ascii) (s : string) : list string :=
  match s with
  | EmptyString => [EmptyString]
  | String d s' =>
      if Ascii.eqb c d then EmptyString :: split c s'
      else match split c s' with
           | p :: ps => String d p :: ps
           | [] => [String d EmptyString]
           end
  end.

(** [s.replace(c, '')] *)
Fixpoint remove (c : ascii) (s : string) : string :=
  match s with
  | EmptyString => EmptyString
  | String d s' => if Ascii.eqb c d then remove c s' else String d (remove c s')
  end.

Definition lower_char (c : ascii) : ascii :=
  let n := N_of_ascii c in
  if ((65 <=? n) && (n <=? 90))%N then ascii_of_N (n + 32) else c.

(** [s.lower()] *)
Fixpoint lower (s : string) : string :=
  match s with
  | EmptyString => EmptyString
  | String c s' => String (lower_char c) (lower s')
  end.

(** [x in [..]] on strings. *)
Definition mem (x : string) (l : list string) : bool :=
  existsb (String.eqb x) l.

(** [d.get(k)] on a dictionary literal, kept as an association list. *)
Fixpoint dict_get {V} (d : list (string * V)) (k : string) : option V :=
  match d with
  | [] => None
  | (k', v) :: d' => if String.eqb k k' then Some v else dict_get d' k
  end.

(** [re.split(r'[ \t]+', s, 1)]: the text before the first run of blanks
    and tabs, and the text after that run when there is one. *)
Definition is_blank (c : ascii) : bool :=
  Ascii.eqb c " "%char || Ascii.eqb c "009"%char.

Fixpoint skip_blanks (s : string) : string :=
  match s with
  | EmptyString => EmptyString
  | String c s' => if is_blank c then skip_blanks s' else s
  end.

Fixpoint re_split_blanks1 (s : string) : string * option string :=
  match s with
  | EmptyString => (EmptyString, None)
  | String c s' =>
      if is_blank c then (EmptyString, Some (skip_blanks s'))
      else let '(a, b) := re_split_blanks1 s' in (String c a, b)
  end.

(** The operand splitter [re.split(r',|(?<=\))\s*(?=L)', s)], where the
    look-ahead [L] is one character of the class [la]: a comma always
    splits; right after a closing parenthesis, a run of white space (kept
    aside in [gap]) followed by a character of [la] splits there too and is
    consumed, and that character begins the next piece. *)
Fixpoint re_split_operands (la : ascii → bool) (after_paren : bool)
    (gap cur : string) (s : string) : list string :=
  match s with
  | EmptyString => [cur +:+ gap]
  | String c s' =>
      if Ascii.eqb c ","%char then
        (cur +:+ gap) :: re_split_operands la false "" "" s'
      else if after_paren && la c then
        cur :: re_split_operands la false "" (String c "") s'
      else if after_paren && is_space c then
        re_split_operands la true (gap +:+ String c "") cur s'
      else
        re_split_operands la (Ascii.eqb c ")"%char) ""
          (cur +:+ gap +:+ String c "") s'
  end.

(** [[a.strip() for a in re.split(.., s) if a.strip()]] *)
Definition operands (la : ascii → bool) (s : string) : list string :=
  filter (λ a, is_empty a = false)
    (strip <$> re_split_operands la false "" "" s).

(** The white space [int] skips around an ASCII literal: TAB..CR and the
    blank (not FS..US, which [strip] does remove). *)
Definition is_int_space (c : ascii) : bool :=
  let n := Z.of_N (N_of_ascii c) in
  ((9 <=? n) && (n <=? 13)) || (n =? 32).

Fixpoint skip_int_space (s : string) : string :=
  match s with
  | EmptyString => EmptyString
  | String c s' => if is_int_space c then skip_int_space s' else s
  end.

(** The value of a digit or letter in an integer literal. *)
Definition digit_val (c : ascii) : option Z :=
  let n := Z.of_N (N_of_ascii c) in
  if (48 <=? n) && (n <=? 57) then Some (n - 48)
  else if (97 <=? n) && (n <=? 122) then Some (n - 87)
  else if (65 <=? n) && (n <=? 90) then Some (n - 55)
  else None.

(** The digits of an integer literal in [base], single underscores allowed
    between them: the value read, the number of digits, and the text that
    follows; [None] on a doubled or trailing underscore. *)
Fixpoint scan_digits (base : Z) (prev_us : bool) (acc : Z) (n : nat)
    (s : string) : option (Z * nat * string) :=
  let stop := if prev_us then None else Some (acc, n, s) in
  match s with
  | EmptyString => stop
  | String c s' =>
      if Ascii.eqb c "_"%char then
        if prev_us then None else scan_digits base true acc n s'
      else
        match digit_val c with
        | Some d =>
            if d <? base then scan_digits base false (acc * base + d) (S n) s'
            else stop
        | None => stop
        end
  end.

Definition skip_underscore (s : string) : string :=
  match s with
  | String "_"%char s' => s'
  | _ => s
  end.

(** [int(s, 0)] when [base0], [int(s)] otherwise: white space around the
    literal, an optional sign, with [base0] a prefix [0x], [0o] or [0b]
    (a decimal literal with a leading zero is then accepted only when its
    value is zero), and the digits. [None] stands for [ValueError]. The
    interpreter's limit on the length of a decimal literal is not
    modelled. *)
Definition int_literal (base0 : bool) (s : string) : option Z :=
  let s := skip_int_space s in
  let '(neg, s) :=
    match s with
    | String "+"%char t => (false, t)
    | String "-"%char t => (true, t)
    | _ => (false, s)
    end in
  let '(base, zero_only, s) :=
    if base0 then
      match s with
      | String "0"%char (String c t) =>
          if Ascii.eqb c "x"%char || Ascii.eqb c "X"%char
          then (16, false, skip_underscore t)
          else if Ascii.eqb c "o"%char || Ascii.eqb c "O"%char
          then (8, false, skip_underscore t)
          else if Ascii.eqb c "b"%char || Ascii.eqb c "B"%char
          then (2, false, skip_underscore t)
          else (10, true, s)
      | String "0"%char EmptyString => (10, true, s)
      | _ => (10, false, s)
      end
    else (10, false, s) in
  match s with
  | String "_"%char _ => None
  | _ =>
      match scan_digits base false 0 0 s with
      | Some (v, n, rest) =>
          if zero_only && negb (v =? 0) then None
          else if (n =? 0)%nat then None
          else if is_empty (skip_int_space rest) then Some (if neg then - v else v)
          else None
      | None => None
      end
  end.

(** [int(s, 0)] *)
Definition int0 (s : string) : result Z := or_raise ValueError (int_literal true s).

(** [int(s)] *)
Definition int10 (s : string) : result Z := or_raise ValueError (int_literal false s).

(** [f'{z}'] *)
Definition str (z : Z) : string :=
  DecimalString.NilZero.string_of_int (Z.to_int z).

Fixpoint zeros (n : nat) : string :=
  match n with
  | O => ""
  | S n' => String "0"%char (zeros n')
  end.

(** [format(z, '08x')]: lower-case hexadecimal, padded with zeros after the
    sign to eight characters in all. *)
Definition format_08x (z : Z) : string :=
  let digits := HexadecimalString.NilZero.string_of_uint (N.to_hex_uint (Z.abs_N z)) in
  if z <? 0 then "-" +:+ zeros (7 - String.length digits) +:+ digits
  else zeros (8 - String.length digits) +:+ digits.

(** The binary digits of a positive number, written before [rest]. *)
Fixpoint bin_digits (p : positive) (rest : string) : string :=
  match p with
  | xH => String "1"%char rest
  | xO q => bin_digits q (String "0"%char rest)
  | xI q => bin_digits q (String "1"%char rest)
  end.

(** [format(z, f'0{width}b')]: binary, padded with zeros after the sign to
    [width] characters in all. *)
Definition format_0b (width : Z) (z : Z) : string :=
  let digits :=
    match Z.abs_N z with
    | N0 => "0"
    | Npos p => bin_digits p ""
    end in
  if z <? 0 then "-" +:+ zeros (Z.to_nat width - 1 - String.length digits) +:+ digits
  else zeros (Z.to_nat width - String.length digits) +:+ digits.

End Py.

(** Bit operators: [.|] and [.&] for the source's [|] and [&]; [≪] and [≫]
    are its shifts. *)
Local Infix ".|" := Z.lor (at level 50, left associativity).
Local Infix ".&" := Z.land (at level 40, left associativity).

(** A canonical instruction: mnemonic and raw operand text. *)
Abbreviation instr := (string * string)%type.

(** What a run leaves behind: the exit status of the process and the text
    of the output file, when one was written. *)
Record outcome : Type := { exit_status : Z; written : option string }.

Definition newline : string := String "010"%char "".

(** [args[k]] *)
Definition arg (args : list string) (k : nat) : result string :=
  or_raise IndexError (args !! k).

(** [self.labels[t] if t in self.labels else int(t, 0)] *)
Definition resolve (labels : gmap string Z) (t : string) : result Z :=
  match labels !! t with
  | Some v => Ok v
  | None => Py.int0 t
  end.

(** [parts = re.split(r'[ \t]+', line, 1)]: the mnemonic [parts[0].lower()]
    and the operand text [parts[1]], empty when there is none. Both
    assemblers split a statement this way. *)
Definition statement (line : string) : string * string :=
  let parts := Py.re_split_blanks1 line in
  (Py.lower parts.1, default "" parts.2).

(** ** mips_assembler.py *)

Module MIPS.

Definition REGISTERS : list (string * Z) :=
  [("0", 0); ("zero", 0); ("at", 1); ("v0", 2); ("v1", 3); ("a0", 4); ("a1", 5);
   ("a2", 6); ("a3", 7); ("t0", 8); ("t1", 9); ("t2", 10); ("t3", 11); ("t4", 12);
   ("t5", 13); ("t6", 14); ("t7", 15); ("s0", 16); ("s1", 17); ("s2", 18);
   ("s3", 19); ("s4", 20); ("s5", 21); ("s6", 22); ("s7", 23); ("t8", 24);
   ("t9", 25); ("k0", 26); ("k1", 27); ("gp", 28); ("sp", 29); ("fp", 30);
   ("ra", 31)].

Definition R_TYPE : list (string * Z) :=
  [("add", 0x20); ("sub", 0x22); ("and", 0x24); ("or", 0x25); ("xor", 0x26);
   ("nor", 0x27); ("slt", 0x2a); ("sll", 0x00); ("srl", 0x02); ("sra", 0x03);
   ("jr", 0x08); ("jalr", 0x09)].

Definition OPCODES : list (string * Z) :=
  [("addi", 0x08); ("slti", 0x0a); ("andi", 0x0c); ("ori", 0x0d); ("xori", 0x0e);
   ("lui", 0x0f); ("beq", 0x04); ("blez", 0x06); ("bltz", 0x01); ("j", 0x02);
   ("jal", 0x03); ("lb", 0x20); ("lh", 0x21); ("lw", 0x23); ("sb", 0x28);
   ("sh", 0x29); ("sw", 0x2b)].

Definition parse_reg (reg_str : string) : result Z :=
  let reg_str := Py.strip (Py.remove ","%char (Py.remove "$"%char reg_str)) in
  match Py.dict_get REGISTERS reg_str with
  | Some r => Ok r
  | None => Py.int10 reg_str
  end.

(** [1 << bits] raises [ValueError] for a negative [bits]. *)
Definition to_twos_complement (val bits : Z) : result string :=
  if bits <? 0 then Raise ValueError
  else
    let val := if val <? 0 then (1 ≪ bits) + val else val in
    Ok (Py.format_0b bits (val .& ((1 ≪ bits) - 1))).

(** The instruction list and the label table that [preprocess] builds. *)
Record pstate : Type := { clean_lines : list instr; labels : gmap string Z }.

(** The canonical instructions one statement appends to [clean_lines]. *)
Definition expand (mnemonic args : string) : result (list instr) :=
  if String.eqb mnemonic "nop" then
    Ok [("addi", "$0, $0, 0")]
  else if String.eqb mnemonic "li" then
    '(reg, val) ← Py.unpack_split1 ","%char args;
    val ← Py.int0 (Py.strip val);
    if (-32768 <=? val) && (val <=? 32767) then
      Ok [("addi", reg +:+ ", $0, " +:+ Py.str val)]
    else
      let upper := (val ≫ 16) .& 0xFFFF in
      let lower := val .& 0xFFFF in
      Ok (("lui", reg +:+ ", " +:+ Py.str upper)
          :: (if negb (lower =? 0)
              then [("ori", reg +:+ ", " +:+ reg +:+ ", " +:+ Py.str lower)]
              else []))
  else if String.eqb mnemonic "mv" then
    '(rd, rs) ← Py.unpack_split1 ","%char args;
    Ok [("addi", rd +:+ ", " +:+ rs +:+ ", 0")]
  else if String.eqb mnemonic "not" then
    '(rd, rs) ← Py.unpack_split1 ","%char args;
    Ok [("nor", rd +:+ ", " +:+ rs +:+ ", $0")]
  else if String.eqb mnemonic "neg" then
    '(rd, rs) ← Py.unpack_split1 ","%char args;
    Ok [("sub", rd +:+ ", $0, " +:+ rs)]
  else
    Ok [(mnemonic, args)].

(** One turn of the loop of [preprocess]. *)
Definition preprocess_line (st : pstate) (line : string) : result pstate :=
  let line := Py.strip (Py.split1 "#"%char line).1 in
  if Py.is_empty line then Ok st
  else
    let '(lbls, line) :=
      if Py.contains ":"%char line then
        let '(label_name, remaining) := Py.split1 ":"%char line in
        (<[Py.strip label_name := Z.of_nat (length (clean_lines st))]> (labels st),
         Py.strip (default "" remaining))
      else (labels st, line) in
    if Py.is_empty line then Ok {| clean_lines := clean_lines st; labels := lbls |}
    else
      let '(mnemonic, args) := statement line in
      new ← expand mnemonic args;
      Ok {| clean_lines := clean_lines st ++ new; labels := lbls |}.

Fixpoint preprocess_from (st : pstate) (lines : list string) : result pstate :=
  match lines with
  | [] => Ok st
  | line :: rest => st' ← preprocess_line st line; preprocess_from st' rest
  end.

Definition preprocess (lines : list string) : result pstate :=
  preprocess_from {| clean_lines := []; labels := ∅ |} lines.

(** The three word layouts the encoder packs. *)
Definition r_word (opcode rs rt rd sa funct : Z) : Z :=
  (opcode ≪ 26) .| (rs ≪ 21) .| (rt ≪ 16) .| (rd ≪ 11) .| (sa ≪ 6) .| funct.

Definition i_word (opcode rs rt imm : Z) : Z :=
  (opcode ≪ 26) .| (rs ≪ 21) .| (rt ≪ 16) .| (imm .& 0xFFFF).

Definition j_word (opcode target : Z) : Z :=
  (opcode ≪ 26) .| (target .& 0x03FFFFFF).

(** [re.search(r'(-?\d+)\((\$\w+)\)', s)]: the two groups of the leftmost
    match. *)
Definition is_digit (c : ascii) : bool :=
  let n := Z.of_N (N_of_ascii c) in (48 <=? n) && (n <=? 57).

Definition is_word (c : ascii) : bool :=
  let n := Z.of_N (N_of_ascii c) in
  ((48 <=? n) && (n <=? 57)) || ((65 <=? n) && (n <=? 90))
  || ((97 <=? n) && (n <=? 122)) || (n =? 95).

Fixpoint span (p : ascii → bool) (s : string) : string * string :=
  match s with
  | EmptyString => ("", "")
  | String c s' =>
      if p c then let '(a, b) := span p s' in (String c a, b)
      else ("", s)
  end.

Definition match_offset_base (s : string) : option (string * string) :=
  let '(sign, s1) :=
    match s with
    | String "-"%char t => ("-", t)
    | _ => ("", s)
    end in
  let '(digits, s2) := span is_digit s1 in
  if Py.is_empty digits then None
  else
    match s2 with
    | String "("%char (String "$"%char s3) =>
        let '(name, s4) := span is_word s3 in
        if Py.is_empty name then None
        else
          match s4 with
          | String ")"%char _ => Some (sign +:+ digits, "$" +:+ name)
          | _ => None
          end
    | _ => None
    end.

Fixpoint search_offset_base (s : string) : option (string * string) :=
  match match_offset_base s with
  | Some g => Some g
  | None =>
      match s with
      | EmptyString => None
      | String _ s' => search_offset_base s'
      end
  end.

(** The look-ahead of the operand splitter: a dollar sign. *)
Definition lookahead (c : ascii) : bool := Ascii.eqb c "$"%char.

(** The body of the [try] block: the machine word of instruction [i]. *)
Definition encode (labels : gmap string Z) (i : nat) (mnemonic args_str : string)
    : result Z :=
  let args := Py.operands lookahead args_str in
  match Py.dict_get R_TYPE mnemonic with
  | Some funct =>
      let opcode := 0 in
      if Py.mem mnemonic ["sll"; "srl"; "sra"] then
        a0 ← arg args 0; rd ← parse_reg a0;
        a1 ← arg args 1; rt ← parse_reg a1;
        a2 ← arg args 2; sa ← Py.int0 a2;
        Ok (r_word opcode 0 rt rd sa funct)
      else if String.eqb mnemonic "jr" then
        a0 ← arg args 0; rs ← parse_reg a0;
        Ok (r_word opcode rs 0 0 0 funct)
      else if String.eqb mnemonic "jalr" then
        rd ← (if (1 <? length args)%nat then a0 ← arg args 0; parse_reg a0 else Ok 31);
        rs ← (if (1 <? length args)%nat then a1 ← arg args 1; parse_reg a1
              else a0 ← arg args 0; parse_reg a0);
        Ok (r_word opcode rs 0 rd 0 funct)
      else
        a0 ← arg args 0; rd ← parse_reg a0;
        a1 ← arg args 1; rs ← parse_reg a1;
        a2 ← arg args 2; rt ← parse_reg a2;
        Ok (r_word opcode rs rt rd 0 funct)
  | None =>
      if Py.mem mnemonic ["j"; "jal"] then
        opcode ← or_raise KeyError (Py.dict_get OPCODES mnemonic);
        a0 ← arg args 0; target ← resolve labels a0;
        Ok (j_word opcode target)
      else
        match Py.dict_get OPCODES mnemonic with
        | Some opcode =>
            if Py.mem mnemonic ["beq"] then
              a0 ← arg args 0; rs ← parse_reg a0;
              a1 ← arg args 1; rt ← parse_reg a1;
              a2 ← arg args 2; target ← resolve labels a2;
              let offset := target - (Z.of_nat i + 1) in
              Ok (i_word opcode rs rt offset)
            else if Py.mem mnemonic ["blez"; "bltz"] then
              a0 ← arg args 0; rs ← parse_reg a0;
              let rt := if String.eqb mnemonic "blez" then 0 else 0 in
              a1 ← arg args 1; target ← resolve labels a1;
              let offset := target - (Z.of_nat i + 1) in
              Ok (i_word opcode rs rt offset)
            else if Py.mem mnemonic ["lw"; "sw"; "lb"; "sb"; "lh"; "sh"] then
              a0 ← arg args 0; rt ← parse_reg a0;
              a1 ← arg args 1;
              '(g1, g2) ← or_raise AttributeError (search_offset_base a1);
              imm ← Py.int0 g1;
              rs ← parse_reg g2;
              Ok (i_word opcode rs rt imm)
            else if String.eqb mnemonic "lui" then
              a0 ← arg args 0; rt ← parse_reg a0;
              a1 ← arg args 1; imm ← Py.int0 a1;
              Ok (i_word opcode 0 rt imm)
            else
              a0 ← arg args 0; rt ← parse_reg a0;
              a1 ← arg args 1; rs ← parse_reg a1;
              a2 ← arg args 2; imm ← Py.int0 a2;
              Ok (i_word opcode rs rt imm)
        | None => Ok 0
        end
  end.

(** The loop of [assemble] from instruction [i] on: the hexadecimal words,
    or the first exception raised in the [try] block. *)
Fixpoint encode_from (labels : gmap string Z) (i : nat) (code : list instr)
    : result (list string) :=
  match code with
  | [] => Ok []
  | (mnemonic, args_str) :: rest =>
      machine_code ← encode labels i mnemonic args_str;
      out ← encode_from labels (S i) rest;
      Ok (Py.format_08x machine_code :: out)
  end.

(** [assemble], given the lines of the file: an exception in the [try]
    block ends in [sys.exit(1)], one in [preprocess] escapes as it is. *)
Definition assemble (raw_lines : list string) : result (list string) :=
  st ← preprocess raw_lines;
  match encode_from (labels st) 0 (clean_lines st) with
  | Ok binary_output => Ok binary_output
  | Raise _ => Raise (SystemExit 1)
  end.

Fixpoint coe_body (hex_list : list string) : string :=
  match hex_list with
  | [] => ""
  | [h] => h +:+ ";" +:+ newline
  | h :: rest => h +:+ "," +:+ newline +:+ coe_body rest
  end.

Definition write_coe (hex_list : list string) : string :=
  "; MIPS Instructions Generated by Python Assembler" +:+ newline
  +:+ "memory_initialization_radix=16;" +:+ newline
  +:+ "memory_initialization_vector=" +:+ newline
  +:+ coe_body hex_list.

(** The script: [source] is the content of [mips.asm], [None] when the
    file does not exist (the only exception the script catches); an
    uncaught exception ends the process with status 1, [sys.exit(code)]
    with [code]. *)
Definition main (source : option (list string)) : outcome :=
  match source with
  | None => {| exit_status := 0; written := None |}
  | Some raw_lines =>
      match assemble raw_lines with
      | Ok results => {| exit_status := 0; written := Some (write_coe results) |}
      | Raise (SystemExit code) => {| exit_status := code; written := None |}
      | Raise _ => {| exit_status := 1; written := None |}
      end
  end.

End MIPS.

(** ** riscv_assembler.py *)

Module RISCV.

Definition REGS : list (string * Z) :=
  [("zero", 0); ("ra", 1); ("sp", 2); ("gp", 3); ("tp", 4); ("t0", 5); ("t1", 6);
   ("t2", 7); ("s0", 8); ("fp", 8); ("s1", 9); ("a0", 10); ("a1", 11); ("a2", 12);
   ("a3", 13); ("a4", 14); ("a5", 15); ("a6", 16); ("a7", 17); ("s2", 18);
   ("s3", 19); ("s4", 20); ("s5", 21); ("s6", 22); ("s7", 23); ("s8", 24);
   ("s9", 25); ("s10", 26); ("s11", 27); ("t3", 28); ("t4", 29); ("t5", 30);
   ("t6", 31)]
  ++ ((λ i, ("x" +:+ Py.str (Z.of_nat i), Z.of_nat i)) <$> seq 0 32).

(** An entry of [OPCODES]: the keys ['op'], ['f3'] and ['f7'] it has. *)
Record info : Type := { op : Z; f3 : option Z; f7 : option Z }.

Definition R (f3 f7 : Z) : info := {| op := 0x33; f3 := Some f3; f7 := Some f7 |}.
Definition F (op f3 : Z) : info := {| op := op; f3 := Some f3; f7 := None |}.
Definition U (op : Z) : info := {| op := op; f3 := None; f7 := None |}.

Definition OPCODES : list (string * info) :=
  [("add", R 0x0 0x00); ("sub", R 0x0 0x20); ("sll", R 0x1 0x00);
   ("slt", R 0x2 0x00); ("sltu", R 0x3 0x00); ("xor", R 0x4 0x00);
   ("srl", R 0x5 0x00); ("sra", R 0x5 0x20); ("or", R 0x6 0x00);
   ("and", R 0x7 0x00);
   ("addi", F 0x13 0x0); ("slti", F 0x13 0x2); ("andi", F 0x13 0x7);
   ("ori", F 0x13 0x6); ("xori", F 0x13 0x4);
   ("lw", F 0x03 0x2); ("lb", F 0x03 0x0); ("lh", F 0x03 0x1);
   ("jalr", F 0x67 0x0);
   ("sw", F 0x23 0x2); ("sb", F 0x23 0x0); ("sh", F 0x23 0x1);
   ("beq", F 0x63 0x0); ("bne", F 0x63 0x1); ("blt", F 0x63 0x4);
   ("bge", F 0x63 0x5);
   ("lui", U 0x37); ("auipc", U 0x17);
   ("jal", U 0x6f)].

Definition parse_reg (s : string) : result Z :=
  let s := Py.strip (Py.remove "$"%char (Py.remove ","%char s)) in
  match Py.dict_get REGS s with
  | Some r => Ok r
  | None => Py.int10 (Py.remove "x"%char s)
  end.

Definition get_bits (val high low : Z) : Z :=
  let mask := (1 ≪ (high - low + 1)) - 1 in
  (val ≫ low) .& mask.

(** The state of pass 1. *)
Record pstate : Type :=
  { processed_code : list instr; pc : Z; labels : gmap string Z }.

(** The canonical instructions one statement appends to [processed_code];
    each of them advances [pc] by 4. *)
Definition expand (op args : string) : result (list instr) :=
  if String.eqb op "nop" then
    Ok [("addi", "x0, x0, 0")]
  else if String.eqb op "li" then
    '(rd, imm_s) ← Py.unpack_split1 ","%char args;
    imm ← Py.int0 (Py.strip imm_s);
    let upper := (imm + 0x800) ≫ 12 in
    let lower := imm .& 0xFFF in
    Ok [("lui", rd +:+ ", " +:+ Py.str upper);
        ("addi", rd +:+ ", " +:+ rd +:+ ", " +:+ Py.str lower)]
  else if String.eqb op "mv" then
    '(rd, rs) ← Py.unpack_split1 ","%char args;
    Ok [("addi", rd +:+ ", " +:+ rs +:+ ", 0")]
  else if String.eqb op "not" then
    '(rd, rs) ← Py.unpack_split1 ","%char args;
    Ok [("xori", rd +:+ ", " +:+ rs +:+ ", -1")]
  else if String.eqb op "neg" then
    '(rd, rs) ← Py.unpack_split1 ","%char args;
    Ok [("sub", rd +:+ ", x0, " +:+ rs)]
  else if String.eqb op "j" then
    Ok [("jal", "x0, " +:+ args)]
  else
    Ok [(op, args)].

(** [[l.split('#')[0].strip() for l in f if l.split('#')[0].strip()]] *)
Definition source_lines (f : list string) : list string :=
  filter (λ l, Py.is_empty l = false)
    ((λ l, Py.strip (Py.split1 "#"%char l).1) <$> f).

(** One turn of the loop of pass 1. *)
Definition pass1_line (st : pstate) (line : string) : result pstate :=
  let '(lbls, line) :=
    if Py.contains ":"%char line then
      let '(label, instr) := Py.split1 ":"%char line in
      (<[Py.strip label := pc st]> (labels st), Py.strip (default "" instr))
    else (labels st, line) in
  if Py.is_empty line
  then Ok {| processed_code := processed_code st; pc := pc st; labels := lbls |}
  else
    let '(op, args) := statement line in
    new ← expand op args;
    Ok {| processed_code := processed_code st ++ new;
          pc := pc st + 4 * Z.of_nat (length new);
          labels := lbls |}.

Fixpoint pass1_from (st : pstate) (lines : list string) : result pstate :=
  match lines with
  | [] => Ok st
  | line :: rest => st' ← pass1_line st line; pass1_from st' rest
  end.

Definition pass1 (lines : list string) : result pstate :=
  pass1_from {| processed_code := []; pc := 0; labels := ∅ |} lines.

(** The six word layouts of pass 2. *)
Definition r_word (f7 rs2 rs1 f3 rd op : Z) : Z :=
  (f7 ≪ 25) .| (rs2 ≪ 20) .| (rs1 ≪ 15) .| (f3 ≪ 12) .| (rd ≪ 7) .| op.

Definition i_word (imm rs1 f3 rd op : Z) : Z :=
  ((imm .& 0xFFF) ≪ 20) .| (rs1 ≪ 15) .| (f3 ≪ 12) .| (rd ≪ 7) .| op.

Definition s_word (imm rs2 rs1 f3 op : Z) : Z :=
  let imm_11_5 := get_bits imm 11 5 in
  let imm_4_0 := get_bits imm 4 0 in
  (imm_11_5 ≪ 25) .| (rs2 ≪ 20) .| (rs1 ≪ 15) .| (f3 ≪ 12) .| (imm_4_0 ≪ 7) .| op.

Definition b_word (off rs2 rs1 f3 op : Z) : Z :=
  let b12 := get_bits off 12 12 in
  let b11 := get_bits off 11 11 in
  let b10_5 := get_bits off 10 5 in
  let b4_1 := get_bits off 4 1 in
  (b12 ≪ 31) .| (b10_5 ≪ 25) .| (rs2 ≪ 20) .| (rs1 ≪ 15) .| (f3 ≪ 12)
  .| (b4_1 ≪ 8) .| (b11 ≪ 7) .| op.

Definition u_word (imm rd op : Z) : Z :=
  ((imm .& 0xFFFFF) ≪ 12) .| (rd ≪ 7) .| op.

Definition j_word (off rd op : Z) : Z :=
  let j20 := get_bits off 20 20 in
  let j19_12 := get_bits off 19 12 in
  let j11 := get_bits off 11 11 in
  let j10_1 := get_bits off 10 1 in
  (j20 ≪ 31) .| (j10_1 ≪ 21) .| (j11 ≪ 20) .| (j19_12 ≪ 12) .| (rd ≪ 7) .| op.

(** [imm_s, rs1_s = a.split('(')] *)
Definition unpack_offset_base (a : string) : result (string * string) :=
  match Py.split "("%char a with
  | [imm_s; rs1_s] => Ok (imm_s, rs1_s)
  | _ => Raise ValueError
  end.

(** The look-ahead of the operand splitter: one of [x a t s z r f g p]. *)
Definition lookahead (c : ascii) : bool :=
  Py.contains c "xatszrfgp".

(** The body of the loop of pass 2: the value of [code] for the instruction
    at address [pc]. *)
Definition encode (labels : gmap string Z) (pc : Z) (op args_s : string) : result Z :=
  let args := Py.operands lookahead args_s in
  info ← or_raise KeyError (Py.dict_get OPCODES op);
  if RISCV.op info =? 0x33 then
    a0 ← arg args 0; rd ← parse_reg a0;
    a1 ← arg args 1; rs1 ← parse_reg a1;
    a2 ← arg args 2; rs2 ← parse_reg a2;
    f7 ← or_raise KeyError (f7 info);
    f3 ← or_raise KeyError (f3 info);
    Ok (r_word f7 rs2 rs1 f3 rd (RISCV.op info))
  else if bool_decide (RISCV.op info ∈ [0x13; 0x03; 0x67]) then
    a1 ← arg args 1;
    '(rd, rs1, imm) ←
      (if Py.contains "("%char a1 then
         a0 ← arg args 0; rd ← parse_reg a0;
         '(imm_s, rs1_s) ← unpack_offset_base a1;
         imm ← Py.int0 imm_s;
         rs1 ← parse_reg (Py.remove ")"%char rs1_s);
         Ok (rd, rs1, imm)
       else
         a0 ← arg args 0; rd ← parse_reg a0;
         rs1 ← parse_reg a1;
         a2 ← arg args 2; imm ← Py.int0 a2;
         Ok (rd, rs1, imm));
    Ok (i_word imm rs1 (default 0 (f3 info)) rd (RISCV.op info))
  else if RISCV.op info =? 0x23 then
    a0 ← arg args 0; rs2 ← parse_reg a0;
    a1 ← arg args 1;
    '(imm_s, rs1_s) ← unpack_offset_base a1;
    imm ← Py.int0 imm_s;
    rs1 ← parse_reg (Py.remove ")"%char rs1_s);
    f3 ← or_raise KeyError (f3 info);
    Ok (s_word imm rs2 rs1 f3 (RISCV.op info))
  else if RISCV.op info =? 0x63 then
    a0 ← arg args 0; rs1 ← parse_reg a0;
    a1 ← arg args 1; rs2 ← parse_reg a1;
    a2 ← arg args 2; target ← resolve labels a2;
    let off := target - pc in
    f3 ← or_raise KeyError (f3 info);
    Ok (b_word off rs2 rs1 f3 (RISCV.op info))
  else if bool_decide (RISCV.op info ∈ [0x37; 0x17]) then
    a0 ← arg args 0; rd ← parse_reg a0;
    a1 ← arg args 1; imm ← Py.int0 a1;
    Ok (u_word imm rd (RISCV.op info))
  else if RISCV.op info =? 0x6f then
    a0 ← arg args 0; rd ← parse_reg a0;
    a1 ← arg args 1; target ← resolve labels a1;
    let off := target - pc in
    Ok (j_word off rd (RISCV.op info))
  else Ok 0.

(** The loop of pass 2 from address [pc] on. *)
Fixpoint pass2_from (labels : gmap string Z) (pc : Z) (code : list instr)
    : result (list string) :=
  match code with
  | [] => Ok []
  | (op, args_s) :: rest =>
      code ← encode labels pc op args_s;
      out ← pass2_from labels (pc + 4) rest;
      Ok (Py.format_08x (code .& 0xFFFFFFFF) :: out)
  end.

(** [assemble], given the lines of the file. *)
Definition assemble (f : list string) : result (list string) :=
  st ← pass1 (source_lines f);
  pass2_from (labels st) 0 (processed_code st).

Fixpoint coe_body (hex_list : list string) : string :=
  match hex_list with
  | [] => ""
  | [h] => h +:+ ";"
  | h :: rest => h +:+ "," +:+ newline +:+ coe_body rest
  end.

Definition write_coe (hex_list : list string) : string :=
  "memory_initialization_radix=16;" +:+ newline
  +:+ "memory_initialization_vector=" +:+ newline
  +:+ coe_body hex_list.

(** The script: [source] is the content of [test2.asm], [None] when the
    file does not exist; no exception is caught, and an uncaught exception
    ends the process with status 1. *)
Definition main (source : option (list string)) : outcome :=
  match (f ← or_raise FileNotFoundError source; assemble f) with
  | Ok res => {| exit_status := 0; written := Some (write_coe res) |}
  | Raise _ => {| exit_status := 1; written := None |}
  end.

End RISCV.

(** ** Reading a word back

    The fields of a word at the documented bit positions, used to state
    what the encoders guarantee. *)

(** Bits [high..low] of [w]. *)
Definition field (w high low : Z) : Z := (w ≫ low) .& Z.ones (high - low + 1).

(** The value of an [n]-bit field read as a two's-complement number. *)
Definition sign_extend (n v : Z) : Z := if v <? 2 ^ (n - 1) then v else v - 2 ^ n.

(** The immediate of a RISC-V store word, from [31:25] and [11:7]. *)
Definition s_imm (w : Z) : Z := (field w 31 25 ≪ 5) .| field w 11 7.

(** The 13-bit immediate of a RISC-V branch word: [31]=bit 12,
    [30:25]=bits 10:5, [11:8]=bits 4:1, [7]=bit 11, bit 0 is zero. *)
Definition b_imm (w : Z) : Z :=
  (field w 31 31 ≪ 12) .| (field w 7 7 ≪ 11) .| (field w 30 25 ≪ 5) .| (field w 11 8 ≪ 1).

(** The 21-bit immediate of a RISC-V jump word: [31]=bit 20,
    [30:21]=bits 10:1, [20]=bit 11, [19:12]=bits 19:12, bit 0 is zero. *)
Definition j_imm (w : Z) : Z :=
  (field w 31 31 ≪ 20) .| (field w 19 12 ≪ 12) .| (field w 20 20 ≪ 11) .| (field w 30 21 ≪ 1).

(** An [n]-bit field holding [v] gives back the immediate [imm]: as it
    is when [imm] is in the unsigned range of the field, and read as a
    two's-complement number when [imm] is in its signed range. *)
Definition recovers (n v imm : Z) : Prop :=
  (0 ≤ imm < 2 ^ n → v = imm)
  ∧ (- 2 ^ (n - 1) ≤ imm < 2 ^ (n - 1) → sign_extend n v = imm).

(** ** A common view of the first pass

    Both assemblers read a line the same way: the text before [#],
    stripped; an optional label before the first colon; the statement after
    it. [scan] is the first pass they share, over the canonical instruction
    list and the label table, with the address of instruction [k] being
    [unit * k]. *)

(** [line.split('#')[0].strip()] *)
Definition norm (line : string) : string := Py.strip (Py.split1 "#"%char line).1.

(** The label a normalised line defines. *)
Definition label_of (n : string) : option string :=
  if Py.contains ":"%char n then Some (Py.strip (Py.split1 ":"%char n).1) else None.

(** The statement a normalised line carries, empty when it has none. *)
Definition statement_text (n : string) : string :=
  if Py.contains ":"%char n then Py.strip (default "" (Py.split1 ":"%char n).2) else n.

Section FirstPass.
Context (expand : string → string → result (list instr)) (unit : Z).

(** The canonical instructions a normalised line contributes. *)
Definition emitted (n : string) : result (list instr) :=
  let t := statement_text n in
  if Py.is_empty t then Ok []
  else let '(m, a) := statement t in expand m a.

Definition scan_line (s : list instr * gmap string Z) (n : string)
    : result (list instr * gmap string Z) :=
  new ← emitted n;
  Ok (s.1 ++ new,
      match label_of n with
      | Some l => <[l := unit * Z.of_nat (length s.1)]> s.2
      | None => s.2
      end).

Fixpoint scan (s : list instr * gmap string Z) (ns : list string)
    : result (list instr * gmap string Z) :=
  match ns with
  | [] => Ok s
  | n :: rest => s' ← scan_line s n; scan s' rest
  end.
End FirstPass.

Definition mips_state (s : list instr * gmap string Z) : MIPS.pstate :=
  {| MIPS.clean_lines := s.1; MIPS.labels := s.2 |}.

Definition riscv_state (s : list instr * gmap string Z) : RISCV.pstate :=
  {| RISCV.processed_code := s.1;
     RISCV.pc := 4 * Z.of_nat (length s.1);
     RISCV.labels := s.2 |}.

(** ** Branch and jump targets *)

(** The position, among the operands, of the target of a MIPS jump or
    branch. *)
Definition mips_target_operand (m : string) : option nat :=
  if Py.mem m ["j"; "jal"] then Some 0%nat
  else if Py.mem m ["beq"] then Some 2%nat
  else if Py.mem m ["blez"; "bltz"] then Some 1%nat
  else None.

(** The position of the target of a RISC-V branch (opcode [0x63]) or jump
    (opcode [0x6f]). *)
Definition riscv_target_operand (m : string) : option nat :=
  match Py.dict_get RISCV.OPCODES m with
  | Some inf =>
      if RISCV.op inf =? 0x63 then Some 2%nat
      else if RISCV.op inf =? 0x6f then Some 1%nat
      else None
  | None => None
  end.

(** ** Sample programs *)

(** A RISC-V branch over 2047 instructions to a label 8192 bytes ahead. *)
Definition far_program : list string :=
  "beq x0, x0, far" :: replicate 2047 "nop" ++ ["far:"].

(** A MIPS loop with a forward and a backward branch and a jump. *)
Definition mips_loop : list string :=
  ["# count up to $t1";
   "loop: addi $t0, $t0, 1";
   "      beq  $t0, $t1, done";
   "      bltz $t0, loop";
   "      j    loop";
   "done: nop"].

(** The same loop for RISC-V. *)
Definition riscv_loop : list string :=
  ["# count up to t1";
   "loop: addi t0, t0, 1";
   "      beq  t0, t1, done";
   "      blt  t0, x0, loop";
   "      jal  x0, loop";
   "done: nop"].

(** ** Helpers for the statements about whole instructions *)

(** The value [scan_digits] accumulates over the digits of [d]. *)
Fixpoint uint_val (acc : Z) (d : Decimal.uint) : Z :=
  match d with
  | Decimal.Nil => acc
  | Decimal.D0 d => uint_val (acc * 10 + 0) d
  | Decimal.D1 d => uint_val (acc * 10 + 1) d
  | Decimal.D2 d => uint_val (acc * 10 + 2) d
  | Decimal.D3 d => uint_val (acc * 10 + 3) d
  | Decimal.D4 d => uint_val (acc * 10 + 4) d
  | Decimal.D5 d => uint_val (acc * 10 + 5) d
  | Decimal.D6 d => uint_val (acc * 10 + 6) d
  | Decimal.D7 d => uint_val (acc * 10 + 7) d
  | Decimal.D8 d => uint_val (acc * 10 + 8) d
  | Decimal.D9 d => uint_val (acc * 10 + 9) d
  end.


(** Every character of [s] satisfies [p]. *)
Fixpoint all_chars (p : ascii → bool) (s : string) : bool :=
  match s with
  | EmptyString => true
  | String c s' => p c && all_chars p s'
  end.

(** An operand as it is written: no comma and no parenthesis. *)
Definition plain_char (c : ascii) : bool :=
  negb (Ascii.eqb c ","%char) && negb (Ascii.eqb c "("%char)
  && negb (Ascii.eqb c ")"%char).

Definition plain (s : string) : bool := all_chars plain_char s.

(** A character of a printed decimal number. *)
Definition is_number_char (c : ascii) : bool :=
  MIPS.is_digit c || Ascii.eqb c "-"%char.



(** The label table after [ns], started behind the instructions [c] with
    the table [L], against the table of [ns] alone: the labels of [ns]
    are moved by the length of [c], the others are those of [L]. *)
Definition moved_table (shift : Z) (L L2 L' : gmap string Z) : Prop :=
  ∀ l, L' !! l = match L2 !! l with
                 | Some v => Some (v + shift)
                 | None => L !! l
                 end.

(** ** Bit-level facts about the word layouts *)

Ltac pow2_bounds :=
  repeat match goal with
  | H : 0 ≤ ?x < Zpos ?p |- _ =>
      let k := eval cbv in (Z.log2 (Zpos p)) in
      change (Zpos p) with (2 ^ k) in H
  end.

Ltac ones_masks :=
  repeat match goal with
  | |- context [(1 ≪ ?n) - 1] =>
      let k := eval cbv in n in change ((1 ≪ n) - 1) with (Z.ones k)
  | |- context [Z.ones (?a - ?b + 1)] =>
      let k := eval cbv in (a - b + 1) in change (Z.ones (a - b + 1)) with (Z.ones k)
  end;
  change 0xFFFF with (Z.ones 16);
  change 0xFFF with (Z.ones 12);
  change 0xFFFFF with (Z.ones 20);
  change 0x03FFFFFF with (Z.ones 26);
  change 0xFFFFFFFF with (Z.ones 32).

Ltac bits :=
  intros; repeat match goal with x := _ |- _ => subst x end; pow2_bounds;
  cbv [field s_imm b_imm j_imm RISCV.get_bits MIPS.r_word MIPS.i_word MIPS.j_word
       RISCV.r_word RISCV.i_word RISCV.s_word RISCV.b_word RISCV.u_word RISCV.j_word];
  ones_masks; prove_Zeq_bitwise.

Lemma mips_r_fields opcode rs rt rd sa funct :
  0 ≤ opcode < 64 → 0 ≤ rs < 32 → 0 ≤ rt < 32 → 0 ≤ rd < 32 → 0 ≤ sa < 32 →
  0 ≤ funct < 64 →
  let w := MIPS.r_word opcode rs rt rd sa funct in
  field w 31 26 = opcode ∧ field w 25 21 = rs ∧ field w 20 16 = rt
  ∧ field w 15 11 = rd ∧ field w 10 6 = sa ∧ field w 5 0 = funct.
Proof. intros. repeat split. all: bits. Qed.

Lemma mips_i_fields opcode rs rt imm :
  0 ≤ opcode < 64 → 0 ≤ rs < 32 → 0 ≤ rt < 32 →
  let w := MIPS.i_word opcode rs rt imm in
  field w 31 26 = opcode ∧ field w 25 21 = rs ∧ field w 20 16 = rt
  ∧ field w 15 0 = imm mod 2 ^ 16.
Proof. intros. repeat split; try (rewrite <- Z.land_ones by lia). all: bits. Qed.

Lemma mips_j_fields opcode target :
  0 ≤ opcode < 64 →
  let w := MIPS.j_word opcode target in
  field w 31 26 = opcode ∧ field w 25 0 = target mod 2 ^ 26.
Proof. intros. repeat split; try (rewrite <- Z.land_ones by lia). all: bits. Qed.

Lemma riscv_r_fields f7 rs2 rs1 f3 rd op :
  0 ≤ f7 < 128 → 0 ≤ rs2 < 32 → 0 ≤ rs1 < 32 → 0 ≤ f3 < 8 → 0 ≤ rd < 32 →
  0 ≤ op < 128 →
  let w := RISCV.r_word f7 rs2 rs1 f3 rd op .& 0xFFFFFFFF in
  field w 31 25 = f7 ∧ field w 24 20 = rs2 ∧ field w 19 15 = rs1
  ∧ field w 14 12 = f3 ∧ field w 11 7 = rd ∧ field w 6 0 = op.
Proof. intros. repeat split. all: bits. Qed.

Lemma riscv_i_fields imm rs1 f3 rd op :
  0 ≤ rs1 < 32 → 0 ≤ f3 < 8 → 0 ≤ rd < 32 → 0 ≤ op < 128 →
  let w := RISCV.i_word imm rs1 f3 rd op .& 0xFFFFFFFF in
  field w 31 20 = imm mod 2 ^ 12 ∧ field w 19 15 = rs1
  ∧ field w 14 12 = f3 ∧ field w 11 7 = rd ∧ field w 6 0 = op.
Proof. intros. repeat split; try (rewrite <- Z.land_ones by lia). all: bits. Qed.

Lemma riscv_s_fields imm rs2 rs1 f3 op :
  0 ≤ rs2 < 32 → 0 ≤ rs1 < 32 → 0 ≤ f3 < 8 → 0 ≤ op < 128 →
  let w := RISCV.s_word imm rs2 rs1 f3 op .& 0xFFFFFFFF in
  field w 31 25 = field imm 11 5 ∧ field w 11 7 = field imm 4 0
  ∧ s_imm w = imm mod 2 ^ 12 ∧ field w 24 20 = rs2 ∧ field w 19 15 = rs1
  ∧ field w 14 12 = f3 ∧ field w 6 0 = op.
Proof. intros. repeat split; try (rewrite <- Z.land_ones by lia). all: bits. Qed.

Lemma riscv_b_fields off rs2 rs1 f3 op :
  0 ≤ rs2 < 32 → 0 ≤ rs1 < 32 → 0 ≤ f3 < 8 → 0 ≤ op < 128 →
  let w := RISCV.b_word off rs2 rs1 f3 op .& 0xFFFFFFFF in
  field w 31 31 = field off 12 12 ∧ field w 30 25 = field off 10 5
  ∧ field w 11 8 = field off 4 1 ∧ field w 7 7 = field off 11 11
  ∧ b_imm w = ((off ≫ 1) .& Z.ones 12) ≪ 1
  ∧ field w 24 20 = rs2 ∧ field w 19 15 = rs1
  ∧ field w 14 12 = f3 ∧ field w 6 0 = op.
Proof. intros. repeat split. all: bits. Qed.

Lemma riscv_u_fields imm rd op :
  0 ≤ rd < 32 → 0 ≤ op < 128 →
  let w := RISCV.u_word imm rd op .& 0xFFFFFFFF in
  field w 31 12 = imm mod 2 ^ 20 ∧ field w 11 7 = rd ∧ field w 6 0 = op.
Proof. intros. repeat split; try (rewrite <- Z.land_ones by lia). all: bits. Qed.

Lemma riscv_j_fields off rd op :
  0 ≤ rd < 32 → 0 ≤ op < 128 →
  let w := RISCV.j_word off rd op .& 0xFFFFFFFF in
  field w 31 31 = field off 20 20 ∧ field w 30 21 = field off 10 1
  ∧ field w 20 20 = field off 11 11 ∧ field w 19 12 = field off 19 12
  ∧ j_imm w = ((off ≫ 1) .& Z.ones 20) ≪ 1
  ∧ field w 11 7 = rd ∧ field w 6 0 = op.
Proof. intros. repeat split. all: bits. Qed.

(** ** The result monad *)

Lemma bind_ok {A B} (r : result A) (f : A → result B) (b : B) :
  r ≫= f = Ok b → ∃ a, r = Ok a ∧ f a = Ok b.
Proof. destruct r as [a|e]; cbn; [eauto | discriminate]. Qed.

Lemma fmap_ok {A B} (f : A → B) (r : result A) (b : B) :
  f <$> r = Ok b → ∃ a, r = Ok a ∧ b = f a.
Proof. destruct r as [a|e]; cbn; [intros [= <-]; eauto | discriminate]. Qed.

(** ** The first pass *)

Section FirstPassFacts.
Context (expand : string → string → result (list instr)) (unit : Z).
Implicit Types (s : list instr * gmap string Z) (ns : list string) (l : string).

Local Abbreviation run := (scan expand unit).
Local Abbreviation run_line := (scan_line expand unit).

Lemma scan_line_ok s n s' :
  run_line s n = Ok s' →
  ∃ new, emitted expand n = Ok new ∧ s'.1 = s.1 ++ new
    ∧ s'.2 = match label_of n with
             | Some l => <[l := unit * Z.of_nat (length s.1)]> s.2
             | None => s.2
             end.
Proof.
  unfold scan_line. intros (new & Hn & [= <-])%bind_ok. eauto.
Qed.

Lemma scan_app s ns1 ns2 :
  run s (ns1 ++ ns2) = run s ns1 ≫= λ s', run s' ns2.
Proof.
  revert s. induction ns1 as [|n ns1 IH]; intros s; cbn; [done|].
  destruct (run_line s n); cbn; [apply IH | done].
Qed.

Lemma scan_app_ok s ns1 ns2 s' :
  run s (ns1 ++ ns2) = Ok s' → ∃ s1, run s ns1 = Ok s1 ∧ run s1 ns2 = Ok s'.
Proof. rewrite scan_app. apply bind_ok. Qed.

(** The instruction list only grows. *)
Lemma scan_prefix s ns s' : run s ns = Ok s' → s.1 `prefix_of` s'.1.
Proof.
  revert s. induction ns as [|n ns IH]; intros s; cbn.
  - by intros [= <-].
  - intros (s1 & (new & _ & Hc & _)%scan_line_ok & Hs)%bind_ok.
    etrans; [|exact (IH _ Hs)]. rewrite Hc. by apply prefix_app_r.
Qed.

(** Lines that do not define [l] leave its binding alone. *)
Lemma scan_keeps l s ns s' :
  Forall (λ n, label_of n ≠ Some l) ns → run s ns = Ok s' → s'.2 !! l = s.2 !! l.
Proof.
  intros Hns. revert s. induction Hns as [|n ns Hn _ IH]; intros s; cbn.
  - by intros [= <-].
  - intros (s1 & (new & _ & _ & Hl)%scan_line_ok & Hs)%bind_ok.
    rewrite (IH _ Hs), Hl. destruct (label_of n) as [l'|]; [|done].
    apply lookup_insert_ne. congruence.
Qed.

(** A label is bound to the address reached when its last definition is
    read. *)
Lemma scan_binds l s before n after s' :
  label_of n = Some l →
  Forall (λ n', label_of n' ≠ Some l) after →
  run s (before ++ n :: after) = Ok s' →
  ∃ sb, run s before = Ok sb
    ∧ s'.2 !! l = Some (unit * Z.of_nat (length sb.1))
    ∧ sb.1 `prefix_of` s'.1.
Proof.
  intros Hl Hafter (sb & Hb & Hs)%scan_app_ok. exists sb. split; [done|].
  split; [|by eapply scan_prefix].
  cbn in Hs. apply bind_ok in Hs as (s1 & (new & _ & _ & Hl1)%scan_line_ok & Hs).
  rewrite (scan_keeps _ _ _ _ Hafter Hs), Hl1, Hl. apply lookup_insert_eq.
Qed.

(** Every binding of the table comes from such a definition, or was
    there before. *)
Lemma scan_bound l v s ns s' :
  run s ns = Ok s' → s'.2 !! l = Some v →
  (s.2 !! l = Some v ∧ Forall (λ n, label_of n ≠ Some l) ns)
  ∨ ∃ before n after, ns = before ++ n :: after ∧ label_of n = Some l
      ∧ Forall (λ n', label_of n' ≠ Some l) after.
Proof.
  revert s. induction ns as [|n ns IH]; intros s; cbn.
  - intros [= <-] Hv. left. by split.
  - intros (s1 & Hline & Hs)%bind_ok Hv.
    destruct (IH _ Hs Hv) as [[Hv1 Hns]|(before & n' & after & -> & Hn' & Hafter)].
    + destruct (decide (label_of n = Some l)) as [Hn|Hn].
      * right. by exists [], n, ns.
      * left. split; [|by constructor].
        apply scan_line_ok in Hline as (new & _ & _ & Hl).
        rewrite Hl in Hv1. destruct (label_of n) as [l'|]; [|done].
        rewrite lookup_insert_ne in Hv1; congruence.
    + right. by exists (n :: before), n', after.
Qed.

(** What a line contributes does not depend on the table: two runs from
    the same instruction list build the same list, and the larger table
    stays the larger. *)
Lemma scan_tables c (L1 L2 : gmap string Z) ns s1 :
  run (c, L1) ns = Ok s1 →
  ∃ L2', run (c, L2) ns = Ok (s1.1, L2')
    ∧ (dom L1 ⊆ dom L2 → dom s1.2 ⊆ dom L2')
    ∧ (dom L2 ⊆ dom L1 → dom L2' ⊆ dom s1.2).
Proof.
  revert c L1 L2. induction ns as [|n ns IH]; intros c L1 L2; cbn.
  - intros [= <-]. by exists L2.
  - intros ([c1 L1'] & (new & Hnew & Hc & Hl)%scan_line_ok & Hs)%bind_ok.
    cbn in Hc, Hl. subst c1.
    unfold scan_line at 1. rewrite Hnew. cbn.
    edestruct (IH _ _ (match label_of n with
                      | Some l => <[l := unit * Z.of_nat (length c)]> L2
                      | None => L2
                      end) Hs) as (L2' & -> & H12 & H21).
    exists L2'. split; [done|]. subst L1'.
    split; intros HL; [apply H12|apply H21];
      destruct (label_of n); rewrite ?dom_insert; try done;
      by apply union_mono_l.
Qed.

(** A line without a statement adds no instruction. *)
Lemma scan_line_no_statement s n :
  statement_text n = "" →
  run_line s n
  = Ok (s.1, match label_of n with
             | Some l => <[l := unit * Z.of_nat (length s.1)]> s.2
             | None => s.2
             end).
Proof.
  intros Ht. unfold scan_line, emitted. rewrite Ht. cbn.
  by rewrite app_nil_r.
Qed.

(** A blank line changes nothing. *)
Lemma scan_line_blank s : run_line s "" = Ok s.
Proof. destruct s. cbn. by rewrite app_nil_r. Qed.

Lemma scan_filter_blank s ns :
  run s (filter (λ n, Py.is_empty n = false) ns) = run s ns.
Proof.
  revert s. induction ns as [|n ns IH]; intros s; [done|].
  destruct n as [|ch n].
  - rewrite filter_cons_False by (cbn; congruence).
    cbn [scan]. rewrite scan_line_blank. cbn. apply IH.
  - rewrite filter_cons_True by done. cbn [scan].
    destruct (run_line s (String ch n)); cbn; [apply IH|done].
Qed.
End FirstPassFacts.

(** ** The two first passes are [scan] *)

Ltac destruct_statement :=
  try match goal with
  | |- context [statement ?t] => destruct (statement t) as [? ?]
  end;
  match goal with
  | |- context [MIPS.expand ?m ?a] => destruct (MIPS.expand m a)
  | |- context [RISCV.expand ?m ?a] => destruct (RISCV.expand m a)
  end.

Lemma mips_preprocess_line st line :
  MIPS.preprocess_line st line
  = mips_state <$> scan_line MIPS.expand 1 (MIPS.clean_lines st, MIPS.labels st) (norm line).
Proof.
  destruct st as [c L]. unfold MIPS.preprocess_line, scan_line, emitted, statement_text, label_of.
  fold (norm line). cbn [MIPS.clean_lines MIPS.labels fst snd].
  destruct (norm line) as [|ch n] eqn:Hn.
  - cbn. by rewrite app_nil_r.
  - cbn [Py.is_empty]. rewrite Z.mul_1_l.
    destruct (Py.contains ":" (String ch n)).
    + destruct (Py.split1 ":" (String ch n)) as [label_name remaining]. cbn [fst snd].
      destruct (Py.is_empty (Py.strip (default "" remaining))); cbn.
      * by rewrite app_nil_r.
      * by destruct_statement.
    + cbn [Py.is_empty]. by destruct_statement.
Qed.

Lemma mips_preprocess_from st lines :
  MIPS.preprocess_from st lines
  = mips_state <$> scan MIPS.expand 1 (MIPS.clean_lines st, MIPS.labels st) (norm <$> lines).
Proof.
  revert st. induction lines as [|line lines IH]; intros st; cbn.
  - by destruct st.
  - rewrite mips_preprocess_line.
    destruct (scan_line _ _ _ _) as [[c L]|e]; cbn; [|done].
    apply (IH (mips_state (c, L))).
Qed.

Lemma mips_preprocess lines :
  MIPS.preprocess lines = mips_state <$> scan MIPS.expand 1 ([], ∅) (norm <$> lines).
Proof. apply mips_preprocess_from. Qed.

Lemma riscv_pass1_line st n :
  RISCV.pc st = 4 * Z.of_nat (length (RISCV.processed_code st)) →
  RISCV.pass1_line st n
  = riscv_state <$> scan_line RISCV.expand 4 (RISCV.processed_code st, RISCV.labels st) n.
Proof.
  destruct st as [c p L]. cbn [RISCV.pc RISCV.processed_code RISCV.labels]. intros ->.
  unfold RISCV.pass1_line, scan_line, emitted, statement_text, label_of, riscv_state.
  cbn [RISCV.pc RISCV.processed_code RISCV.labels fst snd].
  assert (∀ new : list instr,
            4 * Z.of_nat (length c) + 4 * Z.of_nat (length new)
            = 4 * Z.of_nat (length (c ++ new))) as Hpc
    by (intros; rewrite length_app; lia).
  destruct (Py.contains ":" n).
  - destruct (Py.split1 ":" n) as [label_name remaining]. cbn [fst snd].
    destruct (Py.is_empty (Py.strip (default "" remaining))); cbn.
    + by rewrite app_nil_r.
    + destruct_statement; cbn; [|done].
      by rewrite Hpc.
  - destruct (Py.is_empty n); cbn.
    + by rewrite app_nil_r.
    + destruct_statement; cbn; [|done].
      by rewrite Hpc.
Qed.

Lemma riscv_pass1_from st ns :
  RISCV.pc st = 4 * Z.of_nat (length (RISCV.processed_code st)) →
  RISCV.pass1_from st ns
  = riscv_state <$> scan RISCV.expand 4 (RISCV.processed_code st, RISCV.labels st) ns.
Proof.
  revert st. induction ns as [|n ns IH]; intros st Hpc; cbn.
  - destruct st; cbn in *. by subst.
  - rewrite riscv_pass1_line by done.
    destruct (scan_line _ _ _ _) as [[c L]|e]; cbn; [|done].
    by apply (IH (riscv_state (c, L))).
Qed.

Lemma riscv_pass1 f :
  RISCV.pass1 (RISCV.source_lines f)
  = riscv_state <$> scan RISCV.expand 4 ([], ∅) (norm <$> f).
Proof.
  unfold RISCV.pass1. rewrite riscv_pass1_from by done. cbn.
  unfold RISCV.source_lines. by rewrite scan_filter_blank.
Qed.

(** ** The second pass *)

(** MIPS: word [k] of the output is the word of instruction [k], encoded
    with index [i + k]. *)
Lemma mips_encode_from_ok labels i code out :
  MIPS.encode_from labels i code = Ok out →
  length out = length code
  ∧ ∀ k m a, code !! k = Some (m, a) →
      ∃ w, MIPS.encode labels (i + k) m a = Ok w ∧ out !! k = Some (Py.format_08x w).
Proof.
  revert i out. induction code as [|[m a] code IH]; intros i out; cbn.
  - intros [= <-]. split; [done|]. intros k ? ? Hk. by rewrite lookup_nil in Hk.
  - intros (w & Hw & (out' & Hout & [= <-])%bind_ok)%bind_ok.
    destruct (IH _ _ Hout) as [Hlen Hk]. split; [cbn; by rewrite Hlen|].
    intros [|k] m' a' Hlk; cbn in Hlk.
    + injection Hlk as <- <-. exists w. by rewrite Nat.add_0_r.
    + destruct (Hk _ _ _ Hlk) as (w' & Hw' & Ho). exists w'.
      by rewrite <- Nat.add_succ_comm.
Qed.

Lemma mips_encode_from_raise labels i code k m a e :
  code !! k = Some (m, a) → MIPS.encode labels (i + k) m a = Raise e →
  ∃ e', MIPS.encode_from labels i code = Raise e'.
Proof.
  revert i k. induction code as [|[m' a'] code IH]; intros i k Hk He.
  - by rewrite lookup_nil in Hk.
  - cbn. destruct k as [|k]; cbn in Hk.
    + injection Hk as -> ->. rewrite Nat.add_0_r in He. rewrite He. cbn. eauto.
    + destruct (MIPS.encode labels i m' a'); cbn; [|eauto].
      rewrite <- Nat.add_succ_comm in He. destruct (IH _ _ Hk He) as [e' ->]. cbn. eauto.
Qed.

Lemma mips_encode_from_all labels i code :
  (∀ k m a, code !! k = Some (m, a) → is_ok (MIPS.encode labels (i + k) m a) = true) →
  ∃ out, MIPS.encode_from labels i code = Ok out.
Proof.
  revert i. induction code as [|[m a] code IH]; intros i Hall; cbn; [eauto|].
  pose proof (Hall 0%nat m a eq_refl) as H0. rewrite Nat.add_0_r in H0.
  destruct (MIPS.encode labels i m a); [|done]. cbn.
  destruct (IH (S i)) as [out ->]; [|cbn; eauto].
  intros k m' a' Hk. rewrite Nat.add_succ_comm. by apply (Hall (S k)).
Qed.

(** RISC-V: word [k] of the output is the word of instruction [k], encoded
    at address [pc + 4 * k] and cut to 32 bits. *)
Lemma riscv_pass2_from_ok labels pc code out :
  RISCV.pass2_from labels pc code = Ok out →
  length out = length code
  ∧ ∀ k m a, code !! k = Some (m, a) →
      ∃ w, RISCV.encode labels (pc + 4 * Z.of_nat k) m a = Ok w
           ∧ out !! k = Some (Py.format_08x (w .& 0xFFFFFFFF)).
Proof.
  revert pc out. induction code as [|[m a] code IH]; intros pc out; cbn.
  - intros [= <-]. split; [done|]. intros k ? ? Hk. by rewrite lookup_nil in Hk.
  - intros (w & Hw & (out' & Hout & [= <-])%bind_ok)%bind_ok.
    destruct (IH _ _ Hout) as [Hlen Hk]. split; [cbn; by rewrite Hlen|].
    intros [|k] m' a' Hlk; cbn in Hlk.
    + injection Hlk as <- <-. exists w. by rewrite Z.mul_0_r, Z.add_0_r.
    + destruct (Hk _ _ _ Hlk) as (w' & Hw' & Ho). exists w'. split; [|done].
      rewrite <- Hw'. f_equal. lia.
Qed.

Lemma riscv_pass2_from_raise labels pc code k m a e :
  code !! k = Some (m, a) → RISCV.encode labels (pc + 4 * Z.of_nat k) m a = Raise e →
  ∃ e', RISCV.pass2_from labels pc code = Raise e'.
Proof.
  revert pc k. induction code as [|[m' a'] code IH]; intros pc k Hk He.
  - by rewrite lookup_nil in Hk.
  - cbn. destruct k as [|k]; cbn in Hk.
    + injection Hk as -> ->. rewrite Z.mul_0_r, Z.add_0_r in He. rewrite He. cbn. eauto.
    + destruct (RISCV.encode labels pc m' a'); cbn; [|eauto].
      destruct (IH (pc + 4) k Hk) as [e' ->]; [|cbn; eauto].
      rewrite <- He. f_equal. lia.
Qed.

Lemma riscv_pass2_from_all labels pc code :
  (∀ k m a, code !! k = Some (m, a) →
     is_ok (RISCV.encode labels (pc + 4 * Z.of_nat k) m a) = true) →
  ∃ out, RISCV.pass2_from labels pc code = Ok out.
Proof.
  revert pc. induction code as [|[m a] code IH]; intros pc Hall; cbn; [eauto|].
  pose proof (Hall 0%nat m a eq_refl) as H0. rewrite Z.mul_0_r, Z.add_0_r in H0.
  destruct (RISCV.encode labels pc m a); [|done]. cbn.
  destruct (IH (pc + 4)) as [out ->]; [|cbn; eauto].
  intros k m' a' Hk. specialize (Hall (S k) m' a' Hk).
  by replace (pc + 4 + 4 * Z.of_nat k) with (pc + 4 * Z.of_nat (S k)) by lia.
Qed.

(** ** Programs *)

Lemma mips_assemble_ok lines out :
  MIPS.assemble lines = Ok out →
  ∃ st, MIPS.preprocess lines = Ok st
    ∧ MIPS.encode_from (MIPS.labels st) 0 (MIPS.clean_lines st) = Ok out.
Proof.
  unfold MIPS.assemble. intros (st & Hst & Henc)%bind_ok. exists st. split; [done|].
  by destruct (MIPS.encode_from _ _ _).
Qed.

Lemma riscv_assemble_ok f out :
  RISCV.assemble f = Ok out →
  ∃ st, RISCV.pass1 (RISCV.source_lines f) = Ok st
    ∧ RISCV.pass2_from (RISCV.labels st) 0 (RISCV.processed_code st) = Ok out.
Proof. unfold RISCV.assemble. apply bind_ok. Qed.



(** The table of a finished scan, started from the empty table: a label
    is in it exactly when some line defines it, and it is bound to the
    address reached when its last definition is read. *)
Lemma scan_table expand unit ns s l :
  scan expand unit ([], ∅) ns = Ok s →
  (∀ before n after,
     ns = before ++ n :: after → label_of n = Some l →
     Forall (λ n', label_of n' ≠ Some l) after →
     ∃ sb, scan expand unit ([], ∅) before = Ok sb
       ∧ s.2 !! l = Some (unit * Z.of_nat (length sb.1))
       ∧ sb.1 `prefix_of` s.1)
  ∧ (∀ v, s.2 !! l = Some v →
     ∃ before n after sb,
       ns = before ++ n :: after ∧ label_of n = Some l
       ∧ Forall (λ n', label_of n' ≠ Some l) after
       ∧ scan expand unit ([], ∅) before = Ok sb
       ∧ v = unit * Z.of_nat (length sb.1)
       ∧ sb.1 `prefix_of` s.1).
Proof.
  intros Hs. split.
  - intros before n after -> Hn Hafter. by eapply scan_binds.
  - intros v Hv.
    destruct (scan_bound _ _ _ _ _ _ _ Hs Hv)
      as [[Hempty _]|(before & n & after & -> & Hn & Hafter)].
    { cbn in Hempty. by rewrite lookup_empty in Hempty. }
    destruct (scan_binds _ _ _ _ _ _ _ _ Hn Hafter Hs) as (sb & Hb & Hl & Hp).
    exists before, n, after, sb. repeat split; try done. congruence.
Qed.

Lemma Forall_norm l (xs : list string) :
  Forall (λ n, label_of n ≠ Some l) (norm <$> xs)
  ↔ Forall (λ x, label_of (norm x) ≠ Some l) xs.
Proof. exact (Forall_fmap norm (λ n, label_of n ≠ Some l) xs). Qed.

Lemma fmap_norm_split (lines : list string) before n after :
  norm <$> lines = before ++ n :: after →
  ∃ lb line la, lines = lb ++ line :: la ∧ before = norm <$> lb ∧ n = norm line
    ∧ after = norm <$> la.
Proof.
  intros (lb & l2 & -> & H2 & ->)%fmap_app_inv.
  symmetry in H2. apply fmap_cons_inv in H2 as (line & la & -> & -> & ->).
  by exists lb, line, la.
Qed.

(** C2, as the code has it: the MIPS table binds a label to the index of
    the first canonical instruction that follows its last definition (the
    number of instructions emitted by the lines before it), the RISC-V
    table to four times that index; and every entry of either table is
    such a binding. The instructions of the lines before the definition
    are a prefix of the final list, so a definition after the last
    statement is bound to the position past the last instruction. *)
Theorem label_addresses (l : string) :
  (∀ lines st, MIPS.preprocess lines = Ok st →
     (∀ before line after,
        lines = before ++ line :: after → label_of (norm line) = Some l →
        Forall (λ x, label_of (norm x) ≠ Some l) after →
        ∃ st_b, MIPS.preprocess before = Ok st_b
          ∧ MIPS.labels st !! l = Some (Z.of_nat (length (MIPS.clean_lines st_b)))
          ∧ MIPS.clean_lines st_b `prefix_of` MIPS.clean_lines st)
     ∧ (∀ v, MIPS.labels st !! l = Some v →
        ∃ before line after st_b,
          lines = before ++ line :: after ∧ label_of (norm line) = Some l
          ∧ Forall (λ x, label_of (norm x) ≠ Some l) after
          ∧ MIPS.preprocess before = Ok st_b
          ∧ v = Z.of_nat (length (MIPS.clean_lines st_b))
          ∧ MIPS.clean_lines st_b `prefix_of` MIPS.clean_lines st))
  ∧ (∀ f st, RISCV.pass1 (RISCV.source_lines f) = Ok st →
     (∀ before line after,
        f = before ++ line :: after → label_of (norm line) = Some l →
        Forall (λ x, label_of (norm x) ≠ Some l) after →
        ∃ st_b, RISCV.pass1 (RISCV.source_lines before) = Ok st_b
          ∧ RISCV.labels st !! l
            = Some (4 * Z.of_nat (length (RISCV.processed_code st_b)))
          ∧ RISCV.processed_code st_b `prefix_of` RISCV.processed_code st)
     ∧ (∀ v, RISCV.labels st !! l = Some v →
        ∃ before line after st_b,
          f = before ++ line :: after ∧ label_of (norm line) = Some l
          ∧ Forall (λ x, label_of (norm x) ≠ Some l) after
          ∧ RISCV.pass1 (RISCV.source_lines before) = Ok st_b
          ∧ v = 4 * Z.of_nat (length (RISCV.processed_code st_b))
          ∧ RISCV.processed_code st_b `prefix_of` RISCV.processed_code st)).
Proof.
  split.
  - intros lines st. rewrite mips_preprocess. intros (s & Hs & ->)%fmap_ok.
    destruct (scan_table _ _ _ _ l Hs) as [Hfwd Hbwd]. split.
    + intros before line after -> Hline Hafter.
      destruct (Hfwd (norm <$> before) (norm line) (norm <$> after))
        as (sb & Hb & Hl & Hp); [by rewrite fmap_app| done | by apply Forall_norm |].
      exists (mips_state sb). rewrite mips_preprocess, Hb. cbn.
      split; [done|]. split; [|done]. rewrite Hl. f_equal. lia.
    + intros v Hv. destruct (Hbwd v Hv) as (nb & n & na & sb & Hns & Hn & Hna & Hb & -> & Hp).
      apply fmap_norm_split in Hns as (before & line & after & -> & -> & -> & ->).
      exists before, line, after, (mips_state sb). rewrite mips_preprocess, Hb. cbn.
      split; [done|]. split; [done|]. split; [by apply Forall_norm|].
      split; [done|]. split; [lia|done].
  - intros f st. rewrite riscv_pass1. intros (s & Hs & ->)%fmap_ok.
    destruct (scan_table _ _ _ _ l Hs) as [Hfwd Hbwd]. split.
    + intros before line after -> Hline Hafter.
      destruct (Hfwd (norm <$> before) (norm line) (norm <$> after))
        as (sb & Hb & Hl & Hp); [by rewrite fmap_app| done | by apply Forall_norm |].
      exists (riscv_state sb). rewrite riscv_pass1, Hb. cbn. by rewrite Hl.
    + intros v Hv. destruct (Hbwd v Hv) as (nb & n & na & sb & Hns & Hn & Hna & Hb & -> & Hp).
      apply fmap_norm_split in Hns as (before & line & after & -> & -> & -> & ->).
      exists before, line, after, (riscv_state sb). rewrite riscv_pass1, Hb. cbn.
      split; [done|]. split; [done|]. split; [by apply Forall_norm|]. done.
Qed.

Lemma label_is_index_not_byte_address :
  ¬ (∀ st, MIPS.preprocess ["nop"; "L:"] = Ok st → MIPS.labels st !! "L" = Some (4 * 1)).
Proof.
  intros H. specialize (H _ eq_refl). vm_compute in H. discriminate.
Qed.

(** ** Growing the label table *)

Lemma resolve_dom (L L' : gmap string Z) t :
  dom L ⊆ dom L' → is_ok (resolve L t) = true → is_ok (resolve L' t) = true.
Proof.
  unfold resolve. intros Hdom.
  destruct (L' !! t) eqn:E'; [done|]. destruct (L !! t) eqn:E; [|done].
  apply not_elem_of_dom in E'. apply elem_of_dom_2 in E. set_solver.
Qed.

Ltac encode_cases L L' Hdom :=
  repeat first
    [ exact (λ H, H)
    | discriminate
    | match goal with
      | |- context [resolve L ?t] =>
          let E := fresh in
          pose proof (resolve_dom L L' t Hdom) as E;
          destruct (resolve L t); [|intros ?; discriminate];
          destruct (resolve L' t); [|discriminate (E eq_refl)];
          clear E; cbn
      | |- context [?r ≫= _] =>
          lazymatch r with
          | context [resolve] => fail
          | _ => destruct r as [?|?]; cbn
          end
      | |- context [if ?b then _ else _] => destruct b; cbn
      | |- context [match ?o with Some _ => _ | None => _ end] => destruct o; cbn
      end ].

Ltac abstract_tests m :=
  repeat match goal with
  | |- context [Py.dict_get ?d m] => generalize (Py.dict_get d m); intros ?
  | |- context [Py.mem m ?l] => generalize (Py.mem m l); intros ?
  | |- context [String.eqb m ?s] => generalize (String.eqb m s); intros ?
  end.

Lemma mips_encode_dom (L L' : gmap string Z) i m a :
  dom L ⊆ dom L' →
  is_ok (MIPS.encode L i m a) = true → is_ok (MIPS.encode L' i m a) = true.
Proof.
  intros Hdom. unfold MIPS.encode.
  generalize (Py.operands MIPS.lookahead a). intros args. abstract_tests m.
  encode_cases L L' Hdom.
Qed.

Lemma riscv_encode_dom (L L' : gmap string Z) pc m a :
  dom L ⊆ dom L' →
  is_ok (RISCV.encode L pc m a) = true → is_ok (RISCV.encode L' pc m a) = true.
Proof.
  intros Hdom. unfold RISCV.encode.
  generalize (Py.operands RISCV.lookahead a). intros args. abstract_tests m.
  encode_cases L L' Hdom.
Qed.

(** Putting a line that only defines a label into a program: the
    instruction list is the same, and the table has at least the labels it
    had. *)
Lemma scan_with_definition expand unit s before n after s0 :
  statement_text n = "" →
  scan expand unit s (before ++ after) = Ok s0 →
  ∃ L, scan expand unit s (before ++ n :: after) = Ok (s0.1, L) ∧ dom s0.2 ⊆ dom L.
Proof.
  intros Hn (sb & Hb & Hs)%scan_app_ok.
  destruct sb as [cb Lb].
  edestruct (scan_tables expand unit cb Lb
              (match label_of n with
               | Some l => <[l := unit * Z.of_nat (length cb)]> Lb
               | None => Lb
               end) after s0 Hs) as (L & HL & Hdom & _).
  exists L. split.
  - rewrite scan_app, Hb. cbn [mbind result_bind scan].
    by rewrite (scan_line_no_statement expand unit (cb, Lb) n Hn).
  - apply Hdom. destruct (label_of n); [|done]. rewrite dom_insert. set_solver.
Qed.

(** C4, as the code has it: neither assembler rejects a repeated label.
    A line that only defines a label [l], put anywhere into a program that
    assembles, whether [l] is defined elsewhere or not, gives a program
    that assembles to as many words; the later definition replaces the
    binding: when no line after it defines [l], the table binds [l] to
    the position of that line. *)
Theorem redefinition_accepted (before after : list string) (line l : string) :
  label_of (norm line) = Some l →
  statement_text (norm line) = "" →
  (∀ out, MIPS.assemble (before ++ after) = Ok out →
     ∃ st out',
       MIPS.preprocess (before ++ line :: after) = Ok st
       ∧ MIPS.assemble (before ++ line :: after) = Ok out'
       ∧ length out' = length out
       ∧ (Forall (λ x, label_of (norm x) ≠ Some l) after →
          ∃ st_b, MIPS.preprocess before = Ok st_b
            ∧ MIPS.labels st !! l = Some (Z.of_nat (length (MIPS.clean_lines st_b)))))
  ∧ (∀ out, RISCV.assemble (before ++ after) = Ok out →
     ∃ st out',
       RISCV.pass1 (RISCV.source_lines (before ++ line :: after)) = Ok st
       ∧ RISCV.assemble (before ++ line :: after) = Ok out'
       ∧ length out' = length out
       ∧ (Forall (λ x, label_of (norm x) ≠ Some l) after →
          ∃ st_b, RISCV.pass1 (RISCV.source_lines before) = Ok st_b
            ∧ RISCV.labels st !! l
              = Some (4 * Z.of_nat (length (RISCV.processed_code st_b))))).
Proof.
  intros Hl Hline. split.
  - intros out (st0 & Hst0 & Henc)%mips_assemble_ok.
    rewrite mips_preprocess, fmap_app in Hst0.
    apply fmap_ok in Hst0 as (s0 & Hs0 & ->).
    destruct (scan_with_definition _ _ _ _ _ _ _ Hline Hs0) as (L & HL & Hdom).
    destruct (mips_encode_from_ok _ _ _ _ Henc) as [Hlen Hk].
    destruct (mips_encode_from_all L 0 s0.1) as [out' Hout'].
    { intros k m a Hka. destruct (Hk k m a Hka) as (w & Hw & _).
      apply (mips_encode_dom s0.2); [done|]. cbn in Hw |- *. by rewrite Hw. }
    exists (mips_state (s0.1, L)), out'.
    assert (MIPS.preprocess (before ++ line :: after) = Ok (mips_state (s0.1, L))) as Hpre.
    { by rewrite mips_preprocess, fmap_app, fmap_cons, HL. }
    split; [done|]. split; [|split].
    + unfold MIPS.assemble. rewrite Hpre. cbn. by rewrite Hout'.
    + apply mips_encode_from_ok in Hout' as [-> _]. by rewrite Hlen.
    + intros Hafter.
      destruct (scan_binds _ _ l _ (norm <$> before) (norm line) (norm <$> after) _ Hl
                  (proj2 (Forall_norm l after) Hafter) HL) as (sb & Hb & Hlb & _).
      exists (mips_state sb). rewrite mips_preprocess, Hb. split; [done|].
      cbn in *. rewrite Hlb. f_equal. lia.
  - intros out (st0 & Hst0 & Henc)%riscv_assemble_ok.
    rewrite riscv_pass1, fmap_app in Hst0.
    apply fmap_ok in Hst0 as (s0 & Hs0 & ->).
    destruct (scan_with_definition _ _ _ _ _ _ _ Hline Hs0) as (L & HL & Hdom).
    destruct (riscv_pass2_from_ok _ _ _ _ Henc) as [Hlen Hk].
    destruct (riscv_pass2_from_all L 0 s0.1) as [out' Hout'].
    { intros k m a Hka. destruct (Hk k m a Hka) as (w & Hw & _).
      apply (riscv_encode_dom s0.2); [done|]. cbn [riscv_state RISCV.labels] in Hw.
      by rewrite Hw. }
    exists (riscv_state (s0.1, L)), out'.
    assert (RISCV.pass1 (RISCV.source_lines (before ++ line :: after))
            = Ok (riscv_state (s0.1, L))) as Hpre.
    { by rewrite riscv_pass1, fmap_app, fmap_cons, HL. }
    split; [done|]. split; [|split].
    + unfold RISCV.assemble. rewrite Hpre. cbn. by rewrite Hout'.
    + apply riscv_pass2_from_ok in Hout' as [-> _]. by rewrite Hlen.
    + intros Hafter.
      destruct (scan_binds _ _ l _ (norm <$> before) (norm line) (norm <$> after) _ Hl
                  (proj2 (Forall_norm l after) Hafter) HL) as (sb & Hb & Hlb & _).
      exists (riscv_state sb). rewrite riscv_pass1, Hb. split; [done|].
      cbn in *. by rewrite Hlb.
Qed.

Lemma duplicate_label_not_rejected :
  ¬ ((∃ e, MIPS.assemble ["L: nop"; "L: nop"; "j L"] = Raise e)
     ∨ (∃ e, RISCV.assemble ["L: nop"; "L: nop"; "j L"] = Raise e)).
Proof. intros [[e H]|[e H]]; vm_compute in H; discriminate. Qed.

(** ** Single instructions *)

Ltac elem_cases H :=
  repeat (apply elem_of_cons in H as [->|H]); [..| by apply elem_of_nil in H].

(** C10: MIPS [jalr] with one operand takes it as [rs] and links into
    register 31; with two operands the first is [rd] and the second
    [rs]. With the registers in range, [rs] and [rd] are read back from
    bits 25..21 and 15..11 of the word. *)
Theorem mips_jalr_operands (labels : gmap string Z) (i : nat) (a : string) :
  (∀ x rs, Py.operands MIPS.lookahead a = [x] → MIPS.parse_reg x = Ok rs →
     MIPS.encode labels i "jalr" a = Ok (MIPS.r_word 0 rs 0 31 0 0x09)
     ∧ (0 ≤ rs < 32 →
        field (MIPS.r_word 0 rs 0 31 0 0x09) 25 21 = rs
        ∧ field (MIPS.r_word 0 rs 0 31 0 0x09) 15 11 = 31))
  ∧ (∀ x y rd rs, Py.operands MIPS.lookahead a = [x; y] →
     MIPS.parse_reg x = Ok rd → MIPS.parse_reg y = Ok rs →
     MIPS.encode labels i "jalr" a = Ok (MIPS.r_word 0 rs 0 rd 0 0x09)
     ∧ (0 ≤ rs < 32 → 0 ≤ rd < 32 →
        field (MIPS.r_word 0 rs 0 rd 0 0x09) 25 21 = rs
        ∧ field (MIPS.r_word 0 rs 0 rd 0 0x09) 15 11 = rd)).
Proof.
  split.
  - intros x rs Hops Hx. split.
    + unfold MIPS.encode. rewrite Hops. cbn. by rewrite Hx.
    + intros Hrs.
      destruct (mips_r_fields 0 rs 0 31 0 9) as (_ & ? & _ & ? & _); (lia || done).
  - intros x y rd rs Hops Hx Hy. split.
    + unfold MIPS.encode. rewrite Hops. cbn. rewrite Hx. cbn. by rewrite Hy.
    + intros Hrs Hrd.
      destruct (mips_r_fields 0 rs 0 rd 0 9) as (_ & ? & _ & ? & _); (lia || done).
Qed.

Lemma split_no_sep c s : Py.contains c s = false → Py.split c s = [s].
Proof.
  induction s as [|d s IH]; cbn; [done|].
  destruct (Ascii.eqb c d); cbn; [done|]. intros H. by rewrite (IH H).
Qed.

Lemma split_two_contains c s x y : Py.split c s = [x; y] → Py.contains c s = true.
Proof.
  intros H. destruct (Py.contains c s) eqn:E; [done|].
  rewrite (split_no_sep _ _ E) in H. discriminate.
Qed.

Lemma riscv_opcodes_range m inf :
  Py.dict_get RISCV.OPCODES m = Some inf →
  0 ≤ RISCV.op inf < 128 ∧ 0 ≤ default 0 (RISCV.f3 inf) < 8
  ∧ 0 ≤ default 0 (RISCV.f7 inf) < 128.
Proof.
  unfold RISCV.OPCODES. cbn [Py.dict_get].
  repeat (case (String.eqb m _); [intros [= <-]; cbn; lia|]).
  discriminate.
Qed.

Lemma mips_i_word_wraps opcode rs rt imm :
  MIPS.i_word opcode rs rt imm = MIPS.i_word opcode rs rt (imm mod 2 ^ 16)
  ∧ field (MIPS.i_word opcode rs rt imm) 15 0 = imm mod 2 ^ 16
  ∧ MIPS.i_word opcode rs rt imm ≫ 16 = MIPS.i_word opcode rs rt 0 ≫ 16.
Proof.
  rewrite <- !Z.land_ones by lia. repeat split.
  all: bits.
Qed.

Lemma riscv_i_word_wraps imm rs1 f3 rd op :
  RISCV.i_word imm rs1 f3 rd op = RISCV.i_word (imm mod 2 ^ 12) rs1 f3 rd op
  ∧ field (RISCV.i_word imm rs1 f3 rd op .& 0xFFFFFFFF) 19 0
    = field (RISCV.i_word 0 rs1 f3 rd op .& 0xFFFFFFFF) 19 0.
Proof.
  rewrite <- !Z.land_ones by lia. repeat split.
  all: bits.
Qed.
(** Where the immediate is read with [int(.., 0)], an I-type instruction
    takes any integer immediate without a range error and keeps its low
    bits only (the MIPS loads and stores, which find their offset by a
    search, are treated apart): the word is that of the immediate
    reduced modulo [2^16] (MIPS: [addi], [slti], [andi], [ori], [xori]) or
    [2^12] (RISC-V ALU-immediate, load and [jalr] words, in either operand
    syntax); the immediate field holds exactly those low bits (for RISC-V,
    when the registers are in range), and the rest of the word is what it
    is for the immediate 0. *)
Theorem itype_immediate_wraps :
  (∀ labels i m a a0 a1 a2 rest rt rs imm,
     m ∈ ["addi"; "slti"; "andi"; "ori"; "xori"] →
     Py.operands MIPS.lookahead a = a0 :: a1 :: a2 :: rest →
     MIPS.parse_reg a0 = Ok rt → MIPS.parse_reg a1 = Ok rs → Py.int0 a2 = Ok imm →
     ∃ opcode w,
       Py.dict_get MIPS.OPCODES m = Some opcode
       ∧ MIPS.encode labels i m a = Ok w
       ∧ w = MIPS.i_word opcode rs rt (imm mod 2 ^ 16)
       ∧ field w 15 0 = imm mod 2 ^ 16
       ∧ w ≫ 16 = MIPS.i_word opcode rs rt 0 ≫ 16)
  ∧ (∀ labels pc m a inf a0 a1 rest rd rs1 imm,
     Py.dict_get RISCV.OPCODES m = Some inf →
     RISCV.op inf ∈ [0x13; 0x03; 0x67] →
     Py.operands RISCV.lookahead a = a0 :: a1 :: rest →
     RISCV.parse_reg a0 = Ok rd →
     ((∃ a2 rest', rest = a2 :: rest' ∧ Py.contains "(" a1 = false
                   ∧ RISCV.parse_reg a1 = Ok rs1 ∧ Py.int0 a2 = Ok imm)
      ∨ (∃ imm_s rs1_s, Py.split "(" a1 = [imm_s; rs1_s] ∧ Py.int0 imm_s = Ok imm
                        ∧ RISCV.parse_reg (Py.remove ")" rs1_s) = Ok rs1)) →
     ∃ code,
       RISCV.encode labels pc m a = Ok code
       ∧ code = RISCV.i_word (imm mod 2 ^ 12) rs1 (default 0 (RISCV.f3 inf)) rd (RISCV.op inf)
       ∧ field (code .& 0xFFFFFFFF) 19 0
         = field (RISCV.i_word 0 rs1 (default 0 (RISCV.f3 inf)) rd (RISCV.op inf) .& 0xFFFFFFFF) 19 0
       ∧ (0 ≤ rs1 < 32 → 0 ≤ rd < 32 → field (code .& 0xFFFFFFFF) 31 20 = imm mod 2 ^ 12)).
Proof.
  split.
  - intros labels i m a a0 a1 a2 rest rt rs imm Hm Hops H0 H1 H2.
    assert (∃ opcode, Py.dict_get MIPS.OPCODES m = Some opcode
              ∧ MIPS.encode labels i m a = Ok (MIPS.i_word opcode rs rt imm))
      as (opcode & Hop & Henc).
    { elem_cases Hm; (eexists; split; [reflexivity|]);
        unfold MIPS.encode; rewrite Hops; cbn; rewrite H0; cbn; rewrite H1; cbn;
        rewrite H2; reflexivity. }
    destruct (mips_i_word_wraps opcode rs rt imm) as (Hw & Hf & Hh).
    exists opcode, (MIPS.i_word opcode rs rt imm). by rewrite <- Hw.
  - intros labels pc m a inf a0 a1 rest rd rs1 imm Hinf Hop Hops H0 Hsyn.
    assert (RISCV.encode labels pc m a
            = Ok (RISCV.i_word imm rs1 (default 0 (RISCV.f3 inf)) rd (RISCV.op inf)))
      as Henc.
    { unfold RISCV.encode. rewrite Hops, Hinf. cbn.
      assert ((RISCV.op inf =? 51) = false) as -> by (elem_cases Hop; reflexivity).
      rewrite bool_decide_eq_true_2 by done.
      destruct Hsyn as [(a2 & rest' & -> & Hc & H1 & H2)|(imm_s & rs1_s & Hs & H2 & H1)].
      + rewrite Hc, H0. cbn. rewrite H1. cbn. by rewrite H2.
      + rewrite (split_two_contains _ _ _ _ Hs), H0. cbn.
        unfold RISCV.unpack_offset_base. rewrite Hs. cbn. rewrite H2. cbn. by rewrite H1. }
    destruct (riscv_opcodes_range _ _ Hinf) as (Hopr & Hf3 & _).
    destruct (riscv_i_word_wraps imm rs1 (default 0 (RISCV.f3 inf)) rd (RISCV.op inf))
      as (Hw & Hlow).
    eexists. split; [exact Henc|]. split; [exact Hw|]. split; [exact Hlow|].
    intros Hrs1 Hrd.
    by destruct (riscv_i_fields imm rs1 (default 0 (RISCV.f3 inf)) rd (RISCV.op inf))
      as (? & _).
Qed.
Lemma split1_app c a b :
  Py.contains c a = false → Py.split1 c (a +:+ String c b) = (a, Some b).
Proof.
  induction a as [|d a IH]; simpl.
  - by rewrite Ascii.eqb_refl.
  - destruct (Ascii.eqb c d); simpl; [done|]. intros H. by rewrite (IH H).
Qed.

(** C5: [li rd,imm] expands, for MIPS, to [addi rd, $0, imm] when
    [-32768 <= imm <= 32767], and otherwise to [lui rd, upper16] followed
    by [ori rd, rd, lower16] exactly when the low 16 bits are not zero; for
    RISC-V, always to [lui rd, (imm + 0x800) >> 12] followed by
    [addi rd, rd, imm & 0xFFF]. *)
Theorem li_expansion (rd v : string) (imm : Z) :
  Py.contains "," rd = false →
  Py.int0 (Py.strip v) = Ok imm →
  MIPS.expand "li" (rd +:+ String "," v)
  = Ok (if (-32768 <=? imm) && (imm <=? 32767)
        then [("addi", rd +:+ ", $0, " +:+ Py.str imm)]
        else ("lui", rd +:+ ", " +:+ Py.str ((imm ≫ 16) .& 0xFFFF))
             :: (if negb (imm .& 0xFFFF =? 0)
                 then [("ori", rd +:+ ", " +:+ rd +:+ ", " +:+ Py.str (imm .& 0xFFFF))]
                 else []))
  ∧ RISCV.expand "li" (rd +:+ String "," v)
    = Ok [("lui", rd +:+ ", " +:+ Py.str ((imm + 0x800) ≫ 12));
          ("addi", rd +:+ ", " +:+ rd +:+ ", " +:+ Py.str (imm .& 0xFFF))].
Proof.
  intros Hrd Himm. split.
  - unfold MIPS.expand, Py.unpack_split1. cbn [String.eqb Ascii.eqb Bool.eqb].
    rewrite (split1_app _ _ _ Hrd). cbn. rewrite Himm. cbn.
    by destruct ((-32768 <=? imm) && (imm <=? 32767)).
  - unfold RISCV.expand, Py.unpack_split1. cbn [String.eqb Ascii.eqb Bool.eqb].
    rewrite (split1_app _ _ _ Hrd). cbn. by rewrite Himm.
Qed.

Lemma li_expansion_witness :
  MIPS.expand "li" "$t0, 100000" = Ok [("lui", "$t0, 1"); ("ori", "$t0, $t0, 34464")]
  ∧ RISCV.expand "li" "$t0, 100000" = Ok [("lui", "$t0, 24"); ("addi", "$t0, $t0, 1696")].
Proof.
  exact (li_expansion "$t0" " 100000" 100000 eq_refl eq_refl).
Defined.

Lemma li_expansion_small :
  MIPS.expand "li" "$t0, 5" = Ok [("addi", "$t0, $0, 5")]
  ∧ MIPS.expand "li" "$t0,0x70000" = Ok [("lui", "$t0, 7")].
Proof. split; reflexivity. Qed.

(** C3: a mnemonic that is in none of the opcode tables. The RISC-V
    encoder raises ([KeyError], from the table look-up); the MIPS encoder
    raises nothing and yields the word 0 for the statement. *)
Theorem unknown_mnemonic (labels : gmap string Z) (m a : string) :
  Py.dict_get MIPS.R_TYPE m = None →
  Py.mem m ["j"; "jal"] = false →
  Py.dict_get MIPS.OPCODES m = None →
  Py.dict_get RISCV.OPCODES m = None →
  (∀ i, MIPS.encode labels i m a = Ok 0)
  ∧ (∀ pc, RISCV.encode labels pc m a = Raise KeyError).
Proof.
  intros HR HJ HO HV. split; intros.
  - unfold MIPS.encode. by rewrite HR, HJ, HO.
  - unfold RISCV.encode. by rewrite HV.
Qed.

Lemma unknown_mnemonic_witness :
  (∀ i, MIPS.encode ∅ i "foo" "$t0, $t1" = Ok 0)
  ∧ (∀ pc, RISCV.encode ∅ pc "foo" "$t0, $t1" = Raise KeyError).
Proof. exact (unknown_mnemonic ∅ "foo" "$t0, $t1" eq_refl eq_refl eq_refl eq_refl). Defined.

Example mips_unknown_mnemonic_run :
  MIPS.main (Some ["foo $t0, $t1"])
  = {| exit_status := 0;
       written := Some (MIPS.write_coe ["00000000"]) |}
  ∧ RISCV.main (Some ["foo t0, t1"]) = {| exit_status := 1; written := None |}.
Proof. split; vm_compute; reflexivity. Qed.

(** ** Unresolved targets *)

Lemma mips_parse_reg_raise x e : MIPS.parse_reg x = Raise e → e = ValueError.
Proof.
  unfold MIPS.parse_reg, Py.int10. destruct (Py.dict_get _ _); [done|].
  destruct (Py.int_literal _ _); cbn; congruence.
Qed.

Lemma riscv_parse_reg_raise x e : RISCV.parse_reg x = Raise e → e = ValueError.
Proof.
  unfold RISCV.parse_reg, Py.int10. destruct (Py.dict_get _ _); [done|].
  destruct (Py.int_literal _ _); cbn; congruence.
Qed.

Lemma resolve_undefined (L : gmap string Z) t :
  L !! t = None → Py.int_literal true t = None → resolve L t = Raise ValueError.
Proof. unfold resolve, Py.int0. by intros -> ->. Qed.

Lemma resolve_defined (L : gmap string Z) t v : L !! t = Some v → resolve L t = Ok v.
Proof. unfold resolve. by intros ->. Qed.

Lemma mips_target_cases m p :
  mips_target_operand m = Some p →
  (m = "j" ∧ p = 0%nat) ∨ (m = "jal" ∧ p = 0%nat) ∨ (m = "beq" ∧ p = 2%nat)
  ∨ (m = "blez" ∧ p = 1%nat) ∨ (m = "bltz" ∧ p = 1%nat).
Proof.
  unfold mips_target_operand, Py.mem. cbn [existsb].
  repeat match goal with
  | |- context [String.eqb m ?s] =>
      destruct (String.eqb_spec m s) as [->|_];
      [cbn; intros [= <-]; tauto|cbn [orb]]
  end.
  discriminate.
Qed.

Lemma riscv_target_cases m p :
  riscv_target_operand m = Some p →
  (m ∈ ["beq"; "bne"; "blt"; "bge"] ∧ p = 2%nat) ∨ (m = "jal" ∧ p = 1%nat).
Proof.
  unfold riscv_target_operand, RISCV.OPCODES. cbn [Py.dict_get].
  repeat match goal with
  | |- context [String.eqb m ?s] =>
      destruct (String.eqb_spec m s) as [->|_];
      [cbn; first [discriminate | intros [= <-]];
       first [left; split; [set_solver|done] | by right]|]
  end.
  discriminate.
Qed.

Ltac parse_or_raise parse_raise :=
  match goal with
  | |- context [?f ?x ≫= _] =>
      let E := fresh in
      destruct (f x) as [?|?] eqn:E; cbn;
      [|by rewrite (parse_raise _ _ E)]
  end.

Lemma mips_encode_undefined (L : gmap string Z) i m a p t :
  mips_target_operand m = Some p →
  Py.operands MIPS.lookahead a !! p = Some t →
  L !! t = None → Py.int_literal true t = None →
  MIPS.encode L i m a = Raise ValueError.
Proof.
  intros Hm Ht HL Hint. pose proof (resolve_undefined L t HL Hint) as Hres.
  unfold MIPS.encode. generalize dependent (Py.operands MIPS.lookahead a). intros args Ht.
  destruct (mips_target_cases m p Hm) as [[-> ->]|[[-> ->]|[[-> ->]|[[-> ->]|[-> ->]]]]];
    cbn -[resolve].
  - unfold arg. rewrite Ht. cbn -[resolve]. by rewrite Hres.
  - unfold arg. rewrite Ht. cbn -[resolve]. by rewrite Hres.
  - destruct args as [|a0 [|a1 [|a2 rest]]]; try discriminate. injection Ht as ->.
    cbn -[resolve]. do 2 parse_or_raise mips_parse_reg_raise. by rewrite Hres.
  - destruct args as [|a0 [|a1 rest]]; try discriminate. injection Ht as ->.
    cbn -[resolve]. parse_or_raise mips_parse_reg_raise. by rewrite Hres.
  - destruct args as [|a0 [|a1 rest]]; try discriminate. injection Ht as ->.
    cbn -[resolve]. parse_or_raise mips_parse_reg_raise. by rewrite Hres.
Qed.

Lemma riscv_encode_undefined (L : gmap string Z) pc m a p t :
  riscv_target_operand m = Some p →
  Py.operands RISCV.lookahead a !! p = Some t →
  L !! t = None → Py.int_literal true t = None →
  RISCV.encode L pc m a = Raise ValueError.
Proof.
  intros Hm Ht HL Hint. pose proof (resolve_undefined L t HL Hint) as Hres.
  unfold RISCV.encode. generalize dependent (Py.operands RISCV.lookahead a). intros args Ht.
  destruct (riscv_target_cases m p Hm) as [[Hb ->]|[-> ->]].
  - destruct args as [|a0 [|a1 [|a2 rest]]]; try discriminate. injection Ht as ->.
    elem_cases Hb; cbn -[resolve];
      do 2 parse_or_raise riscv_parse_reg_raise; by rewrite Hres.
  - destruct args as [|a0 [|a1 rest]]; try discriminate. injection Ht as ->.
    cbn -[resolve]. parse_or_raise riscv_parse_reg_raise. by rewrite Hres.
Qed.

(** The first pass raises nothing but [ValueError]. *)
Lemma unpack_split1_raise c s e : Py.unpack_split1 c s = Raise e → e = ValueError.
Proof. unfold Py.unpack_split1. destruct (Py.split1 c s) as [a [b|]]; congruence. Qed.

Lemma int0_raise s e : Py.int0 s = Raise e → e = ValueError.
Proof. unfold Py.int0. destruct (Py.int_literal true s); cbn; congruence. Qed.

Ltac expand_raise :=
  repeat match goal with
  | |- context [if ?b then _ else _] => destruct b
  | |- Ok _ = Raise _ → _ => discriminate
  | |- (Py.unpack_split1 ?c ?s ≫= _) = Raise _ → _ =>
      let E := fresh in
      destruct (Py.unpack_split1 c s) as [[? ?]|?] eqn:E; cbn;
      [|intros [= <-]; exact (unpack_split1_raise _ _ _ E)]
  | |- (Py.int0 ?s ≫= _) = Raise _ → _ =>
      let E := fresh in
      destruct (Py.int0 s) as [?|?] eqn:E; cbn;
      [|intros [= <-]; exact (int0_raise _ _ E)]
  end.

Lemma mips_expand_raise m a e : MIPS.expand m a = Raise e → e = ValueError.
Proof. unfold MIPS.expand. expand_raise. Qed.

Lemma riscv_expand_raise m a e : RISCV.expand m a = Raise e → e = ValueError.
Proof. unfold RISCV.expand. expand_raise. Qed.

Lemma scan_raise expand unit s ns e :
  (∀ m a e', expand m a = Raise e' → e' = ValueError) →
  scan expand unit s ns = Raise e → e = ValueError.
Proof.
  intros Hexp. revert s. induction ns as [|n ns IH]; intros s; cbn; [done|].
  destruct (scan_line expand unit s n) as [s'|e'] eqn:Hline; cbn; [apply IH|].
  intros [= <-]. revert Hline. unfold scan_line, emitted.
  destruct (Py.is_empty _); cbn; [done|].
  match goal with
  | |- context [expand ?m ?a] => destruct (expand m a) eqn:Hma
  end; cbn; [done|]. intros [= <-]. by eapply Hexp.
Qed.

(** Whatever is raised, the MIPS run ends with status 1 and no file. *)
Lemma mips_main_raise lines e :
  MIPS.assemble lines = Raise e →
  MIPS.main (Some lines) = {| exit_status := 1; written := None |}.
Proof.
  unfold MIPS.main, MIPS.assemble. rewrite mips_preprocess.
  destruct (scan MIPS.expand 1 ([], ∅) (norm <$> lines)) as [s|e'] eqn:Hs; cbn.
  - by destruct (MIPS.encode_from _ _ _).
  - by rewrite (scan_raise _ _ _ _ _ mips_expand_raise Hs).
Qed.

(** C7: a branch or jump whose target is neither in the label table nor
    an integer literal makes the encoder raise ([ValueError], from
    [int(.., 0)]); the run ends with status 1 and writes no file, as it
    does whenever assembly raises. *)
Theorem undefined_label_aborts :
  (∀ lines st k m a p t,
     MIPS.preprocess lines = Ok st →
     MIPS.clean_lines st !! k = Some (m, a) →
     mips_target_operand m = Some p →
     Py.operands MIPS.lookahead a !! p = Some t →
     MIPS.labels st !! t = None → Py.int_literal true t = None →
     MIPS.encode (MIPS.labels st) k m a = Raise ValueError
     ∧ MIPS.assemble lines = Raise (SystemExit 1)
     ∧ MIPS.main (Some lines) = {| exit_status := 1; written := None |})
  ∧ (∀ f st k m a p t,
     RISCV.pass1 (RISCV.source_lines f) = Ok st →
     RISCV.processed_code st !! k = Some (m, a) →
     riscv_target_operand m = Some p →
     Py.operands RISCV.lookahead a !! p = Some t →
     RISCV.labels st !! t = None → Py.int_literal true t = None →
     RISCV.encode (RISCV.labels st) (4 * Z.of_nat k) m a = Raise ValueError
     ∧ (∃ e, RISCV.assemble f = Raise e)
     ∧ RISCV.main (Some f) = {| exit_status := 1; written := None |})
  ∧ (∀ lines e, MIPS.assemble lines = Raise e →
     MIPS.main (Some lines) = {| exit_status := 1; written := None |})
  ∧ (∀ f e, RISCV.assemble f = Raise e →
     RISCV.main (Some f) = {| exit_status := 1; written := None |}).
Proof.
  split; [|split; [|split]].
  - intros lines st k m a p t Hst Hk Hm Ht HL Hint.
    pose proof (mips_encode_undefined _ k _ _ _ _ Hm Ht HL Hint) as Henc.
    destruct (mips_encode_from_raise (MIPS.labels st) 0 _ k m a _ Hk Henc) as [e He].
    assert (MIPS.assemble lines = Raise (SystemExit 1)) as Hasm.
    { unfold MIPS.assemble. rewrite Hst. cbn. by rewrite He. }
    split; [done|]. split; [done|]. unfold MIPS.main. by rewrite Hasm.
  - intros f st k m a p t Hst Hk Hm Ht HL Hint.
    pose proof (riscv_encode_undefined _ (4 * Z.of_nat k) _ _ _ _ Hm Ht HL Hint) as Henc.
    destruct (riscv_pass2_from_raise (RISCV.labels st) 0 _ k m a _ Hk Henc) as [e He].
    assert (RISCV.assemble f = Raise e) as Hasm.
    { unfold RISCV.assemble. rewrite Hst. cbn. by rewrite He. }
    split; [done|]. split; [eauto|]. unfold RISCV.main. cbn. by rewrite Hasm.
  - apply mips_main_raise.
  - intros f e He. unfold RISCV.main. cbn. by rewrite He.
Qed.

(** ** Offsets *)

Lemma sign_extend_mod n x :
  0 < n → - 2 ^ (n - 1) ≤ x < 2 ^ (n - 1) → sign_extend n (x mod 2 ^ n) = x.
Proof.
  intros Hn Hx. unfold sign_extend.
  assert (2 ^ n = 2 * 2 ^ (n - 1)) as ->.
  { rewrite <- Z.pow_succ_r by lia. f_equal. lia. }
  assert (0 < 2 ^ (n - 1)) by (apply Z.pow_pos_nonneg; lia).
  destruct (Z.le_gt_cases 0 x) as [Hpos|Hneg].
  - rewrite Z.mod_small by lia. destruct (Z.ltb_spec x (2 ^ (n - 1))); lia.
  - rewrite <- (Z_mod_plus_full x 1), Z.mod_small by lia.
    destruct (Z.ltb_spec (x + 1 * (2 * 2 ^ (n - 1))) (2 ^ (n - 1))); lia.
Qed.

Lemma even_offset_field n off :
  0 ≤ n → off mod 2 = 0 → ((off ≫ 1) .& Z.ones n) ≪ 1 = off mod 2 ^ (n + 1).
Proof.
  intros Hn Heven.
  rewrite Z.shiftl_mul_pow2, Z.land_ones, Z.shiftr_div_pow2 by lia.
  change (2 ^ 1) with 2.
  assert (0 < 2 ^ n) by (apply Z.pow_pos_nonneg; lia).
  rewrite (Z_div_exact_2 off 2) at 2 by lia.
  rewrite Z.pow_add_r, (Z.mul_comm (2 ^ n)) by lia. change (2 ^ 1) with 2.
  rewrite Z.mul_mod_distr_l by lia. lia.
Qed.

Lemma mips_encode_branch (L : gmap string Z) k m a p t tgt w :
  m ∈ ["beq"; "blez"; "bltz"] →
  mips_target_operand m = Some p →
  Py.operands MIPS.lookahead a !! p = Some t →
  L !! t = Some tgt →
  MIPS.encode L k m a = Ok w →
  ∃ opcode rs rt, w = MIPS.i_word opcode rs rt (tgt - (Z.of_nat k + 1)).
Proof.
  intros Hm Hp Ht HL. pose proof (resolve_defined L t tgt HL) as Hres.
  unfold MIPS.encode. generalize dependent (Py.operands MIPS.lookahead a). intros args Ht.
  elem_cases Hm; injection Hp as <-.
  - destruct args as [|a0 [|a1 [|a2 rest]]]; try discriminate. injection Ht as ->.
    cbn -[resolve]. destruct (MIPS.parse_reg a0); [|done].
    cbn -[resolve]. destruct (MIPS.parse_reg a1); [|done].
    cbn -[resolve]. rewrite Hres. cbn. intros [= <-]. eauto.
  - destruct args as [|a0 [|a1 rest]]; try discriminate. injection Ht as ->.
    cbn -[resolve]. destruct (MIPS.parse_reg a0); [|done].
    cbn -[resolve]. rewrite Hres. cbn. intros [= <-]. eauto.
  - destruct args as [|a0 [|a1 rest]]; try discriminate. injection Ht as ->.
    cbn -[resolve]. destruct (MIPS.parse_reg a0); [|done].
    cbn -[resolve]. rewrite Hres. cbn. intros [= <-]. eauto.
Qed.

Lemma mips_encode_jump (L : gmap string Z) k m a t tgt w :
  m ∈ ["j"; "jal"] →
  Py.operands MIPS.lookahead a !! 0%nat = Some t →
  L !! t = Some tgt →
  MIPS.encode L k m a = Ok w →
  ∃ opcode, w = MIPS.j_word opcode tgt.
Proof.
  intros Hm Ht HL. pose proof (resolve_defined L t tgt HL) as Hres.
  unfold MIPS.encode, arg. rewrite Ht.
  elem_cases Hm; cbn -[resolve]; rewrite Hres; cbn; intros [= <-]; eauto.
Qed.

Lemma riscv_encode_branch (L : gmap string Z) pc m a a0 a1 t rest rs1 rs2 tgt :
  m ∈ ["beq"; "bne"; "blt"; "bge"] →
  Py.operands RISCV.lookahead a = a0 :: a1 :: t :: rest →
  RISCV.parse_reg a0 = Ok rs1 → RISCV.parse_reg a1 = Ok rs2 →
  L !! t = Some tgt →
  ∃ f3, 0 ≤ f3 < 8
    ∧ RISCV.encode L pc m a = Ok (RISCV.b_word (tgt - pc) rs2 rs1 f3 0x63).
Proof.
  intros Hm Hops H0 H1 HL. pose proof (resolve_defined L t tgt HL) as Hres.
  unfold RISCV.encode. rewrite Hops.
  elem_cases Hm; cbn -[resolve]; rewrite H0; cbn -[resolve]; rewrite H1;
    cbn -[resolve]; rewrite Hres; cbn; (eexists; split; [|reflexivity]; lia).
Qed.

Lemma riscv_encode_jal (L : gmap string Z) pc a a0 t rest rd tgt :
  Py.operands RISCV.lookahead a = a0 :: t :: rest →
  RISCV.parse_reg a0 = Ok rd →
  L !! t = Some tgt →
  RISCV.encode L pc "jal" a = Ok (RISCV.j_word (tgt - pc) rd 0x6f).
Proof.
  intros Hops H0 HL. pose proof (resolve_defined L t tgt HL) as Hres.
  unfold RISCV.encode. rewrite Hops. cbn -[resolve]. rewrite H0. cbn -[resolve].
  by rewrite Hres.
Qed.

(** The addresses of the RISC-V table are multiples of four. *)
Lemma riscv_label_aligned f st t tgt :
  RISCV.pass1 (RISCV.source_lines f) = Ok st →
  RISCV.labels st !! t = Some tgt → tgt mod 4 = 0.
Proof.
  rewrite riscv_pass1. intros (s & Hs & ->)%fmap_ok Ht.
  destruct (scan_table _ _ _ _ t Hs) as [_ Hb].
  destruct (Hb tgt Ht) as (_ & _ & _ & sb & _ & _ & _ & _ & -> & _).
  by rewrite Z.mul_comm, Z.mod_mul.
Qed.

(** The word of a branch or jump depends on the table only through the
    address bound to its target, whether the definition came before or
    after the reference. *)
Lemma mips_encode_same_target (L1 L2 : gmap string Z) k m a p t :
  mips_target_operand m = Some p →
  Py.operands MIPS.lookahead a !! p = Some t →
  L1 !! t = L2 !! t →
  MIPS.encode L1 k m a = MIPS.encode L2 k m a.
Proof.
  intros Hm Ht HL.
  assert (resolve L1 t = resolve L2 t) as Hres by (unfold resolve; by rewrite HL).
  unfold MIPS.encode. generalize dependent (Py.operands MIPS.lookahead a). intros args Ht.
  destruct (mips_target_cases m p Hm) as [[-> ->]|[[-> ->]|[[-> ->]|[[-> ->]|[-> ->]]]]];
    cbn -[resolve].
  - unfold arg. rewrite Ht. cbn -[resolve]. by rewrite Hres.
  - unfold arg. rewrite Ht. cbn -[resolve]. by rewrite Hres.
  - destruct args as [|a0 [|a1 [|a2 rest]]]; try discriminate. injection Ht as ->.
    cbn -[resolve]. destruct (MIPS.parse_reg a0); [|done].
    cbn -[resolve]. destruct (MIPS.parse_reg a1); [|done].
    cbn -[resolve]. by rewrite Hres.
  - destruct args as [|a0 [|a1 rest]]; try discriminate. injection Ht as ->.
    cbn -[resolve]. destruct (MIPS.parse_reg a0); [|done].
    cbn -[resolve]. by rewrite Hres.
  - destruct args as [|a0 [|a1 rest]]; try discriminate. injection Ht as ->.
    cbn -[resolve]. destruct (MIPS.parse_reg a0); [|done].
    cbn -[resolve]. by rewrite Hres.
Qed.

Lemma riscv_encode_same_target (L1 L2 : gmap string Z) pc m a p t :
  riscv_target_operand m = Some p →
  Py.operands RISCV.lookahead a !! p = Some t →
  L1 !! t = L2 !! t →
  RISCV.encode L1 pc m a = RISCV.encode L2 pc m a.
Proof.
  intros Hm Ht HL.
  assert (resolve L1 t = resolve L2 t) as Hres by (unfold resolve; by rewrite HL).
  unfold RISCV.encode. generalize dependent (Py.operands RISCV.lookahead a). intros args Ht.
  destruct (riscv_target_cases m p Hm) as [[Hb ->]|[-> ->]].
  - destruct args as [|a0 [|a1 [|a2 rest]]]; try discriminate. injection Ht as ->.
    elem_cases Hb; cbn -[resolve];
      (destruct (RISCV.parse_reg a0); [|done]); cbn -[resolve];
      (destruct (RISCV.parse_reg a1); [|done]); cbn -[resolve]; by rewrite Hres.
  - destruct args as [|a0 [|a1 rest]]; try discriminate. injection Ht as ->.
    cbn -[resolve]. destruct (RISCV.parse_reg a0); [|done]. cbn -[resolve].
    by rewrite Hres.
Qed.

(** C1, as the code has it: a branch to a defined label holds the offset
    reduced to the width of its field: MIPS [beq]/[blez]/[bltz] hold
    [(target_index - (index + 1)) mod 2^16] in bits 15..0; a RISC-V branch
    holds [(target_address - address) mod 2^13] in its scrambled immediate,
    RISC-V [jal] holds it [mod 2^21]; read as a two's-complement number
    the field is the offset itself whenever the offset fits the field.
    MIPS [j]/[jal] hold no offset but the target index [mod 2^26]. The
    word depends on the table only through the address bound to the
    target, so a reference before the definition and one after it are
    encoded alike. *)
Theorem branch_offsets :
  (∀ lines st out k m a p t tgt,
     MIPS.preprocess lines = Ok st → MIPS.assemble lines = Ok out →
     MIPS.clean_lines st !! k = Some (m, a) →
     m ∈ ["beq"; "blez"; "bltz"] →
     mips_target_operand m = Some p →
     Py.operands MIPS.lookahead a !! p = Some t →
     MIPS.labels st !! t = Some tgt →
     ∃ w, MIPS.encode (MIPS.labels st) k m a = Ok w
       ∧ out !! k = Some (Py.format_08x w)
       ∧ field w 15 0 = (tgt - (Z.of_nat k + 1)) mod 2 ^ 16
       ∧ (- 2 ^ 15 ≤ tgt - (Z.of_nat k + 1) < 2 ^ 15 →
          sign_extend 16 (field w 15 0) = tgt - (Z.of_nat k + 1)))
  ∧ (∀ lines st out k m a t tgt,
     MIPS.preprocess lines = Ok st → MIPS.assemble lines = Ok out →
     MIPS.clean_lines st !! k = Some (m, a) →
     m ∈ ["j"; "jal"] →
     Py.operands MIPS.lookahead a !! 0%nat = Some t →
     MIPS.labels st !! t = Some tgt →
     ∃ w, MIPS.encode (MIPS.labels st) k m a = Ok w
       ∧ out !! k = Some (Py.format_08x w)
       ∧ field w 25 0 = tgt mod 2 ^ 26)
  ∧ (∀ f st out k m a a0 a1 t rest rs1 rs2 tgt,
     RISCV.pass1 (RISCV.source_lines f) = Ok st → RISCV.assemble f = Ok out →
     RISCV.processed_code st !! k = Some (m, a) →
     m ∈ ["beq"; "bne"; "blt"; "bge"] →
     Py.operands RISCV.lookahead a = a0 :: a1 :: t :: rest →
     RISCV.parse_reg a0 = Ok rs1 → RISCV.parse_reg a1 = Ok rs2 →
     0 ≤ rs1 < 32 → 0 ≤ rs2 < 32 →
     RISCV.labels st !! t = Some tgt →
     ∃ w, RISCV.encode (RISCV.labels st) (4 * Z.of_nat k) m a = Ok w
       ∧ out !! k = Some (Py.format_08x (w .& 0xFFFFFFFF))
       ∧ b_imm (w .& 0xFFFFFFFF) = (tgt - 4 * Z.of_nat k) mod 2 ^ 13
       ∧ (- 2 ^ 12 ≤ tgt - 4 * Z.of_nat k < 2 ^ 12 →
          sign_extend 13 (b_imm (w .& 0xFFFFFFFF)) = tgt - 4 * Z.of_nat k))
  ∧ (∀ f st out k a a0 t rest rd tgt,
     RISCV.pass1 (RISCV.source_lines f) = Ok st → RISCV.assemble f = Ok out →
     RISCV.processed_code st !! k = Some ("jal", a) →
     Py.operands RISCV.lookahead a = a0 :: t :: rest →
     RISCV.parse_reg a0 = Ok rd → 0 ≤ rd < 32 →
     RISCV.labels st !! t = Some tgt →
     ∃ w, RISCV.encode (RISCV.labels st) (4 * Z.of_nat k) "jal" a = Ok w
       ∧ out !! k = Some (Py.format_08x (w .& 0xFFFFFFFF))
       ∧ j_imm (w .& 0xFFFFFFFF) = (tgt - 4 * Z.of_nat k) mod 2 ^ 21
       ∧ (- 2 ^ 20 ≤ tgt - 4 * Z.of_nat k < 2 ^ 20 →
          sign_extend 21 (j_imm (w .& 0xFFFFFFFF)) = tgt - 4 * Z.of_nat k))
  ∧ (∀ (L1 L2 : gmap string Z) k m a p t,
     Py.operands MIPS.lookahead a !! p = Some t → L1 !! t = L2 !! t →
     mips_target_operand m = Some p →
     MIPS.encode L1 k m a = MIPS.encode L2 k m a)
  ∧ (∀ (L1 L2 : gmap string Z) pc m a p t,
     Py.operands RISCV.lookahead a !! p = Some t → L1 !! t = L2 !! t →
     riscv_target_operand m = Some p →
     RISCV.encode L1 pc m a = RISCV.encode L2 pc m a).
Proof.
  repeat apply conj.
  - intros lines st out k m a p t tgt Hst (st' & Hst' & Henc)%mips_assemble_ok
      Hk Hm Hp Ht HL.
    rewrite Hst in Hst'. injection Hst' as <-.
    destruct (proj2 (mips_encode_from_ok _ _ _ _ Henc) k m a Hk) as (w & Hw & Hout).
    cbn in Hw. exists w. split; [done|]. split; [done|].
    destruct (mips_encode_branch _ _ _ _ _ _ _ _ Hm Hp Ht HL Hw) as (opcode & rs & rt & ->).
    destruct (mips_i_word_wraps opcode rs rt (tgt - (Z.of_nat k + 1))) as (_ & Hf & _).
    split; [done|]. intros Hfit. rewrite Hf. by apply sign_extend_mod.
  - intros lines st out k m a t tgt Hst (st' & Hst' & Henc)%mips_assemble_ok
      Hk Hm Ht HL.
    rewrite Hst in Hst'. injection Hst' as <-.
    destruct (proj2 (mips_encode_from_ok _ _ _ _ Henc) k m a Hk) as (w & Hw & Hout).
    cbn in Hw. exists w. split; [done|]. split; [done|].
    destruct (mips_encode_jump _ _ _ _ _ _ _ Hm Ht HL Hw) as (opcode & ->).
    rewrite <- Z.land_ones by lia. bits.
  - intros f st out k m a a0 a1 t rest rs1 rs2 tgt Hst (st' & Hst' & Henc)%riscv_assemble_ok
      Hk Hm Hops H0 H1 Hrs1 Hrs2 HL.
    rewrite Hst in Hst'. injection Hst' as <-.
    destruct (proj2 (riscv_pass2_from_ok _ _ _ _ Henc) k m a Hk) as (w & Hw & Hout).
    rewrite Z.add_0_l in Hw.
    destruct (riscv_encode_branch (RISCV.labels st) (4 * Z.of_nat k) _ _ _ _ _ _ _ _ _
                Hm Hops H0 H1 HL) as (f3 & Hf3 & Henc').
    rewrite Henc' in Hw. injection Hw as <-.
    eexists. split; [done|]. split; [done|].
    destruct (riscv_b_fields (tgt - 4 * Z.of_nat k) rs2 rs1 f3 99)
      as (_ & _ & _ & _ & Hb & _); [lia..|].
    assert ((tgt - 4 * Z.of_nat k) mod 2 = 0) as Heven.
    { pose proof (riscv_label_aligned _ _ _ _ Hst HL). Z.div_mod_to_equations. lia. }
    rewrite Hb, (even_offset_field 12) by (lia || done).
    split; [done|]. intros Hfit. by apply sign_extend_mod.
  - intros f st out k a a0 t rest rd tgt Hst (st' & Hst' & Henc)%riscv_assemble_ok
      Hk Hops H0 Hrd HL.
    rewrite Hst in Hst'. injection Hst' as <-.
    destruct (proj2 (riscv_pass2_from_ok _ _ _ _ Henc) k _ a Hk) as (w & Hw & Hout).
    rewrite Z.add_0_l in Hw.
    rewrite (riscv_encode_jal (RISCV.labels st) (4 * Z.of_nat k) _ _ _ _ _ _ Hops H0 HL) in Hw.
    injection Hw as <-.
    eexists. split; [by eapply riscv_encode_jal|]. split; [done|].
    destruct (riscv_j_fields (tgt - 4 * Z.of_nat k) rd 111)
      as (_ & _ & _ & _ & Hj & _); [lia..|].
    assert ((tgt - 4 * Z.of_nat k) mod 2 = 0) as Heven.
    { pose proof (riscv_label_aligned _ _ _ _ Hst HL). Z.div_mod_to_equations. lia. }
    rewrite Hj, (even_offset_field 20) by (lia || done).
    split; [done|]. intros Hfit. by apply sign_extend_mod.
  - intros. by eapply mips_encode_same_target.
  - intros. by eapply riscv_encode_same_target.
Qed.
(** The claim fails as it stands: a RISC-V branch to a label 8192 bytes
    ahead does not hold an immediate that reads back as 8192, and a MIPS
    jump holds the index of its target, not a distance to it. *)
Lemma offset_not_always_recovered :
  ¬ (∀ st tgt w,
       RISCV.pass1 (RISCV.source_lines far_program) = Ok st →
       RISCV.labels st !! "far" = Some tgt →
       RISCV.encode (RISCV.labels st) 0 "beq" "x0, x0, far" = Ok w →
       sign_extend 13 (b_imm (w .& 0xFFFFFFFF)) = tgt - 0)
  ∧ ¬ (∀ st tgt w,
       MIPS.preprocess ["nop"; "j L"; "nop"; "L: nop"] = Ok st →
       MIPS.labels st !! "L" = Some tgt →
       MIPS.encode (MIPS.labels st) 1 "j" "L" = Ok w →
       field w 25 0 = tgt - (1 + 1) ∨ field w 25 0 = tgt - 1).
Proof.
  split; intros H.
  - destruct (RISCV.pass1 (RISCV.source_lines far_program)) as [st|e] eqn:Hst;
      [|by vm_compute in Hst].
    specialize (H st 8192 0x63 eq_refl).
    vm_compute in Hst. injection Hst as <-.
    assert (sign_extend 13 (b_imm (0x63 .& 0xFFFFFFFF)) = 8192 - 0) as Habs
      by (apply H; vm_compute; reflexivity).
    vm_compute in Habs. discriminate.
  - destruct (MIPS.preprocess ["nop"; "j L"; "nop"; "L: nop"]) as [st|e] eqn:Hst;
      [|by vm_compute in Hst].
    specialize (H st 3 0x08000003 eq_refl).
    vm_compute in Hst. injection Hst as <-.
    assert (field 0x08000003 25 0 = 3 - (1 + 1) ∨ field 0x08000003 25 0 = 3 - 1) as Habs
      by (apply H; vm_compute; reflexivity).
    vm_compute in Habs. by destruct Habs.
Qed.

(** ** Round trips *)

Lemma mod_recovers n v imm : 0 < n → v = imm mod 2 ^ n → recovers n v imm.
Proof.
  intros Hn ->. split; intros Himm.
  - by apply Z.mod_small.
  - by apply sign_extend_mod.
Qed.

(** C9: for each word layout, with the registers, opcodes and function
    codes in range, every field read back at its documented position is
    the value that was packed; an immediate comes back as it is when it
    fits its field, unsigned or two's complement; the RISC-V store,
    branch and jump immediates are read back from their split and
    scrambled positions (a branch or jump offset is even). *)
Theorem pack_unpack_roundtrip :
  (∀ opcode rs rt rd sa funct,
     0 ≤ opcode < 64 → 0 ≤ rs < 32 → 0 ≤ rt < 32 → 0 ≤ rd < 32 → 0 ≤ sa < 32 →
     0 ≤ funct < 64 →
     let w := MIPS.r_word opcode rs rt rd sa funct in
     field w 31 26 = opcode ∧ field w 25 21 = rs ∧ field w 20 16 = rt
     ∧ field w 15 11 = rd ∧ field w 10 6 = sa ∧ field w 5 0 = funct)
  ∧ (∀ opcode rs rt imm,
     0 ≤ opcode < 64 → 0 ≤ rs < 32 → 0 ≤ rt < 32 →
     let w := MIPS.i_word opcode rs rt imm in
     field w 31 26 = opcode ∧ field w 25 21 = rs ∧ field w 20 16 = rt
     ∧ recovers 16 (field w 15 0) imm)
  ∧ (∀ opcode target,
     0 ≤ opcode < 64 → 0 ≤ target < 2 ^ 26 →
     let w := MIPS.j_word opcode target in
     field w 31 26 = opcode ∧ field w 25 0 = target)
  ∧ (∀ f7 rs2 rs1 f3 rd op,
     0 ≤ f7 < 128 → 0 ≤ rs2 < 32 → 0 ≤ rs1 < 32 → 0 ≤ f3 < 8 → 0 ≤ rd < 32 →
     0 ≤ op < 128 →
     let w := RISCV.r_word f7 rs2 rs1 f3 rd op .& 0xFFFFFFFF in
     field w 31 25 = f7 ∧ field w 24 20 = rs2 ∧ field w 19 15 = rs1
     ∧ field w 14 12 = f3 ∧ field w 11 7 = rd ∧ field w 6 0 = op)
  ∧ (∀ imm rs1 f3 rd op,
     0 ≤ rs1 < 32 → 0 ≤ f3 < 8 → 0 ≤ rd < 32 → 0 ≤ op < 128 →
     let w := RISCV.i_word imm rs1 f3 rd op .& 0xFFFFFFFF in
     recovers 12 (field w 31 20) imm ∧ field w 19 15 = rs1
     ∧ field w 14 12 = f3 ∧ field w 11 7 = rd ∧ field w 6 0 = op)
  ∧ (∀ imm rs2 rs1 f3 op,
     0 ≤ rs2 < 32 → 0 ≤ rs1 < 32 → 0 ≤ f3 < 8 → 0 ≤ op < 128 →
     let w := RISCV.s_word imm rs2 rs1 f3 op .& 0xFFFFFFFF in
     field w 31 25 = field imm 11 5 ∧ field w 11 7 = field imm 4 0
     ∧ recovers 12 (s_imm w) imm ∧ field w 24 20 = rs2 ∧ field w 19 15 = rs1
     ∧ field w 14 12 = f3 ∧ field w 6 0 = op)
  ∧ (∀ off rs2 rs1 f3 op,
     0 ≤ rs2 < 32 → 0 ≤ rs1 < 32 → 0 ≤ f3 < 8 → 0 ≤ op < 128 →
     let w := RISCV.b_word off rs2 rs1 f3 op .& 0xFFFFFFFF in
     field w 31 31 = field off 12 12 ∧ field w 30 25 = field off 10 5
     ∧ field w 11 8 = field off 4 1 ∧ field w 7 7 = field off 11 11
     ∧ (off mod 2 = 0 → recovers 13 (b_imm w) off)
     ∧ field w 24 20 = rs2 ∧ field w 19 15 = rs1
     ∧ field w 14 12 = f3 ∧ field w 6 0 = op)
  ∧ (∀ imm rd op,
     0 ≤ rd < 32 → 0 ≤ op < 128 → 0 ≤ imm < 2 ^ 20 →
     let w := RISCV.u_word imm rd op .& 0xFFFFFFFF in
     field w 31 12 = imm ∧ field w 11 7 = rd ∧ field w 6 0 = op)
  ∧ (∀ off rd op,
     0 ≤ rd < 32 → 0 ≤ op < 128 →
     let w := RISCV.j_word off rd op .& 0xFFFFFFFF in
     field w 31 31 = field off 20 20 ∧ field w 30 21 = field off 10 1
     ∧ field w 20 20 = field off 11 11 ∧ field w 19 12 = field off 19 12
     ∧ (off mod 2 = 0 → recovers 21 (j_imm w) off)
     ∧ field w 11 7 = rd ∧ field w 6 0 = op).
Proof.
  repeat apply conj.
  - apply mips_r_fields.
  - intros opcode rs rt imm Ho Hs Ht.
    destruct (mips_i_fields opcode rs rt imm Ho Hs Ht) as (? & ? & ? & ?).
    repeat split; try done; by apply mod_recovers.
  - intros opcode target Ho Ht.
    destruct (mips_j_fields opcode target Ho) as (? & Hf).
    split; [done|]. cbv zeta in Hf. rewrite Hf. by apply Z.mod_small.
  - apply riscv_r_fields.
  - intros imm rs1 f3 rd op H1 H2 H3 H4.
    destruct (riscv_i_fields imm rs1 f3 rd op H1 H2 H3 H4) as (? & ? & ? & ? & ?).
    repeat split; try done; by apply mod_recovers.
  - intros imm rs2 rs1 f3 op H1 H2 H3 H4.
    destruct (riscv_s_fields imm rs2 rs1 f3 op H1 H2 H3 H4)
      as (? & ? & ? & ? & ? & ? & ?).
    repeat split; try done; by apply mod_recovers.
  - intros off rs2 rs1 f3 op H1 H2 H3 H4.
    destruct (riscv_b_fields off rs2 rs1 f3 op H1 H2 H3 H4)
      as (? & ? & ? & ? & Hb & ? & ? & ? & ?).
    repeat split; try done;
      apply mod_recovers; try done; cbv zeta in Hb; rewrite Hb;
      by apply (even_offset_field 12).
  - intros imm rd op H1 H2 Himm.
    destruct (riscv_u_fields imm rd op H1 H2) as (Hf & ? & ?).
    split; [|done]. cbv zeta in Hf. rewrite Hf. by apply Z.mod_small.
  - intros off rd op H1 H2.
    destruct (riscv_j_fields off rd op H1 H2) as (? & ? & ? & ? & Hj & ? & ?).
    repeat split; try done;
      apply mod_recovers; try done; cbv zeta in Hj; rewrite Hj;
      by apply (even_offset_field 20).
Qed.

(** ** The theorems at sample programs *)

Ltac by_decide :=
  match goal with |- ?P => apply (@bool_decide_unpack P _); vm_compute; exact I end.

Lemma branch_offsets_witness :
  (∃ w, MIPS.assemble mips_loop ≫= (λ out, or_raise IndexError (out !! 2%nat))
        = Ok (Py.format_08x w)
     ∧ sign_extend 16 (field w 15 0) = 0 - (2 + 1))
  ∧ (∃ w, MIPS.assemble mips_loop ≫= (λ out, or_raise IndexError (out !! 3%nat))
          = Ok (Py.format_08x w)
     ∧ field w 25 0 = 0)
  ∧ (∃ w, RISCV.assemble riscv_loop ≫= (λ out, or_raise IndexError (out !! 1%nat))
          = Ok (Py.format_08x (w .& 0xFFFFFFFF))
     ∧ sign_extend 13 (b_imm (w .& 0xFFFFFFFF)) = 16 - 4 * 1)
  ∧ (∃ w, RISCV.assemble riscv_loop ≫= (λ out, or_raise IndexError (out !! 3%nat))
          = Ok (Py.format_08x (w .& 0xFFFFFFFF))
     ∧ sign_extend 21 (j_imm (w .& 0xFFFFFFFF)) = 0 - 4 * 3)
  ∧ MIPS.encode {["done" := 4]} 1 "beq" "$t0, $t1, done"
    = MIPS.encode {["done" := 4; "loop" := 0]} 1 "beq" "$t0, $t1, done"
  ∧ RISCV.encode {["done" := 16]} 4 "beq" "t0, t1, done"
    = RISCV.encode {["done" := 16; "loop" := 0]} 4 "beq" "t0, t1, done".
Proof.
  destruct branch_offsets as (HB & HJ & HRB & HRJ & HM & HR).
  repeat apply conj.
  - edestruct HB with (lines := mips_loop) (k := 2%nat) (m := "bltz") (a := "$t0, loop")
      (p := 1%nat) (t := "loop") (tgt := 0)
      as (w & Henc & Hout & _ & Hs);
      [vm_compute; reflexivity | vm_compute; reflexivity | vm_compute; reflexivity
      | by_decide | reflexivity | reflexivity | vm_compute; reflexivity |].
    vm_compute in Henc. injection Henc as <-.
    eexists. split; [|apply Hs; lia]. vm_compute. reflexivity.
  - edestruct HJ with (lines := mips_loop) (k := 3%nat) (m := "j") (a := "loop")
      (t := "loop") (tgt := 0)
      as (w & Henc & Hout & Hf);
      [vm_compute; reflexivity | vm_compute; reflexivity | vm_compute; reflexivity
      | by_decide | reflexivity | vm_compute; reflexivity |].
    vm_compute in Henc. injection Henc as <-.
    eexists. split; [|exact Hf]. vm_compute. reflexivity.
  - edestruct HRB with (f := riscv_loop) (k := 1%nat) (m := "beq") (a := "t0, t1, done")
      (a0 := "t0") (a1 := "t1") (t := "done") (rest := @nil string) (rs1 := 5) (rs2 := 6)
      (tgt := 16)
      as (w & Henc & Hout & _ & Hs);
      [vm_compute; reflexivity | vm_compute; reflexivity | vm_compute; reflexivity
      | by_decide | reflexivity | reflexivity | reflexivity | lia | lia
      | vm_compute; reflexivity |].
    vm_compute in Henc. injection Henc as <-.
    eexists. split; [|apply Hs; lia]. vm_compute. reflexivity.
  - edestruct HRJ with (f := riscv_loop) (k := 3%nat) (a := "x0, loop") (a0 := "x0")
      (t := "loop") (rest := @nil string) (rd := 0) (tgt := 0)
      as (w & Henc & Hout & _ & Hs);
      [vm_compute; reflexivity | vm_compute; reflexivity | vm_compute; reflexivity
      | reflexivity | reflexivity | lia | vm_compute; reflexivity |].
    vm_compute in Henc. injection Henc as <-.
    eexists. split; [|apply Hs; lia]. vm_compute. reflexivity.
  - apply (HM _ _ 1%nat "beq" "$t0, $t1, done" 2%nat "done");
      [reflexivity | vm_compute; reflexivity | reflexivity].
  - apply (HR _ _ 4 "beq" "t0, t1, done" 2%nat "done");
      [reflexivity | vm_compute; reflexivity | reflexivity].
Defined.

Lemma label_addresses_witness :
  (∃ st, MIPS.preprocess ["li $t0, 100000"; "L: nop"] = Ok st
      ∧ MIPS.labels st !! "L" = Some 2
      ∧ ∃ before line after,
          ["li $t0, 100000"; "L: nop"] = before ++ line :: after
          ∧ label_of (norm line) = Some "L")
  ∧ (∃ st, RISCV.pass1 (RISCV.source_lines ["li t0, 100000"; "L: nop"]) = Ok st
      ∧ RISCV.labels st !! "L" = Some 8
      ∧ ∃ before line after,
          ["li t0, 100000"; "L: nop"] = before ++ line :: after
          ∧ label_of (norm line) = Some "L").
Proof.
  destruct (label_addresses "L") as [HM HR]. split.
  - destruct (MIPS.preprocess ["li $t0, 100000"; "L: nop"]) as [st|e] eqn:Hst;
      [|vm_compute in Hst; discriminate].
    destruct (HM _ st Hst) as [Hfwd Hbwd].
    destruct (Hfwd ["li $t0, 100000"] "L: nop" [] eq_refl eq_refl (Forall_nil_2 _))
      as (st_b & Hb & Hl & _).
    vm_compute in Hb. injection Hb as <-.
    exists st. split; [done|]. split; [exact Hl|].
    destruct (Hbwd 2 Hl) as (before & line & after & _ & Hsplit & Hline & _).
    by exists before, line, after.
  - destruct (RISCV.pass1 (RISCV.source_lines ["li t0, 100000"; "L: nop"]))
      as [st|e] eqn:Hst; [|vm_compute in Hst; discriminate].
    destruct (HR _ st Hst) as [Hfwd Hbwd].
    destruct (Hfwd ["li t0, 100000"] "L: nop" [] eq_refl eq_refl (Forall_nil_2 _))
      as (st_b & Hb & Hl & _).
    vm_compute in Hb. injection Hb as <-.
    exists st. split; [done|]. split; [exact Hl|].
    destruct (Hbwd 8 Hl) as (before & line & after & _ & Hsplit & Hline & _).
    by exists before, line, after.
Defined.

Lemma redefinition_accepted_witness :
  (∃ st out, MIPS.preprocess ["L: nop"; "L:"; "j L"] = Ok st
      ∧ MIPS.assemble ["L: nop"; "L:"; "j L"] = Ok out
      ∧ length out = 2%nat ∧ MIPS.labels st !! "L" = Some 1)
  ∧ (∃ st out, RISCV.pass1 (RISCV.source_lines ["L: nop"; "L:"; "j L"]) = Ok st
      ∧ RISCV.assemble ["L: nop"; "L:"; "j L"] = Ok out
      ∧ length out = 2%nat ∧ RISCV.labels st !! "L" = Some 4).
Proof.
  destruct (redefinition_accepted ["L: nop"] ["j L"] "L:" "L" eq_refl eq_refl)
    as [HM HR].
  split.
  - destruct (HM ["20000000"; "08000000"]) as (st & out & Hst & Hout & Hlen & Hl);
      [vm_compute; reflexivity|].
    destruct Hl as (st_b & Hb & Hl); [repeat constructor; vm_compute; discriminate|].
    vm_compute in Hb. injection Hb as <-. by exists st, out.
  - destruct (HR ["00000013"; "ffdff06f"]) as (st & out & Hst & Hout & Hlen & Hl);
      [vm_compute; reflexivity|].
    destruct Hl as (st_b & Hb & Hl); [repeat constructor; vm_compute; discriminate|].
    vm_compute in Hb. injection Hb as <-. by exists st, out.
Defined.


Lemma undefined_label_aborts_witness :
  MIPS.main (Some ["nop"; "beq $t0, $t1, nowhere"]) = {| exit_status := 1; written := None |}
  ∧ RISCV.main (Some ["nop"; "j nowhere"]) = {| exit_status := 1; written := None |}
  ∧ MIPS.main (Some ["li $t0"]) = {| exit_status := 1; written := None |}
  ∧ RISCV.main (Some ["lw x1"]) = {| exit_status := 1; written := None |}.
Proof.
  destruct undefined_label_aborts as (HM & HR & HMe & HRe). repeat apply conj;
    [| |apply (HMe _ ValueError); vm_compute; reflexivity
     |apply (HRe _ IndexError); vm_compute; reflexivity].
  - edestruct HM with (lines := ["nop"; "beq $t0, $t1, nowhere"]) (k := 1%nat)
      (m := "beq") (a := "$t0, $t1, nowhere") (p := 2%nat) (t := "nowhere")
      as (_ & _ & Hmain);
      [vm_compute; reflexivity | vm_compute; reflexivity | reflexivity | reflexivity
      | vm_compute; reflexivity | reflexivity | exact Hmain].
  - edestruct HR with (f := ["nop"; "j nowhere"]) (k := 1%nat)
      (m := "jal") (a := "x0, nowhere") (p := 1%nat) (t := "nowhere")
      as (_ & _ & Hmain);
      [vm_compute; reflexivity | vm_compute; reflexivity | reflexivity | reflexivity
      | vm_compute; reflexivity | reflexivity | exact Hmain].
Defined.

Lemma itype_immediate_wraps_witness :
  (∃ w, MIPS.encode ∅ 0 "addi" "$t0, $0, 70000" = Ok w ∧ field w 15 0 = 4464
      ∧ w = 0x20081170)
  ∧ (∃ code, RISCV.encode ∅ 0 "addi" "x1, x2, 5000" = Ok code
      ∧ field (code .& 0xFFFFFFFF) 31 20 = 904)
  ∧ (∃ code, RISCV.encode ∅ 0 "lw" "x1, -5000(x2)" = Ok code
      ∧ field (code .& 0xFFFFFFFF) 31 20 = 3192).
Proof.
  destruct itype_immediate_wraps as [HM HR]. repeat apply conj.
  - destruct (HM ∅ 0%nat "addi" "$t0, $0, 70000" "$t0" "$0" "70000" [] 8 0 70000)
      as (opcode & w & Hop & Henc & Hw & Hf & _);
      [by_decide | reflexivity | reflexivity | reflexivity | reflexivity |].
    exists w. split; [done|]. split; [exact Hf|].
    injection Hop as <-. by rewrite Hw.
  - destruct (HR ∅ 0 "addi" "x1, x2, 5000" (RISCV.F 0x13 0x0) "x1" "x2" ["5000"] 1 2 5000)
      as (code & Henc & _ & _ & Hf);
      [reflexivity | by_decide | reflexivity | reflexivity
      | left; by exists "5000", [] |].
    exists code. split; [done|]. apply Hf; lia.
  - destruct (HR ∅ 0 "lw" "x1, -5000(x2)" (RISCV.F 0x03 0x2) "x1" "-5000(x2)" [] 1 2 (-5000))
      as (code & Henc & _ & _ & Hf);
      [reflexivity | by_decide | reflexivity | reflexivity
      | right; by exists "-5000", "x2)" |].
    exists code. split; [done|]. apply Hf; lia.
Defined.

Lemma pack_unpack_roundtrip_witness :
  field (MIPS.r_word 0 9 10 8 0 0x20) 15 11 = 8
  ∧ sign_extend 16 (field (MIPS.i_word 8 0 8 (-4)) 15 0) = -4
  ∧ field (MIPS.i_word 8 0 8 65535) 15 0 = 65535
  ∧ field (MIPS.j_word 2 1024) 25 0 = 1024
  ∧ field (RISCV.r_word 0x20 3 2 0 1 0x33 .& 0xFFFFFFFF) 31 25 = 0x20
  ∧ sign_extend 12 (field (RISCV.i_word (-1) 2 4 1 0x13 .& 0xFFFFFFFF) 31 20) = -1
  ∧ s_imm (RISCV.s_word 2047 5 2 2 0x23 .& 0xFFFFFFFF) = 2047
  ∧ sign_extend 13 (b_imm (RISCV.b_word (-8) 6 5 0 0x63 .& 0xFFFFFFFF)) = -8
  ∧ b_imm (RISCV.b_word 4094 6 5 0 0x63 .& 0xFFFFFFFF) = 4094
  ∧ field (RISCV.u_word 0x12345 10 0x37 .& 0xFFFFFFFF) 31 12 = 0x12345
  ∧ sign_extend 21 (j_imm (RISCV.j_word (-12) 0 0x6f .& 0xFFFFFFFF)) = -12
  ∧ j_imm (RISCV.j_word 2048 1 0x6f .& 0xFFFFFFFF) = 2048.
Proof.
  destruct pack_unpack_roundtrip as (H1 & H2 & H3 & H4 & H5 & H6 & H7 & H8 & H9).
  repeat apply conj.
  - destruct (H1 0 9 10 8 0 0x20) as (_ & _ & _ & H & _); (lia || exact H).
  - destruct (H2 8 0 8 (-4)) as (_ & _ & _ & _ & H); (lia || (apply H; lia)).
  - destruct (H2 8 0 8 65535) as (_ & _ & _ & H & _); (lia || (apply H; lia)).
  - destruct (H3 2 1024) as (_ & H); (lia || exact H).
  - destruct (H4 0x20 3 2 0 1 0x33) as (H & _); (lia || exact H).
  - destruct (H5 (-1) 2 4 1 0x13) as ((_ & H) & _); (lia || (apply H; lia)).
  - destruct (H6 2047 5 2 2 0x23) as (_ & _ & (H & _) & _); (lia || (apply H; lia)).
  - destruct (H7 (-8) 6 5 0 0x63) as (_ & _ & _ & _ & H & _); try lia.
    destruct (H eq_refl) as [_ Hs]. apply Hs; lia.
  - destruct (H7 4094 6 5 0 0x63) as (_ & _ & _ & _ & H & _); try lia.
    destruct (H eq_refl) as [Hu _]. apply Hu; lia.
  - destruct (H8 0x12345 10 0x37) as (H & _); (lia || exact H).
  - destruct (H9 (-12) 0 0x6f) as (_ & _ & _ & _ & H & _); try lia.
    destruct (H eq_refl) as [_ Hs]. apply Hs; lia.
  - destruct (H9 2048 1 0x6f) as (_ & _ & _ & _ & H & _); try lia.
    destruct (H eq_refl) as [Hu _]. apply Hu; lia.
Defined.

Lemma mips_jalr_operands_witness :
  (MIPS.encode ∅ 0 "jalr" "$t0" = Ok 0x0100f809
   ∧ field (MIPS.r_word 0 8 0 31 0 0x09) 15 11 = 31)
  ∧ (MIPS.encode ∅ 0 "jalr" "$t1, $t0" = Ok 0x01004809
     ∧ field (MIPS.r_word 0 8 0 9 0 0x09) 15 11 = 9).
Proof.
  split.
  - destruct (proj1 (mips_jalr_operands ∅ 0%nat "$t0") "$t0" 8 eq_refl eq_refl)
      as [Henc Hf].
    split; [exact Henc|]. apply Hf; lia.
  - destruct (proj2 (mips_jalr_operands ∅ 0%nat "$t1, $t0") "$t1" "$t0" 9 8
                eq_refl eq_refl eq_refl) as [Henc Hf].
    split; [exact Henc|]. apply Hf; lia.
Defined.

(** ** Worked examples *)

Example mips_addi_word : MIPS.assemble ["addi $t0, $0, 5"] = Ok ["20080005"].
Proof. vm_compute. reflexivity. Qed.

Example riscv_add_word : RISCV.assemble ["add x1, x2, x3"] = Ok ["003100b3"].
Proof. vm_compute. reflexivity. Qed.

Example mips_loop_words :
  MIPS.assemble mips_loop = Ok ["21080001"; "11090002"; "0500fffd"; "08000000"; "20000000"].
Proof. vm_compute. reflexivity. Qed.

Example riscv_loop_words :
  RISCV.assemble riscv_loop = Ok ["00128293"; "00628663"; "fe02cce3"; "ff5ff06f"; "00000013"].
Proof. vm_compute. reflexivity. Qed.

Example int_literals :
  Py.int_literal true " -0x1F " = Some (-31) ∧ Py.int_literal true "010" = None
  ∧ Py.int_literal true "1_000" = Some 1000 ∧ Py.int_literal false "010" = Some 10
  ∧ Py.int_literal true "0x" = None ∧ Py.int_literal true "loop" = None.
Proof. repeat split; reflexivity. Qed.

Example format_words :
  Py.format_08x 0x20080005 = "20080005" ∧ Py.format_08x (-1) = "-0000001"
  ∧ Py.format_08x 0x123456789 = "123456789".
Proof. repeat split; reflexivity. Qed.

Example operand_lists :
  Py.operands MIPS.lookahead "$t0, 4($sp)  $t1,, x" = ["$t0"; "4($sp)"; "$t1"; "x"]
  ∧ Py.operands RISCV.lookahead "a0, 8(sp)" = ["a0"; "8(sp)"].
Proof. split; reflexivity. Qed.

(** ** Printing and reading decimal numbers *)

Lemma scan_digits_step acc n c k s :
  Py.digit_val c = Some k → k < 10 → c ≠ "_"%char →
  Py.scan_digits 10 false acc n (String c s)
  = Py.scan_digits 10 false (acc * 10 + k) (S n) s.
Proof.
  intros Hd Hk Hc. cbn [Py.scan_digits].
  rewrite (proj2 (Ascii.eqb_neq _ _) Hc), Hd. by rewrite (proj2 (Z.ltb_lt _ _) Hk).
Qed.

Lemma scan_digits_uint acc n d :
  Py.scan_digits 10 false acc n (DecimalString.NilEmpty.string_of_uint d)
  = Some (uint_val acc d, (n + Decimal.nb_digits d)%nat, "").
Proof.
  revert acc n. induction d; intros acc n;
    cbn [DecimalString.NilEmpty.string_of_uint uint_val Decimal.nb_digits];
    [by rewrite Nat.add_0_r|..];
    (erewrite scan_digits_step; [|vm_compute; reflexivity|by vm_compute|done]);
    by rewrite IHd, Nat.add_succ_r.
Qed.

Lemma uint_val_acc d acc :
  uint_val (Zpos acc) d = Zpos (Pos.of_uint_acc d acc).
Proof.
  revert acc. induction d; intros acc; cbn -[Z.mul Z.add Pos.mul Pos.add];
    [done|..]; rewrite <- IHd; f_equal; lia.
Qed.

Lemma uint_val_of_uint d : uint_val 0 d = Z.of_N (Pos.of_uint d).
Proof.
  induction d; cbn -[Z.mul Z.add Pos.mul Pos.add uint_val]; [done|..];
    try (cbn [uint_val]; change (0 * 10 + 0) with 0; exact IHd);
    cbn [uint_val]; exact (uint_val_acc d _).
Qed.

Lemma to_uint_unorm p : Pos.to_uint p = Decimal.unorm (Pos.to_uint p).
Proof.
  rewrite <- (DecimalPos.Unsigned.to_of (Pos.to_uint p)).
  by rewrite DecimalPos.Unsigned.of_to.
Qed.

(** The decimal digits of a positive number do not start with a zero. *)
Lemma to_uint_head p d : Pos.to_uint p ≠ Decimal.D0 d ∧ Pos.to_uint p ≠ Decimal.Nil.
Proof.
  split; [|apply DecimalPos.Unsigned.to_uint_nonnil].
  intros H. pose proof (to_uint_unorm p) as Hn. rewrite H in Hn.
  rewrite DecimalFacts.unorm_D0 in Hn. unfold Decimal.unorm in Hn.
  destruct (Decimal.nzhead d) eqn:Hz; try discriminate.
  - injection Hn as ->. by apply (DecimalPos.Unsigned.to_uint_nonzero p).
  - by apply (DecimalFacts.nzhead_nonzero d u).
Qed.

Lemma int_literal_digits base0 d :
  d ≠ Decimal.Nil → (∀ d', d ≠ Decimal.D0 d') →
  Py.int_literal base0 (DecimalString.NilEmpty.string_of_uint d) = Some (uint_val 0 d).
Proof.
  intros Hnil Hzero.
  destruct d as [|d|d|d|d|d|d|d|d|d|d]; [done | by destruct (Hzero d) |..];
    unfold Py.int_literal; cbn [DecimalString.NilEmpty.string_of_uint uint_val];
    pose proof (λ acc n, scan_digits_uint acc n d) as Hscan;
    revert Hscan; generalize (DecimalString.NilEmpty.string_of_uint d);
    intros s Hscan; destruct base0; lazy -[Py.scan_digits uint_val];
    (erewrite scan_digits_step; [|vm_compute; reflexivity|by vm_compute|done]);
    rewrite Hscan; reflexivity.
Qed.

Lemma int_literal_neg_digits base0 d :
  d ≠ Decimal.Nil → (∀ d', d ≠ Decimal.D0 d') →
  Py.int_literal base0 (String "-" (DecimalString.NilEmpty.string_of_uint d))
  = Some (- uint_val 0 d).
Proof.
  intros Hnil Hzero.
  destruct d as [|d|d|d|d|d|d|d|d|d|d]; [done | by destruct (Hzero d) |..];
    unfold Py.int_literal; cbn [DecimalString.NilEmpty.string_of_uint uint_val];
    pose proof (λ acc n, scan_digits_uint acc n d) as Hscan;
    revert Hscan; generalize (DecimalString.NilEmpty.string_of_uint d);
    intros s Hscan; destruct base0; lazy -[Py.scan_digits uint_val Z.opp];
    (erewrite scan_digits_step; [|vm_compute; reflexivity|by vm_compute|done]);
    rewrite Hscan; reflexivity.
Qed.

Lemma uint_val_pos p : uint_val 0 (Pos.to_uint p) = Zpos p.
Proof. by rewrite uint_val_of_uint, DecimalPos.Unsigned.of_to. Qed.

Lemma str_pos p : Py.str (Zpos p) = DecimalString.NilEmpty.string_of_uint (Pos.to_uint p).
Proof.
  unfold Py.str. cbn. pose proof (DecimalPos.Unsigned.to_uint_nonnil p).
  by destruct (Pos.to_uint p).
Qed.

Lemma str_neg p :
  Py.str (Zneg p) = String "-" (DecimalString.NilEmpty.string_of_uint (Pos.to_uint p)).
Proof.
  unfold Py.str. cbn. pose proof (DecimalPos.Unsigned.to_uint_nonnil p).
  by destruct (Pos.to_uint p).
Qed.

(** [int(f'{z}', 0) == z] and [int(f'{z}') == z]: what the first pass
    prints, the second pass reads back. *)
Lemma int_literal_str base0 z : Py.int_literal base0 (Py.str z) = Some z.
Proof.
  destruct z as [|p|p].
  - by destruct base0.
  - rewrite str_pos, int_literal_digits, uint_val_pos;
      [done | apply to_uint_head; exact Decimal.Nil | intros d'; apply to_uint_head].
  - rewrite str_neg, int_literal_neg_digits, uint_val_pos;
      [done | apply to_uint_head; exact Decimal.Nil | intros d'; apply to_uint_head].
Qed.
(** ** Operand lists *)

Lemma append_cons ch (a b : string) : String ch a +:+ b = String ch (a +:+ b).
Proof. reflexivity. Qed.

Lemma append_nil_l (a : string) : "" +:+ a = a.
Proof. reflexivity. Qed.

Lemma append_assoc (a b c : string) : (a +:+ b) +:+ c = a +:+ (b +:+ c).
Proof.
  induction a as [|ch a IH]; [done|].
  change (String ch ((a +:+ b) +:+ c) = String ch (a +:+ b +:+ c)). by rewrite IH.
Qed.

Lemma append_nil_r (a : string) : a +:+ "" = a.
Proof.
  induction a as [|ch a IH]; [done|].
  change (String ch (a +:+ "") = String ch a). by rewrite IH.
Qed.

Lemma all_chars_impl (p q : ascii → bool) s :
  (∀ c, p c = true → q c = true) → all_chars p s = true → all_chars q s = true.
Proof.
  intros Hpq. induction s as [|c s IH]; cbn; [done|].
  intros [Hc Hs]%andb_prop. by rewrite (Hpq c Hc), IH.
Qed.

(** A plain operand is read up to the comma that ends it, or to the end of
    the text. *)
Lemma re_split_plain_comma la cur a rest :
  plain a = true →
  Py.re_split_operands la false "" cur (a +:+ String "," rest)
  = (cur +:+ a) :: Py.re_split_operands la false "" "" rest.
Proof.
  revert cur. induction a as [|c a IH]; intros cur; cbn [plain all_chars]; unfold plain_char.
  - intros _. rewrite append_nil_l. cbn [Py.re_split_operands].
    by rewrite Ascii.eqb_refl.
  - intros [[[Hc1 _]%andb_prop Hc2]%andb_prop Ha]%andb_prop.
    apply negb_true_iff in Hc1, Hc2. rewrite append_cons.
    cbn [Py.re_split_operands].
    rewrite Hc1, Hc2. cbn [andb]. rewrite (IH _ Ha). f_equal.
    by rewrite append_nil_l, append_assoc.
Qed.

Lemma re_split_plain_end la cur a :
  plain a = true → Py.re_split_operands la false "" cur a = [cur +:+ a].
Proof.
  revert cur. induction a as [|c a IH]; intros cur; cbn [plain all_chars]; unfold plain_char.
  - intros _. done.
  - intros [[[Hc1 _]%andb_prop Hc2]%andb_prop Ha]%andb_prop.
    apply negb_true_iff in Hc1, Hc2. cbn [Py.re_split_operands].
    rewrite Hc1, Hc2. cbn [andb]. rewrite (IH _ Ha). f_equal.
    by rewrite append_nil_l, append_assoc.
Qed.

(** [strip] leaves a text without white space alone, and drops a leading
    blank. *)
Lemma rstrip_no_space s :
  all_chars (λ c, negb (Py.is_space c)) s = true → Py.rstrip s = s.
Proof.
  induction s as [|c s IH]; cbn [all_chars Py.rstrip]; [done|].
  intros [Hc Hs]%andb_prop. apply negb_true_iff in Hc. rewrite (IH Hs), Hc.
  by destruct s.
Qed.

Lemma strip_no_space s :
  all_chars (λ c, negb (Py.is_space c)) s = true → Py.strip s = s.
Proof.
  intros Hs. unfold Py.strip.
  assert (Py.lstrip s = s) as ->; [|by apply rstrip_no_space].
  destruct s as [|c s]; [done|]. cbn in Hs |- *.
  apply andb_prop in Hs as [Hc _]. apply negb_true_iff in Hc. by rewrite Hc.
Qed.

Lemma strip_blank s : Py.strip (String " " s) = Py.strip s.
Proof. reflexivity. Qed.

(** A printed number is made of digits and a minus sign. *)
Lemma string_of_uint_chars d :
  all_chars is_number_char (DecimalString.NilEmpty.string_of_uint d) = true.
Proof. induction d; cbn; [done|..]; exact IHd. Qed.

Lemma str_chars z : all_chars is_number_char (Py.str z) = true.
Proof.
  destruct z as [|p|p]; [done|..].
  - rewrite str_pos. apply string_of_uint_chars.
  - rewrite str_neg. cbn [all_chars]. by rewrite string_of_uint_chars.
Qed.

Lemma number_char_plain c : is_number_char c = true → plain_char c = true.
Proof.
  destruct c as [[] [] [] [] [] [] [] []]; vm_compute; congruence.
Qed.

Lemma number_char_no_space c : is_number_char c = true → negb (Py.is_space c) = true.
Proof.
  destruct c as [[] [] [] [] [] [] [] []]; vm_compute; congruence.
Qed.

Lemma str_plain z : plain (Py.str z) = true.
Proof. exact (all_chars_impl _ _ _ number_char_plain (str_chars z)). Qed.

Lemma strip_str z : Py.strip (Py.str z) = Py.str z.
Proof.
  apply strip_no_space. exact (all_chars_impl _ _ _ number_char_no_space (str_chars z)).
Qed.

Lemma str_nonempty z : Py.is_empty (Py.str z) = false.
Proof.
  destruct z as [|p|p]; [done|..].
  - rewrite str_pos. pose proof (DecimalPos.Unsigned.to_uint_nonnil p).
    by destruct (Pos.to_uint p).
  - by rewrite str_neg.
Qed.

Lemma plain_app a b : plain a = true → plain b = true → plain (a +:+ b) = true.
Proof.
  unfold plain. induction a as [|c a IH]; [done|].
  rewrite append_cons. cbn [all_chars].
  intros [Hc Ha]%andb_prop Hb. by rewrite Hc, IH.
Qed.

Lemma all_chars_lstrip p s : all_chars p s = true → all_chars p (Py.lstrip s) = true.
Proof.
  induction s as [|c s IH]; [done|]. cbn [Py.lstrip].
  destruct (Py.is_space c); [|done]. cbn [all_chars].
  intros [_ Hs]%andb_prop. by apply IH.
Qed.

Lemma all_chars_rstrip p s : all_chars p s = true → all_chars p (Py.rstrip s) = true.
Proof.
  induction s as [|c s IH]; [done|]. cbn [all_chars Py.rstrip].
  intros [Hc Hs]%andb_prop. specialize (IH Hs).
  destruct (Py.rstrip s) as [|d r].
  - destruct (Py.is_space c); [done|]. cbn. by rewrite Hc.
  - cbn [all_chars] in IH |- *. by rewrite Hc, IH.
Qed.

Lemma plain_strip s : plain s = true → plain (Py.strip s) = true.
Proof. intros H. by apply all_chars_rstrip, all_chars_lstrip. Qed.

Lemma plain_no_paren s : plain s = true → Py.contains "(" s = false.
Proof.
  induction s as [|c s IH]; [done|]. cbn [plain all_chars Py.contains]; unfold plain_char.
  intros [[[_ Hc]%andb_prop _]%andb_prop Hs]%andb_prop. apply negb_true_iff in Hc.
  rewrite Ascii.eqb_sym, Hc. by apply IH.
Qed.

(** The operand lists of the texts the first pass prints. *)
Lemma operands_two la a b :
  plain a = true → plain b = true →
  Py.is_empty (Py.strip a) = false → Py.is_empty (Py.strip b) = false →
  Py.operands la (a +:+ ", " +:+ b) = [Py.strip a; Py.strip b].
Proof.
  intros Ha Hb Hna Hnb. unfold Py.operands.
  change (a +:+ ", " +:+ b) with (a +:+ String "," (String " " b)).
  rewrite (re_split_plain_comma _ _ _ _ Ha), (re_split_plain_end _ "" (String " " b)) by done.
  cbn [fmap list_fmap]. rewrite !append_nil_l, strip_blank.
  rewrite !filter_cons_True by done. done.
Qed.

Lemma operands_three la a b c :
  plain a = true → plain b = true → plain c = true →
  Py.is_empty (Py.strip a) = false → Py.is_empty (Py.strip b) = false →
  Py.is_empty (Py.strip c) = false →
  Py.operands la (a +:+ ", " +:+ b +:+ ", " +:+ c)
  = [Py.strip a; Py.strip b; Py.strip c].
Proof.
  intros Ha Hb Hc Hna Hnb Hnc. unfold Py.operands.
  change (a +:+ ", " +:+ b +:+ ", " +:+ c)
    with (a +:+ String "," ((String " " b) +:+ String "," (String " " c))).
  rewrite (re_split_plain_comma _ _ _ _ Ha).
  rewrite (re_split_plain_comma _ "" (String " " b)) by done.
  rewrite (re_split_plain_end _ "" (String " " c)) by done.
  cbn [fmap list_fmap]. rewrite !append_nil_l, !strip_blank.
  rewrite !filter_cons_True by done. done.
Qed.

Lemma str_nonempty_strip z : Py.is_empty (Py.strip (Py.str z)) = false.
Proof. rewrite strip_str. apply str_nonempty. Qed.

(** ** Register operands *)

Lemma remove_absent c s :
  all_chars (λ d, negb (Ascii.eqb c d)) s = true → Py.remove c s = s.
Proof.
  induction s as [|d s IH]; cbn [all_chars Py.remove]; [done|].
  intros [Hd Hs]%andb_prop. apply negb_true_iff in Hd. by rewrite Hd, (IH Hs).
Qed.

Lemma remove_cons_ne c d s :
  Ascii.eqb c d = false → Py.remove c (String d s) = String d (Py.remove c s).
Proof. cbn. by intros ->. Qed.

Lemma number_char_not c d :
  is_number_char d = true → is_number_char c = false → negb (Ascii.eqb c d) = true.
Proof.
  intros Hd Hc. destruct (Ascii.eqb_spec c d) as [->|]; [congruence|done].
Qed.

Lemma remove_str c z : is_number_char c = false → Py.remove c (Py.str z) = Py.str z.
Proof.
  intros Hc. apply remove_absent.
  apply (all_chars_impl is_number_char); [|apply str_chars].
  intros d Hd. by apply number_char_not.
Qed.

Lemma str_inj z1 z2 : Py.str z1 = Py.str z2 → z1 = z2.
Proof.
  intros H. pose proof (int_literal_str false z1) as H1.
  rewrite H, int_literal_str in H1. congruence.
Qed.

Lemma dict_get_elem {V} (d : list (string * V)) k v :
  Py.dict_get d k = Some v → (k, v) ∈ d.
Proof.
  induction d as [|[k' v'] d IH]; cbn; [done|].
  destruct (String.eqb_spec k k') as [->|_].
  - intros [= ->]. apply elem_of_cons. by left.
  - intros H. apply elem_of_cons. right. by apply IH.
Qed.

Ltac elem_eqs H :=
  repeat (let E := fresh "E" in apply elem_of_cons in H as [E|H]);
  [..| by apply elem_of_nil in H].

(** A text that is a printed number [z] and a literal at once. *)
Ltac number_literal H :=
  match type of H with
  | Py.str ?z = ?lit =>
      let Hi := fresh in
      pose proof (int_literal_str false z) as Hi;
      rewrite H in Hi; vm_compute in Hi;
      first [discriminate Hi | injection Hi as <-]
  end.

Lemma mips_register_number z r :
  Py.dict_get MIPS.REGISTERS (Py.str z) = Some r → r = z.
Proof.
  intros H%dict_get_elem. unfold MIPS.REGISTERS in H.
  elem_eqs H; match goal with E : _ = _ |- _ => injection E as Hs -> end;
    number_literal Hs; done.
Qed.

Lemma mips_parse_reg_str z : MIPS.parse_reg (Py.str z) = Ok z.
Proof.
  unfold MIPS.parse_reg. rewrite !remove_str, strip_str by done.
  destruct (Py.dict_get _ _) eqn:E.
  - by rewrite (mips_register_number _ _ E).
  - unfold Py.int10. by rewrite int_literal_str.
Qed.

(** X1: MIPS [parse_reg]: a name of the register table, with or without the
    dollar sign, is read as its number, which is between 0 and 31; a
    printed integer, with or without the dollar sign, is read as that
    integer, whether it numbers a register or not. *)
Theorem mips_parse_reg_operands :
  (∀ name r, (name, r) ∈ MIPS.REGISTERS →
     MIPS.parse_reg name = Ok r ∧ MIPS.parse_reg ("$" +:+ name) = Ok r
     ∧ 0 ≤ r ≤ 31)
  ∧ (∀ z, MIPS.parse_reg (Py.str z) = Ok z ∧ MIPS.parse_reg ("$" +:+ Py.str z) = Ok z).
Proof.
  split.
  - intros name r H. unfold MIPS.REGISTERS in H.
    elem_eqs H; match goal with E : _ = _ |- _ => injection E as -> -> end;
      (split; [|split]); (vm_compute; (reflexivity || (split; discriminate))).
  - intros z. split; [apply mips_parse_reg_str|].
    assert (MIPS.parse_reg ("$" +:+ Py.str z) = MIPS.parse_reg (Py.str z)) as ->;
      [|apply mips_parse_reg_str].
    unfold MIPS.parse_reg. rewrite append_cons, append_nil_l. cbn [Py.remove].
    done.
Qed.

Lemma str_no_space z : all_chars (λ c, negb (Py.is_space c)) (Py.str z) = true.
Proof. exact (all_chars_impl _ _ _ number_char_no_space (str_chars z)). Qed.

Ltac riscv_regs H :=
  let l := eval vm_compute in RISCV.REGS in change RISCV.REGS with l in H.

Lemma riscv_register_number z r :
  Py.dict_get RISCV.REGS (String "x" (Py.str z)) = Some r → r = z.
Proof.
  intros H%dict_get_elem. riscv_regs H.
  elem_eqs H;
    match goal with
    | E : _ = _ |- _ => first [discriminate E | injection E as Hs ->; number_literal Hs]
    end; done.
Qed.

Lemma riscv_register_not_number z : Py.dict_get RISCV.REGS (Py.str z) = None.
Proof.
  destruct (Py.dict_get _ _) as [r|] eqn:H; [|done].
  apply dict_get_elem in H. riscv_regs H.
  elem_eqs H; match goal with E : _ = _ |- _ => injection E as Hs -> end;
    number_literal Hs.
Qed.

Lemma riscv_parse_reg_str z : RISCV.parse_reg (Py.str z) = Ok z.
Proof.
  unfold RISCV.parse_reg. rewrite !remove_str, strip_str by done.
  rewrite riscv_register_not_number, remove_str by done.
  unfold Py.int10. by rewrite int_literal_str.
Qed.

Lemma riscv_parse_reg_x z : RISCV.parse_reg (String "x" (Py.str z)) = Ok z.
Proof.
  unfold RISCV.parse_reg.
  rewrite !remove_cons_ne, !remove_str by done.
  rewrite strip_no_space by (exact (str_no_space z)).
  destruct (Py.dict_get _ _) eqn:E.
  - by rewrite (riscv_register_number _ _ E).
  - cbn [Py.remove]. rewrite Ascii.eqb_refl, remove_str by done.
    unfold Py.int10. by rewrite int_literal_str.
Qed.

Lemma mips_parse_reg_operands_witness :
  MIPS.parse_reg "$sp" = Ok 29 ∧ MIPS.parse_reg "$-7" = Ok (-7)
  ∧ MIPS.parse_reg "$40" = Ok 40.
Proof.
  destruct mips_parse_reg_operands as [H1 H2].
  split; [|split].
  - apply (H1 "sp" 29). by repeat constructor.
  - exact (proj2 (H2 (-7))).
  - exact (proj2 (H2 40)).
Defined.

(** X2: RISC-V [parse_reg]: a name of the register table ([x0] to [x31] and
    the ABI names), also behind a dollar sign, is read as its number,
    which is between 0 and 31; [x] followed by a printed integer, and a
    printed integer alone, are read as that integer, whether it numbers a
    register or not. *)
Theorem riscv_parse_reg_operands :
  (∀ name r, (name, r) ∈ RISCV.REGS →
     RISCV.parse_reg name = Ok r ∧ RISCV.parse_reg ("$" +:+ name) = Ok r
     ∧ 0 ≤ r ≤ 31)
  ∧ (∀ z, RISCV.parse_reg ("x" +:+ Py.str z) = Ok z ∧ RISCV.parse_reg (Py.str z) = Ok z).
Proof.
  split.
  - intros name r H. riscv_regs H.
    elem_eqs H; match goal with E : _ = _ |- _ => injection E as -> -> end;
      (split; [|split]); (vm_compute; (reflexivity || (split; discriminate))).
  - intros z. split; [apply riscv_parse_reg_x | apply riscv_parse_reg_str].
Qed.

Lemma riscv_parse_reg_operands_witness :
  RISCV.parse_reg "$s11" = Ok 27 ∧ RISCV.parse_reg "x31" = Ok 31
  ∧ RISCV.parse_reg "x32" = Ok 32.
Proof.
  destruct riscv_parse_reg_operands as [H1 H2].
  split; [|split].
  - apply (H1 "s11" 27). by repeat constructor.
  - exact (proj1 (H2 31)).
  - exact (proj1 (H2 32)).
Defined.

(** ** What an instruction needs *)

Lemma mem_false_cons m x l :
  Py.mem m (x :: l) = false → String.eqb m x = false ∧ Py.mem m l = false.
Proof. unfold Py.mem. cbn [existsb]. apply orb_false_elim. Qed.

Ltac mem_false H :=
  repeat (let E := fresh "E" in apply mem_false_cons in H as [E H]).

Lemma riscv_target_ops m inf :
  Py.dict_get RISCV.OPCODES m = Some inf →
  Py.mem m ["beq"; "bne"; "blt"; "bge"; "jal"] = false →
  RISCV.op inf ≠ 0x63 ∧ RISCV.op inf ≠ 0x6f.
Proof.
  intros H%dict_get_elem Hm. unfold RISCV.OPCODES in H.
  elem_eqs H; match goal with E : _ = _ |- _ => injection E as -> -> end;
    first [discriminate Hm | by split].
Qed.

(** X3: An instruction that is not a branch or a jump is encoded without the
    label table and without its position: the word, or the exception, is
    the same in every table and at every position. In particular a label
    is never looked up for an immediate operand. *)
Theorem encoding_without_context (m a : string) :
  (Py.mem m ["beq"; "blez"; "bltz"; "j"; "jal"] = false →
   ∀ (L L' : gmap string Z) i i', MIPS.encode L i m a = MIPS.encode L' i' m a)
  ∧ (Py.mem m ["beq"; "bne"; "blt"; "bge"; "jal"] = false →
     ∀ (L L' : gmap string Z) pc pc', RISCV.encode L pc m a = RISCV.encode L' pc' m a).
Proof.
  split; intros Hm L L'.
  - intros i i'. mem_false Hm. unfold MIPS.encode.
    destruct (Py.dict_get MIPS.R_TYPE m); [done|].
    unfold Py.mem. cbn [existsb]. rewrite ?E, ?E0, ?E1, ?E2, ?E3. cbn [orb].
    by destruct (Py.dict_get MIPS.OPCODES m).
  - intros pc pc'. unfold RISCV.encode.
    destruct (Py.dict_get RISCV.OPCODES m) as [inf|] eqn:Hinf; [|done].
    destruct (riscv_target_ops _ _ Hinf Hm) as [Hb Hj]. cbn [mbind result_bind or_raise].
    apply Z.eqb_neq in Hb, Hj. rewrite Hb, Hj.
    repeat match goal with |- context [if ?b then _ else _] => destruct b end; done.
Qed.

Lemma encoding_without_context_witness :
  MIPS.encode ∅ 0 "addi" "$t0, $t1, 5" = MIPS.encode {["x" := 7]} 9 "addi" "$t0, $t1, 5"
  ∧ RISCV.encode ∅ 0 "sw" "x1, 8(x2)" = RISCV.encode {["x" := 7]} 36 "sw" "x1, 8(x2)".
Proof.
  split.
  - apply (proj1 (encoding_without_context "addi" "$t0, $t1, 5")). reflexivity.
  - apply (proj2 (encoding_without_context "sw" "x1, 8(x2)")). reflexivity.
Defined.

(** X4: An instruction with a known mnemonic and no operand at all cannot be
    encoded: the first operand it reads is missing, which is an
    [IndexError] (the MIPS assembler then exits with status 1). *)
Theorem no_operands_raise (m a : string) :
  (Py.operands MIPS.lookahead a = [] →
   is_Some (Py.dict_get MIPS.R_TYPE m) ∨ is_Some (Py.dict_get MIPS.OPCODES m) →
   ∀ (L : gmap string Z) i, MIPS.encode L i m a = Raise IndexError)
  ∧ (Py.operands RISCV.lookahead a = [] →
     is_Some (Py.dict_get RISCV.OPCODES m) →
     ∀ (L : gmap string Z) pc, RISCV.encode L pc m a = Raise IndexError).
Proof.
  split.
  - intros Ha Hm L i. unfold MIPS.encode. rewrite Ha.
    destruct Hm as [[f H]|[o H]]; apply dict_get_elem in H.
    + unfold MIPS.R_TYPE in H.
      elem_eqs H; match goal with E : _ = _ |- _ => injection E as -> -> end;
        reflexivity.
    + unfold MIPS.OPCODES in H.
      elem_eqs H; match goal with E : _ = _ |- _ => injection E as -> -> end;
        reflexivity.
  - intros Ha [inf H] L pc. unfold RISCV.encode. rewrite Ha.
    apply dict_get_elem in H. unfold RISCV.OPCODES in H.
    elem_eqs H; match goal with E : _ = _ |- _ => injection E as -> -> end;
      reflexivity.
Qed.

Lemma no_operands_raise_witness :
  MIPS.encode ∅ 3 "add" "" = Raise IndexError
  ∧ RISCV.encode ∅ 12 "jal" " , " = Raise IndexError.
Proof.
  split.
  - apply (proj1 (no_operands_raise "add" "")); [reflexivity|left; by eexists].
  - apply (proj2 (no_operands_raise "jal" " , ")); [reflexivity|by eexists].
Defined.

(** ** Instructions by format *)

Ltac table_cases H :=
  elem_eqs H; match goal with E : _ = _ |- _ => injection E as -> -> end.

(** MIPS, three registers: [op rd, rs, rt]. *)
Lemma mips_encode_reg3 (L : gmap string Z) i m funct a x y z rd rs rt :
  (m, funct) ∈ [("add", 0x20); ("sub", 0x22); ("and", 0x24); ("or", 0x25);
                ("xor", 0x26); ("nor", 0x27); ("slt", 0x2a)] →
  Py.operands MIPS.lookahead a = [x; y; z] →
  MIPS.parse_reg x = Ok rd → MIPS.parse_reg y = Ok rs → MIPS.parse_reg z = Ok rt →
  MIPS.encode L i m a = Ok (MIPS.r_word 0 rs rt rd 0 funct).
Proof.
  intros Hm Ha Hx Hy Hz. unfold MIPS.encode. rewrite Ha.
  table_cases Hm; cbn; rewrite Hx; cbn; rewrite Hy; cbn; by rewrite Hz.
Qed.

(** MIPS, two registers and an immediate: [op rt, rs, imm]. *)
Lemma mips_encode_imm3 (L : gmap string Z) i m opcode a x y z rt rs imm :
  (m, opcode) ∈ [("addi", 0x08); ("slti", 0x0a); ("andi", 0x0c); ("ori", 0x0d);
                 ("xori", 0x0e)] →
  Py.operands MIPS.lookahead a = [x; y; z] →
  MIPS.parse_reg x = Ok rt → MIPS.parse_reg y = Ok rs → Py.int0 z = Ok imm →
  MIPS.encode L i m a = Ok (MIPS.i_word opcode rs rt imm).
Proof.
  intros Hm Ha Hx Hy Hz. unfold MIPS.encode. rewrite Ha.
  table_cases Hm; cbn; rewrite Hx; cbn; rewrite Hy; cbn; by rewrite Hz.
Qed.

Lemma mips_encode_lui (L : gmap string Z) i a x y rt imm :
  Py.operands MIPS.lookahead a = [x; y] →
  MIPS.parse_reg x = Ok rt → Py.int0 y = Ok imm →
  MIPS.encode L i "lui" a = Ok (MIPS.i_word 0x0f 0 rt imm).
Proof.
  intros Ha Hx Hy. unfold MIPS.encode. rewrite Ha.
  cbn; rewrite Hx; cbn; by rewrite Hy.
Qed.

(** RISC-V, three registers: [op rd, rs1, rs2]. *)
Lemma riscv_encode_reg3 (L : gmap string Z) pc m f3 f7 a x y z rd rs1 rs2 :
  Py.dict_get RISCV.OPCODES m = Some (RISCV.R f3 f7) →
  Py.operands RISCV.lookahead a = [x; y; z] →
  RISCV.parse_reg x = Ok rd → RISCV.parse_reg y = Ok rs1 → RISCV.parse_reg z = Ok rs2 →
  RISCV.encode L pc m a = Ok (RISCV.r_word f7 rs2 rs1 f3 rd 0x33).
Proof.
  intros Hm Ha Hx Hy Hz. unfold RISCV.encode. rewrite Ha, Hm.
  cbn; rewrite Hx; cbn; rewrite Hy; cbn; by rewrite Hz.
Qed.

(** RISC-V, two registers and an immediate: [op rd, rs1, imm]. *)
Lemma riscv_encode_imm3 (L : gmap string Z) pc m o f3 a x y z rd rs1 imm :
  Py.dict_get RISCV.OPCODES m = Some (RISCV.F o f3) →
  o ∈ [0x13; 0x03; 0x67] →
  Py.operands RISCV.lookahead a = [x; y; z] →
  Py.contains "(" y = false →
  RISCV.parse_reg x = Ok rd → RISCV.parse_reg y = Ok rs1 → Py.int0 z = Ok imm →
  RISCV.encode L pc m a = Ok (RISCV.i_word imm rs1 f3 rd o).
Proof.
  intros Hm Ho Ha Hp Hx Hy Hz. unfold RISCV.encode. rewrite Ha, Hm.
  elem_cases Ho; cbn; rewrite Hp; cbn; rewrite Hx; cbn; rewrite Hy; cbn; by rewrite Hz.
Qed.

Lemma riscv_encode_upper (L : gmap string Z) pc m o a x y rd imm :
  Py.dict_get RISCV.OPCODES m = Some (RISCV.U o) →
  o ∈ [0x37; 0x17] →
  Py.operands RISCV.lookahead a = [x; y] →
  RISCV.parse_reg x = Ok rd → Py.int0 y = Ok imm →
  RISCV.encode L pc m a = Ok (RISCV.u_word imm rd o).
Proof.
  intros Hm Ho Ha Hx Hy. unfold RISCV.encode. rewrite Ha, Hm.
  elem_cases Ho; cbn; rewrite Hx; cbn; by rewrite Hy.
Qed.

(** ** Pseudo-instructions, from the statement to the words *)

Lemma int0_str z : Py.int0 (Py.str z) = Ok z.
Proof. unfold Py.int0. by rewrite int_literal_str. Qed.

Lemma mips_parse_reg_nonempty s r : MIPS.parse_reg s = Ok r → Py.is_empty s = false.
Proof. by destruct s. Qed.

Lemma riscv_parse_reg_nonempty s r : RISCV.parse_reg s = Ok r → Py.is_empty s = false.
Proof. by destruct s. Qed.

Lemma plain_no_comma s : plain s = true → Py.contains "," s = false.
Proof.
  induction s as [|c s IH]; [done|]. cbn [plain all_chars Py.contains]; unfold plain_char.
  intros [[[Hc _]%andb_prop _]%andb_prop Hs]%andb_prop. apply negb_true_iff in Hc.
  rewrite Ascii.eqb_sym, Hc. by apply IH.
Qed.

Lemma unpack_split1_plain rd v :
  plain rd = true → Py.unpack_split1 "," (rd +:+ String "," v) = Ok (rd, v).
Proof.
  intros H%plain_no_comma. unfold Py.unpack_split1. by rewrite split1_app.
Qed.

Lemma li_halves imm :
  (((imm ≫ 16) .& 0xFFFF) ≪ 16) .| (imm .& 0xFFFF) = imm mod 2 ^ 32.
Proof.
  rewrite <- Z.land_ones by lia. change 0xFFFF with (Z.ones 16). prove_Zeq_bitwise.
Qed.

Lemma sign_extend_fits n imm :
  0 < n → - 2 ^ (n - 1) ≤ imm < 2 ^ (n - 1) → sign_extend n (imm mod 2 ^ n) = imm.
Proof. intros Hn Himm. by apply sign_extend_mod. Qed.

(** X5: MIPS [li rd, v], with [rd] a register operand and [v] an integer
    literal [imm]: the statement is expanded and the instructions are
    encoded, at any position and with any label table, to [addi rd, $0,
    imm] when [imm] fits 16 signed bits, and otherwise to [lui rd, upper]
    followed, unless [lower] is zero, by [ori rd, rd, lower]. The
    immediate of the [addi] sign-extends to [imm]; the two halves of the
    [lui]/[ori] pair, put together, are [imm] modulo [2^32]. *)
Theorem mips_li_words (rd v : string) (r imm : Z) :
  plain rd = true → MIPS.parse_reg (Py.strip rd) = Ok r → 0 ≤ r < 32 →
  Py.int0 (Py.strip v) = Ok imm →
  let upper := (imm ≫ 16) .& 0xFFFF in
  let lower := imm .& 0xFFFF in
  let w_addi := MIPS.i_word 0x08 0 r imm in
  let w_lui := MIPS.i_word 0x0f 0 r upper in
  let w_ori := MIPS.i_word 0x0d r r lower in
  (∃ code, MIPS.expand "li" (rd +:+ String "," v) = Ok code
     ∧ ∀ (L : gmap string Z) i,
         MIPS.encode_from L i code
         = Ok (Py.format_08x <$>
                 (if (-32768 <=? imm) && (imm <=? 32767) then [w_addi]
                  else w_lui :: (if lower =? 0 then [] else [w_ori]))))
  ∧ (-32768 ≤ imm ≤ 32767 → sign_extend 16 (field w_addi 15 0) = imm)
  ∧ (field w_lui 15 0 ≪ 16) .| field w_ori 15 0 = imm mod 2 ^ 32
  ∧ (lower = 0 → field w_lui 15 0 ≪ 16 = imm mod 2 ^ 32).
Proof.
  intros Hrd Hr Hrange Himm upper lower w_addi w_lui w_ori.
  pose proof (mips_parse_reg_nonempty _ _ Hr) as Hne.
  assert (0 ≤ upper < 2 ^ 16 ∧ 0 ≤ lower < 2 ^ 16) as [Hu Hl].
  { unfold upper, lower. change 0xFFFF with (Z.ones 16). rewrite !Z.land_ones by lia.
    split; apply Z.mod_pos_bound; lia. }
  destruct (mips_i_fields 0x08 0 r imm) as (_ & _ & _ & Fa); [lia..|].
  destruct (mips_i_fields 0x0f 0 r upper) as (_ & _ & _ & Fu); [lia..|].
  destruct (mips_i_fields 0x0d r r lower) as (_ & _ & _ & Fo); [lia..|].
  cbv zeta in Fa, Fu, Fo. fold w_addi in Fa. fold w_lui in Fu. fold w_ori in Fo.
  rewrite Z.mod_small in Fu, Fo by done.
  assert (∀ b z, plain b = true → Py.is_empty (Py.strip b) = false →
            Py.operands MIPS.lookahead (rd +:+ ", " +:+ b +:+ ", " +:+ Py.str z)
            = [Py.strip rd; Py.strip b; Py.str z]) as Hops3.
  { intros b z Hb Hnb. etrans.
    - apply (operands_three _ rd b (Py.str z)); try done;
        [apply str_plain|apply str_nonempty_strip].
    - by rewrite (strip_str z). }
  assert (∀ z, Py.operands MIPS.lookahead (rd +:+ ", " +:+ Py.str z)
               = [Py.strip rd; Py.str z]) as Hops2.
  { intros z. etrans.
    - apply (operands_two _ rd (Py.str z)); try done;
        [apply str_plain|apply str_nonempty_strip].
    - by rewrite (strip_str z). }
  split; [|split; [|split]].
  - unfold MIPS.expand. cbn [String.eqb Ascii.eqb Bool.eqb].
    rewrite (unpack_split1_plain _ _ Hrd). cbn. rewrite Himm. cbn.
    destruct ((-32768 <=? imm) && (imm <=? 32767)).
    + eexists. split; [done|]. intros L i. cbn [MIPS.encode_from].
      rewrite (mips_encode_imm3 L i "addi" 0x08 _ (Py.strip rd) "$0" (Py.str imm) r 0 imm);
        [done|by repeat constructor|by apply (Hops3 "$0")|done|done|apply int0_str].
    + fold upper lower. destruct (lower =? 0) eqn:El; cbn [negb].
      * eexists. split; [done|]. intros L i. cbn [MIPS.encode_from].
        rewrite (mips_encode_lui L i _ (Py.strip rd) (Py.str upper) r upper);
          [done|apply Hops2|done|apply int0_str].
      * eexists. split; [done|]. intros L i. cbn [MIPS.encode_from].
        rewrite (mips_encode_lui L i _ (Py.strip rd) (Py.str upper) r upper);
          [|apply Hops2|done|apply int0_str].
        rewrite (mips_encode_imm3 L (S i) "ori" 0x0d _ (Py.strip rd) (Py.strip rd)
                   (Py.str lower) r r lower);
          [done|by repeat constructor|by apply Hops3|done|done|apply int0_str].
  - intros Hfit. rewrite Fa. apply sign_extend_fits; lia.
  - rewrite Fu, Fo. apply li_halves.
  - intros H0. rewrite Fu. rewrite <- (li_halves imm). fold upper lower.
    rewrite H0. by rewrite Z.lor_0_r.
Qed.

Lemma mips_li_words_witness :
  (∃ code, MIPS.expand "li" "$t0, 100000" = Ok code
     ∧ ∀ (L : gmap string Z) i, MIPS.encode_from L i code = Ok ["3c080001"; "350886a0"])
  ∧ (field 0x3c080001 15 0 ≪ 16) .| field 0x350886a0 15 0 = 100000 mod 2 ^ 32.
Proof.
  destruct (mips_li_words "$t0" " 100000" 8 100000) as (H1 & _ & H2 & _);
    [reflexivity|reflexivity|lia|reflexivity|].
  split; [exact H1|exact H2].
Defined.

Lemma riscv_li_halves imm :
  ((((imm + 0x800) ≫ 12) mod 2 ^ 20) ≪ 12 + sign_extend 12 (imm .& 0xFFF)) mod 2 ^ 32
  = imm mod 2 ^ 32.
Proof.
  change 0xFFF with (Z.ones 12). rewrite Z.land_ones, Z.shiftr_div_pow2, Z.shiftl_mul_pow2 by lia.
  unfold sign_extend. change (2 ^ (12 - 1)) with 2048. change (2 ^ 12) with 4096.
  change (2 ^ 20) with 1048576. change (2 ^ 32) with (1048576 * 4096).
  pose proof (Z.div_mod (imm + 2048) 4096 ltac:(lia)) as Hq.
  pose proof (Z.mod_pos_bound (imm + 2048) 4096 ltac:(lia)) as Ht.
  pose proof (Z.div_mod ((imm + 2048) / 4096) 1048576 ltac:(lia)) as Hu.
  set (q := (imm + 2048) / 4096) in *. set (t := (imm + 2048) mod 4096) in *.
  set (u := q mod 1048576) in *. set (k := q / 1048576) in *.
  assert (imm mod 4096 = if t <? 2048 then t + 2048 else t - 2048) as ->.
  { destruct (t <? 2048) eqn:E; [apply Z.ltb_lt in E|apply Z.ltb_ge in E].
    - symmetry. apply (Z.mod_unique_pos _ _ (q - 1)); lia.
    - symmetry. apply (Z.mod_unique_pos _ _ q); lia. }
  assert (u * 4096 + (if (if t <? 2048 then t + 2048 else t - 2048) <? 2048
                      then (if t <? 2048 then t + 2048 else t - 2048)
                      else (if t <? 2048 then t + 2048 else t - 2048) - 4096)
          = imm + (- k) * (1048576 * 4096)) as ->.
  { destruct (t <? 2048) eqn:E; [apply Z.ltb_lt in E|apply Z.ltb_ge in E].
    - destruct (t + 2048 <? 2048) eqn:E'; [apply Z.ltb_lt in E'|apply Z.ltb_ge in E']; lia.
    - destruct (t - 2048 <? 2048) eqn:E'; [apply Z.ltb_lt in E'|apply Z.ltb_ge in E']; lia. }
  apply Z_mod_plus_full.
Qed.

(** X6: RISC-V [li rd, v], with [rd] a register operand and [v] an integer
    literal [imm]: the statement is expanded and the two instructions are
    encoded, at any address and with any label table, to [lui rd, upper]
    and [addi rd, rd, lower]. The 20 bits the [lui] word carries, shifted
    into place, plus the sign-extended immediate of the [addi] word are
    [imm] modulo [2^32]. *)
Theorem riscv_li_words (rd v : string) (r imm : Z) :
  plain rd = true → RISCV.parse_reg (Py.strip rd) = Ok r → 0 ≤ r < 32 →
  Py.int0 (Py.strip v) = Ok imm →
  let upper := (imm + 0x800) ≫ 12 in
  let lower := imm .& 0xFFF in
  let w_lui := RISCV.u_word upper r 0x37 .& 0xFFFFFFFF in
  let w_addi := RISCV.i_word lower r 0 r 0x13 .& 0xFFFFFFFF in
  (∃ code, RISCV.expand "li" (rd +:+ String "," v) = Ok code
     ∧ ∀ (L : gmap string Z) pc,
         RISCV.pass2_from L pc code = Ok (Py.format_08x <$> [w_lui; w_addi]))
  ∧ (field w_lui 31 12 ≪ 12 + sign_extend 12 (field w_addi 31 20)) mod 2 ^ 32
    = imm mod 2 ^ 32.
Proof.
  intros Hrd Hr Hrange Himm upper lower w_lui w_addi.
  pose proof (riscv_parse_reg_nonempty _ _ Hr) as Hne.
  pose proof (plain_no_paren _ (plain_strip _ Hrd)) as Hparen.
  assert (0 ≤ lower < 2 ^ 12) as Hl.
  { unfold lower. change 0xFFF with (Z.ones 12). rewrite Z.land_ones by lia.
    apply Z.mod_pos_bound; lia. }
  destruct (riscv_u_fields upper r 0x37) as (Fu & _); [lia..|].
  destruct (riscv_i_fields lower r 0 r 0x13) as (Fa & _); [lia..|].
  cbv zeta in Fu, Fa. fold w_lui in Fu. fold w_addi in Fa.
  rewrite Z.mod_small in Fa by done.
  assert (∀ b z, plain b = true → Py.is_empty (Py.strip b) = false →
            Py.operands RISCV.lookahead (rd +:+ ", " +:+ b +:+ ", " +:+ Py.str z)
            = [Py.strip rd; Py.strip b; Py.str z]) as Hops3.
  { intros b z Hb Hnb. etrans.
    - apply (operands_three _ rd b (Py.str z)); try done;
        [apply str_plain|apply str_nonempty_strip].
    - by rewrite (strip_str z). }
  assert (∀ z, Py.operands RISCV.lookahead (rd +:+ ", " +:+ Py.str z)
               = [Py.strip rd; Py.str z]) as Hops2.
  { intros z. etrans.
    - apply (operands_two _ rd (Py.str z)); try done;
        [apply str_plain|apply str_nonempty_strip].
    - by rewrite (strip_str z). }
  split.
  - unfold RISCV.expand. cbn [String.eqb Ascii.eqb Bool.eqb].
    rewrite (unpack_split1_plain _ _ Hrd). cbn. rewrite Himm. cbn.
    eexists. split; [done|]. intros L pc. cbn [RISCV.pass2_from].
    fold upper lower.
    rewrite (riscv_encode_upper L pc "lui" 0x37 _ (Py.strip rd) (Py.str upper) r upper);
      [|done|by repeat constructor|apply Hops2|done|apply int0_str].
    rewrite (riscv_encode_imm3 L (pc + 4) "addi" 0x13 0 _ (Py.strip rd) (Py.strip rd)
               (Py.str lower) r r lower);
      [done|done|by repeat constructor|by apply Hops3|done|done|done|apply int0_str].
  - rewrite Fu, Fa. apply riscv_li_halves.
Qed.

Lemma riscv_li_words_witness :
  (∃ code, RISCV.expand "li" "t0, -2048" = Ok code
     ∧ ∀ (L : gmap string Z) pc, RISCV.pass2_from L pc code = Ok ["000002b7"; "80028293"])
  ∧ (field 0x000002b7 31 12 ≪ 12 + sign_extend 12 (field 0x80028293 31 20)) mod 2 ^ 32
    = -2048 mod 2 ^ 32.
Proof.
  destruct (riscv_li_words "t0" " -2048" 5 (-2048)) as (H1 & H2);
    [reflexivity|reflexivity|lia|reflexivity|].
  split; [exact H1|exact H2].
Defined.

(** X7: MIPS [nop], [mv rd, rs], [not rd, rs] and [neg rd, rs], with [rd]
    and [rs] register operands: each is expanded and encoded, at any
    position and with any label table, to one word: that of
    [addi $0, $0, 0], [addi rd, rs, 0], [nor rd, rs, $0] and
    [sub rd, $0, rs]. Whatever follows [nop] on its line is ignored. *)
Theorem mips_pseudo_words (rd rs : string) (d s : Z) :
  plain rd = true → plain rs = true →
  MIPS.parse_reg (Py.strip rd) = Ok d → MIPS.parse_reg (Py.strip rs) = Ok s →
  let assembles m a w :=
    ∃ code, MIPS.expand m a = Ok code
      ∧ ∀ (L : gmap string Z) i, MIPS.encode_from L i code = Ok [Py.format_08x w] in
  (∀ a, assembles "nop" a (MIPS.i_word 0x08 0 0 0))
  ∧ assembles "mv" (rd +:+ String "," rs) (MIPS.i_word 0x08 s d 0)
  ∧ assembles "not" (rd +:+ String "," rs) (MIPS.r_word 0 s 0 d 0 0x27)
  ∧ assembles "neg" (rd +:+ String "," rs) (MIPS.r_word 0 0 s d 0 0x22).
Proof.
  intros Hrd Hrs Hd Hs assembles. unfold assembles.
  pose proof (mips_parse_reg_nonempty _ _ Hd) as Hnd.
  pose proof (mips_parse_reg_nonempty _ _ Hs) as Hns.
  split; [|split; [|split]].
  - intros a. eexists. split; [reflexivity|]. intros L i. reflexivity.
  - unfold MIPS.expand. cbn [String.eqb Ascii.eqb Bool.eqb].
    rewrite (unpack_split1_plain _ _ Hrd). cbn.
    eexists. split; [done|]. intros L i. cbn [MIPS.encode_from].
    rewrite (mips_encode_imm3 L i "addi" 0x08 _ (Py.strip rd) (Py.strip rs) "0" d s 0);
      [done|by repeat constructor| |done|done|done].
    by apply (operands_three _ rd rs "0").
  - unfold MIPS.expand. cbn [String.eqb Ascii.eqb Bool.eqb].
    rewrite (unpack_split1_plain _ _ Hrd). cbn.
    eexists. split; [done|]. intros L i. cbn [MIPS.encode_from].
    rewrite (mips_encode_reg3 L i "nor" 0x27 _ (Py.strip rd) (Py.strip rs) "$0" d s 0);
      [done|by repeat constructor| |done|done|done].
    by apply (operands_three _ rd rs "$0").
  - unfold MIPS.expand. cbn [String.eqb Ascii.eqb Bool.eqb].
    rewrite (unpack_split1_plain _ _ Hrd). cbn.
    eexists. split; [done|]. intros L i. cbn [MIPS.encode_from].
    rewrite (mips_encode_reg3 L i "sub" 0x22 _ (Py.strip rd) "$0" (Py.strip rs) d 0 s);
      [done|by repeat constructor| |done|done|done].
    by apply (operands_three _ rd "$0" rs).
Qed.

Lemma mips_pseudo_words_witness :
  (∃ code, MIPS.expand "mv" "$t0, $t1" = Ok code
     ∧ ∀ (L : gmap string Z) i, MIPS.encode_from L i code = Ok ["21280000"])
  ∧ (∃ code, MIPS.expand "neg" "$t0, $t1" = Ok code
     ∧ ∀ (L : gmap string Z) i, MIPS.encode_from L i code = Ok ["00094022"]).
Proof.
  destruct (mips_pseudo_words "$t0" " $t1" 8 9) as (_ & H1 & _ & H2);
    [reflexivity..|].
  split; [exact H1|exact H2].
Defined.

Lemma riscv_encode_jal_to (L : gmap string Z) pc a x t rd tgt :
  Py.operands RISCV.lookahead a = [x; t] →
  RISCV.parse_reg x = Ok rd → resolve L t = Ok tgt →
  RISCV.encode L pc "jal" a = Ok (RISCV.j_word (tgt - pc) rd 0x6f).
Proof.
  intros Hops H0 Hres. unfold RISCV.encode. rewrite Hops. cbn -[resolve].
  rewrite H0. cbn -[resolve]. by rewrite Hres.
Qed.

(** X8: RISC-V [nop], [mv rd, rs], [not rd, rs], [neg rd, rs] and [j t], with
    [rd] and [rs] register operands: each is expanded and encoded, at any
    address, to one word: that of [addi x0, x0, 0], [addi rd, rs, 0],
    [xori rd, rs, -1], [sub rd, x0, rs] and, for a target [t] that
    resolves to [tgt] in the label table, [jal x0, t] with the offset
    [tgt - pc]. Whatever follows [nop] on its line is ignored. *)
Theorem riscv_pseudo_words (rd rs : string) (d s : Z) :
  plain rd = true → plain rs = true →
  RISCV.parse_reg (Py.strip rd) = Ok d → RISCV.parse_reg (Py.strip rs) = Ok s →
  let assembles (L : gmap string Z) pc m a w :=
    ∃ code, RISCV.expand m a = Ok code
      ∧ RISCV.pass2_from L pc code = Ok [Py.format_08x (w .& 0xFFFFFFFF)] in
  ∀ (L : gmap string Z) pc,
    (∀ a, assembles L pc "nop" a (RISCV.i_word 0 0 0 0 0x13))
    ∧ assembles L pc "mv" (rd +:+ String "," rs) (RISCV.i_word 0 s 0 d 0x13)
    ∧ assembles L pc "not" (rd +:+ String "," rs) (RISCV.i_word (-1) s 4 d 0x13)
    ∧ assembles L pc "neg" (rd +:+ String "," rs) (RISCV.r_word 0x20 s 0 0 d 0x33)
    ∧ (∀ t tgt, plain t = true → Py.is_empty (Py.strip t) = false →
         resolve L (Py.strip t) = Ok tgt →
         assembles L pc "j" t (RISCV.j_word (tgt - pc) 0 0x6f)).
Proof.
  intros Hrd Hrs Hd Hs assembles L pc. unfold assembles.
  pose proof (riscv_parse_reg_nonempty _ _ Hd) as Hnd.
  pose proof (riscv_parse_reg_nonempty _ _ Hs) as Hns.
  pose proof (plain_no_paren _ (plain_strip _ Hrs)) as Hparen.
  split; [|split; [|split; [|split]]].
  - intros a. eexists. split; [reflexivity|]. reflexivity.
  - unfold RISCV.expand. cbn [String.eqb Ascii.eqb Bool.eqb].
    rewrite (unpack_split1_plain _ _ Hrd). cbn.
    eexists. split; [done|]. cbn [RISCV.pass2_from].
    rewrite (riscv_encode_imm3 L pc "addi" 0x13 0 _ (Py.strip rd) (Py.strip rs) "0" d s 0);
      [done|done|by repeat constructor| |done|done|done|done].
    by apply (operands_three _ rd rs "0").
  - unfold RISCV.expand. cbn [String.eqb Ascii.eqb Bool.eqb].
    rewrite (unpack_split1_plain _ _ Hrd). cbn.
    eexists. split; [done|]. cbn [RISCV.pass2_from].
    rewrite (riscv_encode_imm3 L pc "xori" 0x13 4 _ (Py.strip rd) (Py.strip rs) "-1" d s (-1));
      [done|done|by repeat constructor| |done|done|done|done].
    by apply (operands_three _ rd rs "-1").
  - unfold RISCV.expand. cbn [String.eqb Ascii.eqb Bool.eqb].
    rewrite (unpack_split1_plain _ _ Hrd). cbn.
    eexists. split; [done|]. cbn [RISCV.pass2_from].
    rewrite (riscv_encode_reg3 L pc "sub" 0 0x20 _ (Py.strip rd) "x0" (Py.strip rs) d 0 s);
      [done|done| |done|done|done].
    by apply (operands_three _ rd "x0" rs).
  - intros t tgt Ht Hnt Hres. eexists. split; [reflexivity|]. cbn [RISCV.pass2_from].
    rewrite (riscv_encode_jal_to L pc _ "x0" (Py.strip t) 0 tgt);
      [done| |done|done].
    by apply (operands_two _ "x0" t).
Qed.

Lemma riscv_pseudo_words_witness :
  (∃ code, RISCV.expand "not" "a0, a1" = Ok code
     ∧ RISCV.pass2_from {["end" := 24]} 8 code = Ok ["fff5c513"])
  ∧ (∃ code, RISCV.expand "j" "end" = Ok code
     ∧ RISCV.pass2_from {["end" := 24]} 8 code = Ok ["0100006f"]).
Proof.
  destruct (riscv_pseudo_words "a0" " a1" 10 11 eq_refl eq_refl eq_refl eq_refl
              {["end" := 24]} 8) as (_ & _ & H1 & _ & H2).
  split; [exact H1|].
  exact (H2 "end" 24 eq_refl eq_refl eq_refl).
Defined.

(** ** Whole files *)

Lemma source_lines_norm f :
  RISCV.source_lines f = filter (λ n, Py.is_empty n = false) (norm <$> f).
Proof. reflexivity. Qed.

Lemma mips_preprocess_source_lines f :
  MIPS.preprocess f
  = mips_state <$> scan MIPS.expand 1 ([], ∅) (RISCV.source_lines f).
Proof. by rewrite mips_preprocess, source_lines_norm, scan_filter_blank. Qed.

(** X9: Comments, the white space around a line and blank lines do not
    matter: two files whose lines, cut at [#] and stripped, are the same
    once the empty ones are dropped, are assembled to the same result,
    words or exception, by either assembler. *)
Theorem layout_does_not_matter (f1 f2 : list string) :
  RISCV.source_lines f1 = RISCV.source_lines f2 →
  MIPS.assemble f1 = MIPS.assemble f2 ∧ RISCV.assemble f1 = RISCV.assemble f2.
Proof.
  intros H. split.
  - unfold MIPS.assemble.
    by rewrite (mips_preprocess_source_lines f1), (mips_preprocess_source_lines f2), H.
  - unfold RISCV.assemble. by rewrite H.
Qed.

Lemma layout_does_not_matter_witness :
  MIPS.assemble ["# sum"; ""; "  addi $t0, $0, 5   # five"; "loop: j loop"]
  = MIPS.assemble ["addi $t0, $0, 5"; "loop: j loop"]
  ∧ RISCV.assemble ["# sum"; ""; "  addi $t0, $0, 5   # five"; "loop: j loop"]
    = RISCV.assemble ["addi $t0, $0, 5"; "loop: j loop"].
Proof.
  apply layout_does_not_matter. reflexivity.
Defined.

(** ** The exceptions that can be raised *)

Lemma arg_raise args k e : arg args k = Raise e → e = IndexError.
Proof. unfold arg. destruct (args !! k); cbn; congruence. Qed.

Lemma resolve_raise (L : gmap string Z) t e : resolve L t = Raise e → e = ValueError.
Proof. unfold resolve. destruct (L !! t); [done|]. apply int0_raise. Qed.

Lemma or_raise_raise {A} x (o : option A) e : or_raise x o = Raise e → e = x.
Proof. destruct o; cbn; congruence. Qed.

Lemma unpack_offset_base_raise a e :
  RISCV.unpack_offset_base a = Raise e → e = ValueError.
Proof.
  unfold RISCV.unpack_offset_base.
  destruct (Py.split "(" a) as [|? [|? [|? ?]]]; congruence.
Qed.

Ltac raise_class E :=
  first
    [ apply mips_parse_reg_raise in E
    | apply riscv_parse_reg_raise in E
    | apply int0_raise in E
    | apply resolve_raise in E
    | apply arg_raise in E
    | apply unpack_offset_base_raise in E
    | apply or_raise_raise in E ];
  subst.

Ltac raise_cases :=
  repeat first
    [ discriminate
    | match goal with
      | |- context [if ?b then _ else _] => destruct b; cbn [mbind result_bind]
      | |- (match ?r with Ok _ => _ | Raise _ => _ end) = Raise _ → _ =>
          let E := fresh "E" in
          destruct r as [?|?] eqn:E;
          [|intros [= <-]; raise_class E; by repeat constructor]
      | |- context [match ?p with pair _ _ => _ end] =>
          is_var p; destruct p; cbn [mbind result_bind]
      | |- (match ?o with Some _ => _ | None => _ end) = Raise _ → _ => destruct o
      | |- (mbind _ (mbind _ ?r)) = Raise _ → _ =>
          let E := fresh "E" in
          destruct r as [?|?] eqn:E; cbn [mbind result_bind];
          [|intros [= <-]; raise_class E; by repeat constructor]
      | |- (mbind _ ?r) = Raise _ → _ =>
          let E := fresh "E" in
          destruct r as [?|?] eqn:E; cbn [mbind result_bind];
          [|intros [= <-]; raise_class E; by repeat constructor]
      end ].

Lemma mips_encode_raise (L : gmap string Z) i m a e :
  MIPS.encode L i m a = Raise e → e ∈ [ValueError; IndexError; AttributeError].
Proof.
  unfold MIPS.encode. generalize (Py.operands MIPS.lookahead a). intros args.
  destruct (Py.dict_get MIPS.R_TYPE m).
  - abstract_tests m. generalize (length args). intros ?. raise_cases.
  - destruct (Py.mem m ["j"; "jal"]) eqn:Ej.
    + unfold Py.mem in Ej. cbn [existsb] in Ej. rewrite orb_false_r in Ej.
      apply orb_prop in Ej as [->%String.eqb_eq| ->%String.eqb_eq]; cbn -[resolve];
        raise_cases.
    + abstract_tests m. raise_cases.
Qed.

Lemma riscv_encode_raise (L : gmap string Z) pc m a e :
  RISCV.encode L pc m a = Raise e →
  match Py.dict_get RISCV.OPCODES m with
  | None => e = KeyError
  | Some _ => e ∈ [ValueError; IndexError]
  end.
Proof.
  unfold RISCV.encode. generalize (Py.operands RISCV.lookahead a). intros args.
  destruct (Py.dict_get RISCV.OPCODES m) as [inf|] eqn:H; [|cbn; congruence].
  apply dict_get_elem in H. unfold RISCV.OPCODES in H.
  table_cases H; cbn -[resolve]; raise_cases.
Qed.

Lemma riscv_pass2_from_raised (L : gmap string Z) pc code e :
  RISCV.pass2_from L pc code = Raise e →
  ∃ k m a, code !! k = Some (m, a) ∧ RISCV.encode L (pc + 4 * Z.of_nat k) m a = Raise e.
Proof.
  revert pc. induction code as [|[m a] code IH]; intros pc; cbn; [done|].
  destruct (RISCV.encode L pc m a) as [w|e'] eqn:Hw; cbn.
  - destruct (RISCV.pass2_from L (pc + 4) code) as [out|e'] eqn:Hout; cbn; [done|].
    intros [= <-]. destruct (IH _ Hout) as (k & m' & a' & Hk & He).
    exists (S k), m', a'. split; [done|]. rewrite <- He. f_equal. lia.
  - intros [= <-]. exists 0%nat, m, a. split; [done|]. rewrite <- Hw. f_equal. lia.
Qed.

(** X10: The exceptions an instruction can raise. MIPS: a [ValueError] (a
    register or number that cannot be read), an [IndexError] (a missing
    operand) or an [AttributeError] (a memory operand that is not
    [offset($reg)]), never a [KeyError]; a failing first pass leaves
    [assemble] with a [ValueError], a failing instruction with
    [SystemExit(1)]. RISC-V: a [KeyError] exactly for a mnemonic that is
    not in [OPCODES], otherwise a [ValueError] or an [IndexError]; these
    three are all [assemble] can raise. *)
Theorem exceptions_raised :
  (∀ (L : gmap string Z) i m a e,
     MIPS.encode L i m a = Raise e → e ∈ [ValueError; IndexError; AttributeError])
  ∧ (∀ lines e, MIPS.assemble lines = Raise e →
       (e = ValueError ∧ MIPS.preprocess lines = Raise ValueError)
       ∨ (e = SystemExit 1 ∧ is_ok (MIPS.preprocess lines) = true))
  ∧ (∀ (L : gmap string Z) pc m a e,
       RISCV.encode L pc m a = Raise e →
       (e = KeyError ↔ Py.dict_get RISCV.OPCODES m = None)
       ∧ e ∈ [ValueError; KeyError; IndexError])
  ∧ (∀ f e, RISCV.assemble f = Raise e → e ∈ [ValueError; KeyError; IndexError]).
Proof.
  split; [|split; [|split]].
  - apply mips_encode_raise.
  - intros lines e. unfold MIPS.assemble.
    destruct (MIPS.preprocess lines) as [st|e'] eqn:Hst; cbn.
    + destruct (MIPS.encode_from _ _ _); [done|]. intros [= <-]. by right.
    + intros [= <-]. left. rewrite mips_preprocess in Hst.
      destruct (scan _ _ _ _) as [s|e''] eqn:Hs; [done|]. cbn in Hst.
      injection Hst as <-. by rewrite (scan_raise _ _ _ _ _ mips_expand_raise Hs).
  - intros L pc m a e He. apply riscv_encode_raise in He.
    destruct (Py.dict_get RISCV.OPCODES m).
    + split; [|by elem_cases He; repeat constructor].
      split; [|done]. intros ->. elem_eqs He; discriminate.
    + subst e. split; [done|by repeat constructor].
  - intros f e. unfold RISCV.assemble. rewrite riscv_pass1.
    destruct (scan _ _ _ _) as [s|e'] eqn:Hs; cbn.
    + intros (k & m & a & _ & He%riscv_encode_raise)%riscv_pass2_from_raised.
      destruct (Py.dict_get RISCV.OPCODES m).
      * by elem_cases He; repeat constructor.
      * subst e. by repeat constructor.
    + intros [= <-]. rewrite (scan_raise _ _ _ _ _ riscv_expand_raise Hs).
      by repeat constructor.
Qed.

Lemma exceptions_raised_witness :
  ((KeyError = KeyError ↔ Py.dict_get RISCV.OPCODES "mul" = None)
   ∧ KeyError ∈ [ValueError; KeyError; IndexError])
  ∧ ((SystemExit 1 = ValueError ∧ MIPS.preprocess ["add $t0"] = Raise ValueError)
     ∨ (SystemExit 1 = SystemExit 1 ∧ is_ok (MIPS.preprocess ["add $t0"]) = true)).
Proof.
  destruct exceptions_raised as (_ & H2 & H3 & _). split.
  - exact (H3 ∅ 0 "mul" "x1, x2, x3" KeyError eq_refl).
  - exact (H2 ["add $t0"] (SystemExit 1) eq_refl).
Defined.

(** ** Bit fields *)

Lemma get_bits_ones val high low :
  RISCV.get_bits val high low = (val ≫ low) .& Z.ones (high - low + 1).
Proof. unfold RISCV.get_bits. cbv zeta. by rewrite Z.sub_1_r. Qed.

Lemma get_bits_testbit val high low i :
  0 ≤ low ≤ high → 0 ≤ i →
  Z.testbit (RISCV.get_bits val high low) i
  = Z.testbit val (i + low) && (i <=? high - low).
Proof.
  intros H Hi. rewrite get_bits_ones, Z.land_spec, Z.shiftr_spec by lia.
  f_equal. destruct (i <=? high - low) eqn:E.
  - apply Z.leb_le in E. apply Z.ones_spec_low. lia.
  - apply Z.leb_gt in E. apply Z.ones_spec_high. lia.
Qed.

(** X11: [get_bits val high low], for [0 <= low <= high], is the number made of
    bits [high..low] of [val]: [val] divided by [2^low], modulo
    [2^(high - low + 1)], so a number of [high - low + 1] bits whatever
    the sign of [val]. Only the bits of [val] up to [high] matter, and a
    field is its upper part above a cut [mid], shifted, joined to its
    lower part. *)
Theorem get_bits_field (val high low : Z) :
  0 ≤ low ≤ high →
  RISCV.get_bits val high low = (val / 2 ^ low) mod 2 ^ (high - low + 1)
  ∧ 0 ≤ RISCV.get_bits val high low < 2 ^ (high - low + 1)
  ∧ RISCV.get_bits (val mod 2 ^ (high + 1)) high low = RISCV.get_bits val high low
  ∧ (∀ mid, low < mid ≤ high →
       RISCV.get_bits val high low
       = (RISCV.get_bits val high mid ≪ (mid - low)) .| RISCV.get_bits val (mid - 1) low).
Proof.
  intros H.
  assert (RISCV.get_bits val high low = (val / 2 ^ low) mod 2 ^ (high - low + 1)) as Hdiv.
  { by rewrite get_bits_ones, Z.land_ones, Z.shiftr_div_pow2 by lia. }
  split; [done|]. split; [|split].
  - rewrite Hdiv. apply Z.mod_pos_bound. apply Z.pow_pos_nonneg; lia.
  - apply Z.bits_inj'. intros i Hi. rewrite !get_bits_testbit by lia.
    destruct (i <=? high - low) eqn:E; [|by rewrite !andb_false_r].
    apply Z.leb_le in E. rewrite !andb_true_r.
    rewrite <- Z.land_ones by lia. rewrite Z.land_spec, Z.ones_spec_low by lia.
    by rewrite andb_true_r.
  - intros mid Hmid. apply Z.bits_inj'. intros i Hi.
    rewrite Z.lor_spec, Z.shiftl_spec by lia.
    rewrite (get_bits_testbit val high low), (get_bits_testbit val (mid - 1) low) by lia.
    destruct (Z.ltb_spec i (mid - low)) as [Hlt|Hge].
    + rewrite (Z.testbit_neg_r _ (i - (mid - low))) by lia. cbn [orb].
      f_equal. apply eq_true_iff_eq. rewrite !Z.leb_le. lia.
    + rewrite get_bits_testbit by lia.
      replace (i - (mid - low) + mid) with (i + low) by lia.
      assert ((i <=? mid - 1 - low) = false) as -> by (apply Z.leb_gt; lia).
      rewrite andb_false_r, orb_false_r. f_equal.
      apply eq_true_iff_eq. rewrite !Z.leb_le. lia.
Qed.

Lemma get_bits_field_witness :
  RISCV.get_bits (-8) 12 1 = (-8 / 2 ^ 1) mod 2 ^ (12 - 1 + 1)
  ∧ 0 ≤ RISCV.get_bits (-8) 12 1 < 2 ^ (12 - 1 + 1)
  ∧ RISCV.get_bits (-8) 12 1
    = (RISCV.get_bits (-8) 12 5 ≪ (5 - 1)) .| RISCV.get_bits (-8) (5 - 1) 1.
Proof.
  destruct (get_bits_field (-8) 12 1) as (H1 & H2 & _ & H3); [lia|].
  split; [exact H1|]. split; [exact H2|]. apply (H3 5). lia.
Defined.

(** ** Memory operands *)

Lemma contains_app c a b : Py.contains c (a +:+ b) = Py.contains c a || Py.contains c b.
Proof.
  induction a as [|d a IH]; [done|]. rewrite append_cons. cbn [Py.contains].
  by rewrite IH, orb_assoc.
Qed.

Lemma split_app c a rest :
  Py.contains c a = false → Py.split c (a +:+ String c rest) = a :: Py.split c rest.
Proof.
  induction a as [|d a IH].
  - intros _. rewrite append_nil_l. cbn [Py.split]. by rewrite Ascii.eqb_refl.
  - cbn [Py.contains]. intros [Hd Ha]%orb_false_elim. rewrite append_cons.
    cbn [Py.split]. by rewrite Hd, (IH Ha).
Qed.

Lemma plain_chars s :
  plain s = true →
  Py.contains "," s = false ∧ Py.contains "(" s = false ∧ Py.contains ")" s = false.
Proof.
  induction s as [|c s IH]; [done|]. cbn [plain all_chars Py.contains]; unfold plain_char.
  intros [[[H1 H2]%andb_prop H3]%andb_prop Hs]%andb_prop.
  apply negb_true_iff in H1, H2, H3. destruct (IH Hs) as (? & ? & ?).
  rewrite (Ascii.eqb_sym "," c), (Ascii.eqb_sym "(" c), (Ascii.eqb_sym ")" c).
  by rewrite H1, H2, H3.
Qed.

Lemma remove_not_contained c s : Py.contains c s = false → Py.remove c s = s.
Proof.
  induction s as [|d s IH]; [done|]. cbn [Py.contains Py.remove].
  intros [Hd Hs]%orb_false_elim. by rewrite Hd, (IH Hs).
Qed.

Lemma remove_app c a b : Py.remove c (a +:+ b) = Py.remove c a +:+ Py.remove c b.
Proof.
  induction a as [|d a IH]; [done|]. rewrite append_cons. cbn [Py.remove].
  destruct (Ascii.eqb c d); [done|]. by rewrite append_cons, IH.
Qed.

(** The memory operand [o(b)] of the RISC-V assembler. *)
Lemma riscv_offset_base o b :
  plain o = true → plain b = true →
  Py.contains "(" (o +:+ "(" +:+ b +:+ ")") = true
  ∧ RISCV.unpack_offset_base (o +:+ "(" +:+ b +:+ ")") = Ok (o, b +:+ ")")
  ∧ Py.remove ")" (b +:+ ")") = b.
Proof.
  intros (_ & Ho & _)%plain_chars (_ & Hb & Hb')%plain_chars. split; [|split].
  - rewrite contains_app. cbn. by rewrite orb_true_r.
  - unfold RISCV.unpack_offset_base.
    change (o +:+ "(" +:+ b +:+ ")") with (o +:+ String "(" (b +:+ ")")).
    rewrite (split_app _ _ _ Ho), split_no_sep; [done|].
    rewrite contains_app, Hb. done.
  - rewrite remove_app, (remove_not_contained _ _ Hb'). cbn. apply append_nil_r.
Qed.

(** X12: RISC-V memory operands. An instruction of the immediate format (the
    ALU immediates, the loads and [jalr]) takes [rd, o(b)] and
    [rd, b, o] alike, and encodes both to the same word; a store takes
    only [rs2, o(b)], and fails on three operands with a [ValueError]. The
    offset [o] is any integer literal. *)
Theorem riscv_memory_operands (L : gmap string Z) (pc : Z) (m a x o b : string)
    (inf : RISCV.info) (r rs1 imm : Z) :
  Py.dict_get RISCV.OPCODES m = Some inf →
  plain o = true → plain b = true →
  RISCV.parse_reg x = Ok r → RISCV.parse_reg b = Ok rs1 → Py.int0 o = Ok imm →
  (RISCV.op inf ∈ [0x13; 0x03; 0x67] →
     (Py.operands RISCV.lookahead a = [x; o +:+ "(" +:+ b +:+ ")"] →
      RISCV.encode L pc m a
      = Ok (RISCV.i_word imm rs1 (default 0 (RISCV.f3 inf)) r (RISCV.op inf)))
     ∧ (Py.operands RISCV.lookahead a = [x; b; o] →
        RISCV.encode L pc m a
        = Ok (RISCV.i_word imm rs1 (default 0 (RISCV.f3 inf)) r (RISCV.op inf))))
  ∧ (RISCV.op inf = 0x23 →
     (Py.operands RISCV.lookahead a = [x; o +:+ "(" +:+ b +:+ ")"] →
      RISCV.encode L pc m a
      = Ok (RISCV.s_word imm r rs1 (default 0 (RISCV.f3 inf)) 0x23))
     ∧ (Py.operands RISCV.lookahead a = [x; b; o] →
        RISCV.encode L pc m a = Raise ValueError)).
Proof.
  intros Hm Ho Hb Hx Hrb Himm.
  destruct (riscv_offset_base o b Ho Hb) as (Hc & Hu & Hr).
  destruct (plain_chars _ Hb) as (_ & Hbp & _).
  apply dict_get_elem in Hm as Hin. unfold RISCV.OPCODES in Hin.
  split.
  - intros Hop. split; intros Ha; unfold RISCV.encode; rewrite Ha, Hm.
    + table_cases Hin; try (exfalso; elem_eqs Hop; discriminate);
        cbn; rewrite Hc; cbn; rewrite Hx; cbn; rewrite Hu; cbn; rewrite Himm; cbn;
        rewrite Hr, Hrb; reflexivity.
    + table_cases Hin; try (exfalso; elem_eqs Hop; discriminate);
        cbn; rewrite Hbp; cbn; rewrite Hx; cbn; rewrite Hrb; cbn; rewrite Himm;
        reflexivity.
  - intros Hop. split; intros Ha; unfold RISCV.encode; rewrite Ha, Hm.
    + table_cases Hin; try discriminate Hop;
        cbn; rewrite Hx; cbn; rewrite Hu; cbn; rewrite Himm; cbn;
        rewrite Hr, Hrb; reflexivity.
    + table_cases Hin; try discriminate Hop;
        cbn; rewrite Hx; cbn; unfold RISCV.unpack_offset_base;
        rewrite (split_no_sep _ _ Hbp); reflexivity.
Qed.

Lemma riscv_memory_operands_witness :
  RISCV.encode ∅ 0 "lw" "a0, 0x10(sp)" = Ok (RISCV.i_word 16 2 2 10 0x03)
  ∧ RISCV.encode ∅ 0 "lw" "a0, sp, 0x10" = Ok (RISCV.i_word 16 2 2 10 0x03)
  ∧ RISCV.encode ∅ 0 "sw" "a0, 0x10(sp)" = Ok (RISCV.s_word 16 10 2 2 0x23)
  ∧ RISCV.encode ∅ 0 "sw" "a0, sp, 0x10" = Raise ValueError.
Proof.
  pose proof (λ m a inf H, riscv_memory_operands ∅ 0 m a "a0" "0x10" "sp" inf 10 2 16
                H eq_refl eq_refl eq_refl eq_refl eq_refl) as H.
  destruct (H "lw" "a0, 0x10(sp)" _ eq_refl) as [H1 _].
  destruct (H "lw" "a0, sp, 0x10" _ eq_refl) as [H2 _].
  destruct (H "sw" "a0, 0x10(sp)" _ eq_refl) as [_ H3].
  destruct (H "sw" "a0, sp, 0x10" _ eq_refl) as [_ H4].
  destruct H1 as [H1 _]; [vm_compute; by repeat constructor|].
  destruct H2 as [_ H2]; [vm_compute; by repeat constructor|].
  destruct H3 as [H3 _]; [reflexivity|].
  destruct H4 as [_ H4]; [reflexivity|].
  split; [|split; [|split]].
  - apply H1. reflexivity.
  - apply H2. reflexivity.
  - apply H3. reflexivity.
  - apply H4. reflexivity.
Defined.

Lemma span_app p a c rest :
  all_chars p a = true → p c = false →
  MIPS.span p (a +:+ String c rest) = (a, String c rest).
Proof.
  intros Ha Hc. induction a as [|d a IH].
  - rewrite append_nil_l. cbn [MIPS.span]. by rewrite Hc.
  - cbn [all_chars] in Ha. apply andb_prop in Ha as [Hd Ha].
    rewrite append_cons. cbn [MIPS.span]. by rewrite Hd, (IH Ha).
Qed.

Lemma span_suffix p c s a b :
  MIPS.span p s = (a, b) → Py.contains c b = true → Py.contains c s = true.
Proof.
  revert a b. induction s as [|d s IH]; intros a b; cbn [MIPS.span].
  - by intros [= <- <-].
  - destruct (p d).
    + destruct (MIPS.span p s) as [a' b'] eqn:E. intros [= <- <-] Hb.
      cbn [Py.contains]. by rewrite (IH _ _ eq_refl Hb), orb_true_r.
    + by intros [= <- <-].
Qed.

Lemma string_of_uint_digits d :
  all_chars MIPS.is_digit (DecimalString.NilEmpty.string_of_uint d) = true.
Proof. induction d; cbn; [done|..]; exact IHd. Qed.

(** A printed number is an optional minus sign and a non-empty run of
    digits. *)
Lemma str_sign_digits z :
  ∃ sign digits,
    Py.str z = sign +:+ digits ∧ (sign = "" ∨ sign = "-")
    ∧ all_chars MIPS.is_digit digits = true ∧ Py.is_empty digits = false
    ∧ (0 ≤ z → sign = "").
Proof.
  destruct z as [|p|p].
  - exists "", "0". repeat split; (done || by left).
  - exists "", (DecimalString.NilEmpty.string_of_uint (Pos.to_uint p)).
    rewrite str_pos. split; [done|]. split; [by left|].
    split; [apply string_of_uint_digits|]. split; [|done].
    pose proof (DecimalPos.Unsigned.to_uint_nonnil p). by destruct (Pos.to_uint p).
  - exists "-", (DecimalString.NilEmpty.string_of_uint (Pos.to_uint p)).
    rewrite str_neg. split; [done|]. split; [by right|].
    split; [apply string_of_uint_digits|]. split; [|lia].
    pose proof (DecimalPos.Unsigned.to_uint_nonnil p). by destruct (Pos.to_uint p).
Qed.

Lemma match_offset_base_here off name rest :
  all_chars MIPS.is_word name = true → Py.is_empty name = false →
  MIPS.match_offset_base (Py.str off +:+ String "(" (String "$" (name +:+ String ")" rest)))
  = Some (Py.str off, String "$" name).
Proof.
  intros Hw Hn. set (T := String "(" (String "$" (name +:+ String ")" rest))).
  destruct (str_sign_digits off) as (sign & digits & -> & Hs & Hd & Hne & _).
  assert (MIPS.span MIPS.is_digit (digits +:+ T) = (digits, T)) as Hspan
    by (by apply span_app).
  assert (MIPS.span MIPS.is_word (name +:+ String ")" rest) = (name, String ")" rest))
    as Hname by (by apply span_app).
  unfold MIPS.match_offset_base. destruct Hs as [-> | ->].
  - rewrite !append_nil_l.
    destruct digits as [|c digits']; [done|].
    assert ((match String c digits' +:+ T with
             | String "-"%char t => ("-", t)
             | _ => ("", String c digits' +:+ T)
             end) = ("", String c digits' +:+ T)) as ->.
    { cbn [all_chars] in Hd. apply andb_prop in Hd as [Hc _]. rewrite append_cons.
      destruct c as [[] [] [] [] [] [] [] []]; done. }
    rewrite Hspan, Hne. unfold T. by rewrite Hname, Hn.
  - rewrite append_assoc, append_cons, append_nil_l. cbv beta iota.
    rewrite Hspan, Hne. unfold T. by rewrite Hname, Hn.
Qed.

Lemma search_offset_base_here s g :
  MIPS.match_offset_base s = Some g → MIPS.search_offset_base s = Some g.
Proof. intros H. destruct s; cbn [MIPS.search_offset_base]; by rewrite H. Qed.

Lemma sign_split s :
  ∃ sign s1,
    (match s with String "-"%char t => ("-", t) | _ => ("", s) end) = (sign, s1)
    ∧ (Py.contains "$" s1 = true → Py.contains "$" s = true).
Proof.
  destruct s as [|c t]; [by exists "", ""|].
  destruct (Ascii.eqb_spec c "-") as [->|Hc].
  - exists "-", t. split; [done|]. cbn [Py.contains]. intros ->. apply orb_true_r.
  - exists "", (String c t). split; [|done].
    destruct c as [[] [] [] [] [] [] [] []]; done.
Qed.

Lemma paren_dollar_match {A} s2 (f : string → option A) g :
  (match s2 with
   | String "("%char (String "$"%char s3) => f s3
   | _ => None
   end) = Some g →
  ∃ s3, s2 = String "(" (String "$" s3).
Proof.
  destruct s2 as [|c1 [|c2 s3]];
    [done|destruct c1 as [[] [] [] [] [] [] [] []]; done|].
  destruct c1 as [[] [] [] [] [] [] [] []]; try done.
  destruct c2 as [[] [] [] [] [] [] [] []]; try done. eauto.
Qed.

Lemma match_offset_base_dollar s g :
  MIPS.match_offset_base s = Some g → Py.contains "$" s = true.
Proof.
  unfold MIPS.match_offset_base.
  destruct (sign_split s) as (sign & s1 & -> & Hs).
  destruct (MIPS.span MIPS.is_digit s1) as [digits s2] eqn:E.
  destruct (Py.is_empty digits); [done|].
  intros [s3 ->]%paren_dollar_match. apply Hs.
  eapply span_suffix; [exact E|]. reflexivity.
Qed.

Lemma search_offset_base_dollar s :
  Py.contains "$" s = false → MIPS.search_offset_base s = None.
Proof.
  induction s as [|c s IH]; intros Hs.
  - reflexivity.
  - cbn [MIPS.search_offset_base].
    destruct (MIPS.match_offset_base (String c s)) eqn:E.
    + apply match_offset_base_dollar in E. congruence.
    + apply IH. cbn [Py.contains] in Hs. by apply orb_false_elim in Hs as [_ ?].
Qed.

Lemma search_offset_base_hex off name rest :
  0 ≤ off → all_chars MIPS.is_word name = true → Py.is_empty name = false →
  MIPS.search_offset_base
    (String "0" (String "x" (Py.str off +:+ String "(" (String "$" (name +:+ String ")" rest)))))
  = Some (Py.str off, String "$" name).
Proof.
  intros Hoff Hw Hn.
  pose proof (match_offset_base_here off name rest Hw Hn) as Hm.
  destruct (str_sign_digits off) as (sign & digits & Hstr & _ & Hd & Hne & Hsign).
  rewrite (Hsign Hoff), append_nil_l in Hstr.
  set (T := Py.str off +:+ String "(" (String "$" (name +:+ String ")" rest))) in *.
  assert (MIPS.match_offset_base (String "0" (String "x" T)) = None) as H0 by reflexivity.
  assert (MIPS.match_offset_base (String "x" T) = None) as H1 by reflexivity.
  cbn [MIPS.search_offset_base]. rewrite H0, H1.
  by apply search_offset_base_here.
Qed.

(** X13: MIPS memory operands. A load or store takes [rt] and an operand in
    which [offset($base)] is searched: a decimal offset, with its sign,
    and a base register written with its dollar sign. An operand without
    a dollar sign is an [AttributeError]. The search starts anywhere, so
    in [0x..] only the digits after the [x] are found, and they are read
    in base ten. *)
Theorem mips_memory_operands (L : gmap string Z) (i : nat) (m a x name : string)
    (opcode rt rs off : Z) :
  (m, opcode) ∈ [("lb", 0x20); ("lh", 0x21); ("lw", 0x23);
                 ("sb", 0x28); ("sh", 0x29); ("sw", 0x2b)] →
  MIPS.parse_reg x = Ok rt →
  all_chars MIPS.is_word name = true → MIPS.parse_reg ("$" +:+ name) = Ok rs →
  (Py.operands MIPS.lookahead a = [x; Py.str off +:+ "($" +:+ name +:+ ")"] →
   MIPS.encode L i m a = Ok (MIPS.i_word opcode rs rt off))
  ∧ (0 ≤ off →
     Py.operands MIPS.lookahead a = [x; "0x" +:+ Py.str off +:+ "($" +:+ name +:+ ")"] →
     MIPS.encode L i m a = Ok (MIPS.i_word opcode rs rt off))
  ∧ (∀ y, Py.contains "$" y = false → Py.operands MIPS.lookahead a = [x; y] →
     MIPS.encode L i m a = Raise AttributeError).
Proof.
  intros Hm Hx Hw Hrs.
  assert (Py.is_empty name = false) as Hn.
  { destruct name; [|done]. discriminate Hrs. }
  pose proof (search_offset_base_here _ _ (match_offset_base_here off name "" Hw Hn)) as H1.
  split; [|split].
  - intros Ha. unfold MIPS.encode. rewrite Ha.
    table_cases Hm; cbn -[MIPS.search_offset_base]; rewrite Hx;
      cbn -[MIPS.search_offset_base];
      change (Py.str off +:+ "($" +:+ name +:+ ")")
        with (Py.str off +:+ String "(" (String "$" (name +:+ ")")));
      rewrite H1; cbn; rewrite int0_str; cbn;
      change (String "$" name) with ("$" +:+ name); rewrite Hrs; reflexivity.
  - intros Hoff Ha. unfold MIPS.encode. rewrite Ha.
    pose proof (search_offset_base_hex off name "" Hoff Hw Hn) as H2.
    table_cases Hm; cbn -[MIPS.search_offset_base]; rewrite Hx;
      cbn -[MIPS.search_offset_base];
      change ("0x" +:+ Py.str off +:+ "($" +:+ name +:+ ")")
        with (String "0" (String "x" (Py.str off +:+ String "(" (String "$" (name +:+ ")")))));
      rewrite H2; cbn; rewrite int0_str; cbn;
      change (String "$" name) with ("$" +:+ name); rewrite Hrs; reflexivity.
  - intros y Hy Ha. unfold MIPS.encode. rewrite Ha.
    pose proof (search_offset_base_dollar y Hy) as H3.
    table_cases Hm; cbn -[MIPS.search_offset_base]; rewrite Hx;
      cbn -[MIPS.search_offset_base]; rewrite H3; reflexivity.
Qed.

Lemma mips_memory_operands_witness :
  MIPS.encode ∅ 0 "lw" "$t0, -4($sp)" = Ok (MIPS.i_word 0x23 29 8 (-4))
  ∧ MIPS.encode ∅ 0 "lw" "$t0, 0x10($sp)" = Ok (MIPS.i_word 0x23 29 8 10)
  ∧ MIPS.encode ∅ 0 "lw" "$t0, 4(sp)" = Raise AttributeError.
Proof.
  split; [|split].
  - destruct (mips_memory_operands ∅ 0 "lw" "$t0, -4($sp)" "$t0" "sp" 0x23 8 29 (-4))
      as (H & _); [by repeat constructor|reflexivity..|].
    apply H. reflexivity.
  - destruct (mips_memory_operands ∅ 0 "lw" "$t0, 0x10($sp)" "$t0" "sp" 0x23 8 29 10)
      as (_ & H & _); [by repeat constructor|reflexivity..|].
    apply H; [lia|reflexivity].
  - destruct (mips_memory_operands ∅ 0 "lw" "$t0, 4(sp)" "$t0" "sp" 0x23 8 29 0)
      as (_ & _ & H); [by repeat constructor|reflexivity..|].
    apply (H "4(sp)"); reflexivity.
Defined.

(** ** Register instructions, from the operand text to the fields *)

Lemma int0_nonempty s z : Py.int0 s = Ok z → Py.is_empty s = false.
Proof. by destruct s. Qed.

(** X14: MIPS register format, from the operand text [x, y, z] to the fields of
    the word. The three-register instructions take [rd, rs, rt]; the
    shifts take [rd, rt, sa], with [rs] zero; [jr] takes [rs] alone. With
    the registers and the shift amount in range, each operand is read
    back from its field, whatever the position and the label table. *)
Theorem mips_register_format (L : gmap string Z) (i : nat) (x y z : string)
    (r1 r2 r3 : Z) :
  plain x = true → plain y = true → plain z = true →
  MIPS.parse_reg (Py.strip x) = Ok r1 → MIPS.parse_reg (Py.strip y) = Ok r2 →
  0 ≤ r1 < 32 → 0 ≤ r2 < 32 → 0 ≤ r3 < 32 →
  (∀ m funct,
     (m, funct) ∈ [("add", 0x20); ("sub", 0x22); ("and", 0x24); ("or", 0x25);
                   ("xor", 0x26); ("nor", 0x27); ("slt", 0x2a)] →
     MIPS.parse_reg (Py.strip z) = Ok r3 →
     ∃ w, MIPS.encode L i m (x +:+ ", " +:+ y +:+ ", " +:+ z) = Ok w
       ∧ field w 31 26 = 0 ∧ field w 25 21 = r2 ∧ field w 20 16 = r3
       ∧ field w 15 11 = r1 ∧ field w 10 6 = 0 ∧ field w 5 0 = funct)
  ∧ (∀ m funct,
       (m, funct) ∈ [("sll", 0x00); ("srl", 0x02); ("sra", 0x03)] →
       Py.int0 (Py.strip z) = Ok r3 →
       ∃ w, MIPS.encode L i m (x +:+ ", " +:+ y +:+ ", " +:+ z) = Ok w
         ∧ field w 31 26 = 0 ∧ field w 25 21 = 0 ∧ field w 20 16 = r2
         ∧ field w 15 11 = r1 ∧ field w 10 6 = r3 ∧ field w 5 0 = funct)
  ∧ (∃ w, MIPS.encode L i "jr" x = Ok w
       ∧ field w 31 26 = 0 ∧ field w 25 21 = r1 ∧ field w 20 16 = 0
       ∧ field w 15 11 = 0 ∧ field w 10 6 = 0 ∧ field w 5 0 = 0x08).
Proof.
  intros Hx Hy Hz H1 H2 B1 B2 B3.
  pose proof (mips_parse_reg_nonempty _ _ H1) as N1.
  pose proof (mips_parse_reg_nonempty _ _ H2) as N2.
  split; [|split].
  - intros m funct Hm H3. pose proof (mips_parse_reg_nonempty _ _ H3) as N3.
    exists (MIPS.r_word 0 r2 r3 r1 0 funct). split.
    + apply (mips_encode_reg3 L i m funct _ (Py.strip x) (Py.strip y) (Py.strip z));
        try done. by apply operands_three.
    + assert (0 ≤ funct < 64) by (table_cases Hm; lia).
      by apply (mips_r_fields 0 r2 r3 r1 0 funct).
  - intros m funct Hm H3. pose proof (int0_nonempty _ _ H3) as N3.
    exists (MIPS.r_word 0 0 r2 r1 r3 funct). split.
    + unfold MIPS.encode. rewrite (operands_three _ x y z) by done.
      table_cases Hm; cbn; rewrite H1; cbn; rewrite H2; cbn; by rewrite H3.
    + assert (0 ≤ funct < 64) by (table_cases Hm; lia).
      by apply (mips_r_fields 0 0 r2 r1 r3 funct).
  - exists (MIPS.r_word 0 r1 0 0 0 0x08). split.
    + unfold MIPS.encode. unfold Py.operands.
      rewrite (re_split_plain_end _ "" x Hx). cbn [fmap list_fmap].
      rewrite append_nil_l, filter_cons_True by done. cbn. by rewrite H1.
    + by apply (mips_r_fields 0 r1 0 0 0 0x08).
Qed.

Lemma mips_register_format_witness :
  (∃ w, MIPS.encode ∅ 0 "sub" "$t0, $t1, $t2" = Ok w
     ∧ field w 31 26 = 0 ∧ field w 25 21 = 9 ∧ field w 20 16 = 10
     ∧ field w 15 11 = 8 ∧ field w 10 6 = 0 ∧ field w 5 0 = 0x22)
  ∧ (∃ w, MIPS.encode ∅ 0 "jr" "$t0" = Ok w
     ∧ field w 31 26 = 0 ∧ field w 25 21 = 8 ∧ field w 20 16 = 0
     ∧ field w 15 11 = 0 ∧ field w 10 6 = 0 ∧ field w 5 0 = 0x08).
Proof.
  destruct (mips_register_format ∅ 0 "$t0" "$t1" "$t2" 8 9 10) as (H1 & _ & H2);
    [reflexivity..|lia|lia|lia|].
  split; [|exact H2].
  apply (H1 "sub" 0x22); [by repeat constructor|reflexivity].
Defined.

(** X15: RISC-V register format, from the operand text [rd, rs1, rs2] to the
    fields of the 32-bit word: with the registers in range, each operand
    is read back from its field, and the function codes are those of the
    mnemonic's entry in [OPCODES], whatever the address and the label
    table. *)
Theorem riscv_register_format (L : gmap string Z) (pc : Z) (m x y z : string)
    (f3 f7 rd rs1 rs2 : Z) :
  Py.dict_get RISCV.OPCODES m = Some (RISCV.R f3 f7) →
  plain x = true → plain y = true → plain z = true →
  RISCV.parse_reg (Py.strip x) = Ok rd → RISCV.parse_reg (Py.strip y) = Ok rs1 →
  RISCV.parse_reg (Py.strip z) = Ok rs2 →
  0 ≤ rd < 32 → 0 ≤ rs1 < 32 → 0 ≤ rs2 < 32 →
  ∃ w, RISCV.pass2_from L pc [(m, x +:+ ", " +:+ y +:+ ", " +:+ z)]
       = Ok [Py.format_08x w]
    ∧ field w 31 25 = f7 ∧ field w 24 20 = rs2 ∧ field w 19 15 = rs1
    ∧ field w 14 12 = f3 ∧ field w 11 7 = rd ∧ field w 6 0 = 0x33.
Proof.
  intros Hm Hx Hy Hz H1 H2 H3 B1 B2 B3.
  pose proof (riscv_parse_reg_nonempty _ _ H1) as N1.
  pose proof (riscv_parse_reg_nonempty _ _ H2) as N2.
  pose proof (riscv_parse_reg_nonempty _ _ H3) as N3.
  exists (RISCV.r_word f7 rs2 rs1 f3 rd 0x33 .& 0xFFFFFFFF). split.
  - cbn [RISCV.pass2_from].
    rewrite (riscv_encode_reg3 L pc m f3 f7 _ (Py.strip x) (Py.strip y) (Py.strip z) rd rs1 rs2);
      try done. by apply operands_three.
  - destruct (riscv_opcodes_range _ _ Hm) as (_ & Hf3 & Hf7). cbn in Hf3, Hf7.
    by apply (riscv_r_fields f7 rs2 rs1 f3 rd 0x33).
Qed.

Lemma riscv_register_format_witness :
  ∃ w, RISCV.pass2_from ∅ 0 [("sub", "a0, a1, a2")] = Ok [Py.format_08x w]
    ∧ field w 31 25 = 0x20 ∧ field w 24 20 = 12 ∧ field w 19 15 = 11
    ∧ field w 14 12 = 0 ∧ field w 11 7 = 10 ∧ field w 6 0 = 0x33.
Proof.
  apply (riscv_register_format ∅ 0 "sub" "a0" "a1" "a2" 0 0x20 10 11 12);
    (reflexivity || lia).
Defined.

(** ** The output file *)

Lemma scan_no_statements expand unit s ns :
  Forall (λ n, statement_text n = "") ns →
  ∃ L, scan expand unit s ns = Ok (s.1, L).
Proof.
  intros H. revert s. induction H as [|n ns Hn _ IH]; intros s.
  - exists s.2. by destruct s.
  - cbn [scan]. rewrite (scan_line_no_statement expand unit s n Hn). cbn.
    apply (IH (_, _)).
Qed.

(** X16: A file without a statement (blank lines, comments and labels only,
    or no line at all) is assembled to no word, and the file written is
    the header alone: the vector is empty and has no closing [;]. *)
Theorem empty_program (f : list string) :
  Forall (λ l, statement_text (norm l) = "") f →
  MIPS.assemble f = Ok [] ∧ RISCV.assemble f = Ok []
  ∧ MIPS.main (Some f)
    = {| exit_status := 0;
         written := Some ("; MIPS Instructions Generated by Python Assembler" +:+ newline
                          +:+ "memory_initialization_radix=16;" +:+ newline
                          +:+ "memory_initialization_vector=" +:+ newline) |}
  ∧ RISCV.main (Some f)
    = {| exit_status := 0;
         written := Some ("memory_initialization_radix=16;" +:+ newline
                          +:+ "memory_initialization_vector=" +:+ newline) |}.
Proof.
  intros H0.
  assert (Forall (λ n, statement_text n = "") (norm <$> f)) as H.
  { induction H0; constructor; done. }
  assert (MIPS.assemble f = Ok []) as HM.
  { unfold MIPS.assemble. rewrite mips_preprocess.
    destruct (scan_no_statements MIPS.expand 1 ([], ∅) _ H) as [L ->]. done. }
  assert (RISCV.assemble f = Ok []) as HR.
  { unfold RISCV.assemble. rewrite riscv_pass1.
    destruct (scan_no_statements RISCV.expand 4 ([], ∅) _ H) as [L ->]. done. }
  split; [done|]. split; [done|]. split.
  - unfold MIPS.main. by rewrite HM.
  - unfold RISCV.main. cbn [or_raise mbind result_bind]. by rewrite HR.
Qed.

Lemma empty_program_witness :
  MIPS.assemble ["# nothing"; ""; "start:"; "  end:  # here"] = Ok []
  ∧ RISCV.assemble ["# nothing"; ""; "start:"; "  end:  # here"] = Ok [].
Proof.
  destruct (empty_program ["# nothing"; ""; "start:"; "  end:  # here"]) as (H1 & H2 & _).
  - repeat constructor.
  - split; [exact H1|exact H2].
Defined.

Lemma mips_coe_body_snoc hs h :
  MIPS.coe_body (hs ++ [h])
  = String.concat "" ((λ x, x +:+ "," +:+ newline) <$> hs) +:+ h +:+ ";" +:+ newline.
Proof.
  induction hs as [|x hs IH]; [done|].
  cbn [app fmap list_fmap]. 
  assert (MIPS.coe_body (x :: hs ++ [h]) = x +:+ "," +:+ newline +:+ MIPS.coe_body (hs ++ [h])) as ->.
  { by destruct hs. }
  rewrite IH. destruct hs as [|y hs]; cbn [fmap list_fmap String.concat].
  - by rewrite !append_assoc.
  - by rewrite !append_assoc.
Qed.

Lemma riscv_coe_body_snoc hs h :
  RISCV.coe_body (hs ++ [h])
  = String.concat "" ((λ x, x +:+ "," +:+ newline) <$> hs) +:+ h +:+ ";".
Proof.
  induction hs as [|x hs IH]; [done|].
  cbn [app fmap list_fmap]. 
  assert (RISCV.coe_body (x :: hs ++ [h]) = x +:+ "," +:+ newline +:+ RISCV.coe_body (hs ++ [h])) as ->.
  { by destruct hs. }
  rewrite IH. destruct hs as [|y hs]; cbn [fmap list_fmap String.concat].
  - by rewrite !append_assoc.
  - by rewrite !append_assoc.
Qed.

(** X17: The vector of the output file, for at least one word: every word but
    the last is followed by a comma and a line end, the last by a
    semicolon, after which the MIPS file has a line end and the RISC-V
    file has none; before it comes the header, which is all there is for
    no word. *)
Theorem coe_vector_layout (hs : list string) (h : string) :
  MIPS.write_coe (hs ++ [h])
  = MIPS.write_coe []
    +:+ String.concat "" ((λ x, x +:+ "," +:+ newline) <$> hs) +:+ h +:+ ";" +:+ newline
  ∧ RISCV.write_coe (hs ++ [h])
    = RISCV.write_coe []
      +:+ String.concat "" ((λ x, x +:+ "," +:+ newline) <$> hs) +:+ h +:+ ";".
Proof.
  unfold MIPS.write_coe, RISCV.write_coe.
  rewrite mips_coe_body_snoc, riscv_coe_body_snoc. cbn [MIPS.coe_body RISCV.coe_body].
  by rewrite !append_assoc, !append_nil_l.
Qed.

(** ** Labels stay inside the program *)




(** ** Register numbers are not checked *)

Lemma mips_parse_reg_dollar_str z : MIPS.parse_reg (String "$" (Py.str z)) = Ok z.
Proof. exact (mips_parse_reg_str z). Qed.

Lemma operands_one la a :
  plain a = true → Py.is_empty (Py.strip a) = false →
  Py.operands la a = [Py.strip a].
Proof.
  intros Ha Hn. unfold Py.operands. rewrite (re_split_plain_end _ "" a Ha).
  cbn [fmap list_fmap]. by rewrite append_nil_l, filter_cons_True by done.
Qed.

Lemma str_operand c z :
  plain_char c = true → Py.is_space c = false →
  plain (String c (Py.str z)) = true
  ∧ Py.strip (String c (Py.str z)) = String c (Py.str z).
Proof.
  intros Hc Hs. split.
  - cbn [plain all_chars]. rewrite Hc. apply str_plain.
  - apply strip_no_space. cbn [all_chars]. rewrite Hs. apply str_no_space.
Qed.

(** X19: A register number is used as it is read, in range or not. MIPS
    [jr $n]: every bit of [n] is in the word from bit 21 up, and the word
    is not cut to 32 bits, so it is negative for a negative [n]. RISC-V
    [add xn, x0, x0]: the word is cut to 32 bits, whose bits 31..7 hold
    [n] modulo [2^25], the bits above the five of [rd] running into the
    fields that follow. *)
Theorem register_numbers_unchecked (n : Z) :
  (∀ (L : gmap string Z) i,
     ∃ w, MIPS.encode_from L i [("jr", "$" +:+ Py.str n)] = Ok [Py.format_08x w]
       ∧ w ≫ 21 = n ∧ (n < 0 → w < 0))
  ∧ (∀ (L : gmap string Z) pc,
       ∃ w, RISCV.pass2_from L pc [("add", "x" +:+ Py.str n +:+ ", x0, x0")]
            = Ok [Py.format_08x w]
         ∧ 0 ≤ w < 2 ^ 32 ∧ field w 31 7 = n mod 2 ^ 25 ∧ field w 6 0 = 0x33).
Proof.
  split.
  - intros L i. exists (MIPS.r_word 0 n 0 0 0 0x08).
    destruct (str_operand "$" n eq_refl eq_refl) as [Hp Hs].
    split; [|split].
    + cbn [MIPS.encode_from]. unfold MIPS.encode.
      change ("$" +:+ Py.str n) with (String "$" (Py.str n)).
      rewrite (operands_one _ _ Hp) by (by rewrite Hs). rewrite Hs. cbn.
      rewrite mips_parse_reg_dollar_str. reflexivity.
    + unfold MIPS.r_word. change 8 with (Z.ones 1 ≪ 3). prove_Zeq_bitwise.
    + intros Hn. unfold MIPS.r_word. rewrite !Z.shiftl_0_l, !Z.lor_0_r, Z.lor_0_l.
      apply Z.lor_neg. left. by apply Z.shiftl_neg.
  - intros L pc. exists (RISCV.r_word 0 0 0 0 n 0x33 .& 0xFFFFFFFF).
    destruct (str_operand "x" n eq_refl eq_refl) as [Hp Hs].
    split; [|split; [|split]].
    + cbn [RISCV.pass2_from].
      change ("x" +:+ Py.str n +:+ ", x0, x0")
        with (String "x" (Py.str n) +:+ ", " +:+ "x0" +:+ ", " +:+ "x0").
      rewrite (riscv_encode_reg3 L pc "add" 0 0 _ (String "x" (Py.str n)) "x0" "x0" n 0 0);
        [done|done| |apply riscv_parse_reg_x|done|done].
      rewrite <- Hs at 2. apply operands_three; try done. by rewrite Hs.
    + change 0xFFFFFFFF with (Z.ones 32). rewrite Z.land_ones by lia.
      apply Z.mod_pos_bound. lia.
    + rewrite <- Z.land_ones by lia. unfold field, RISCV.r_word.
      change (31 - 7 + 1) with 25. change 0xFFFFFFFF with (Z.ones 32).
      change 0x33 with (Z.ones 2 .| (Z.ones 2 ≪ 4)). prove_Zeq_bitwise.
    + unfold field, RISCV.r_word. change (6 - 0 + 1) with 7.
      change 0xFFFFFFFF with (Z.ones 32). change 0x33 with (Z.ones 2 .| (Z.ones 2 ≪ 4)).
      prove_Zeq_bitwise.
Qed.

Lemma register_numbers_unchecked_witness :
  ∃ w, MIPS.encode_from ∅ 0 [("jr", "$-1")] = Ok [Py.format_08x w]
    ∧ w ≫ 21 = -1 ∧ w < 0.
Proof.
  destruct (proj1 (register_numbers_unchecked (-1)) ∅ 0%nat) as (w & H1 & H2 & H3).
  exists w. split; [exact H1|]. split; [exact H2|]. apply H3. lia.
Defined.

(** ** Reading the printed words back *)














(** ** Two's complement bit strings *)

Lemma scan_bin_step acc n c k s :
  Py.digit_val c = Some k → k < 2 → c ≠ "_"%char →
  Py.scan_digits 2 false acc n (String c s)
  = Py.scan_digits 2 false (acc * 2 + k) (S n) s.
Proof.
  intros Hd Hk Hc. cbn [Py.scan_digits].
  rewrite (proj2 (Ascii.eqb_neq _ _) Hc), Hd. by rewrite (proj2 (Z.ltb_lt _ _) Hk).
Qed.

Lemma scan_bin_digits p acc n rest :
  Py.scan_digits 2 false acc n (Py.bin_digits p rest)
  = Py.scan_digits 2 false (acc * 2 ^ Z.of_nat (Pos.size_nat p) + Zpos p)
      (n + Pos.size_nat p) rest.
Proof.
  revert acc n rest. induction p as [q IH|q IH|]; intros acc n rest;
    cbn [Py.bin_digits Pos.size_nat].
  - rewrite IH, (scan_bin_step _ _ "1" 1) by done.
    rewrite Nat2Z.inj_succ, Z.pow_succ_r, Nat.add_succ_r by lia. f_equal. lia.
  - rewrite IH, (scan_bin_step _ _ "0" 0) by done.
    rewrite Nat2Z.inj_succ, Z.pow_succ_r, Nat.add_succ_r by lia. f_equal. lia.
  - rewrite (scan_bin_step _ _ "1" 1) by done. by rewrite Nat.add_1_r.
Qed.

Lemma bin_digits_length p rest :
  String.length (Py.bin_digits p rest) = (Pos.size_nat p + String.length rest)%nat.
Proof.
  revert rest. induction p as [q IH|q IH|]; intros rest; cbn [Py.bin_digits Pos.size_nat];
    [rewrite IH; cbn; lia..|done].
Qed.

Lemma size_nat_lower p : 2 ^ Z.of_nat (Pos.size_nat p) ≤ 2 * Zpos p.
Proof.
  induction p as [q IH|q IH|]; cbn [Pos.size_nat];
    [rewrite Nat2Z.inj_succ, Z.pow_succ_r by lia; lia..|done].
Qed.

Lemma size_nat_bound p k : 0 ≤ k → Zpos p < 2 ^ k → (Pos.size_nat p ≤ Z.to_nat k)%nat.
Proof.
  intros Hk Hp. pose proof (size_nat_lower p) as Hl.
  destruct (le_lt_dec (Pos.size_nat p) (Z.to_nat k)) as [|Hbig]; [done|].
  assert (2 ^ (k + 1) ≤ 2 ^ Z.of_nat (Pos.size_nat p)) by (apply Z.pow_le_mono_r; lia).
  rewrite Z.pow_add_r in * by lia. lia.
Qed.

Lemma scan_bin_zeros k n s :
  Py.scan_digits 2 false 0 n (Py.zeros k +:+ s) = Py.scan_digits 2 false 0 (n + k) s.
Proof.
  revert n. induction k as [|k IH]; intros n.
  - by rewrite Nat.add_0_r.
  - cbn [Py.zeros]. rewrite append_cons.
    rewrite (scan_bin_step 0 n "0" 0) by done. change (0 * 2 + 0) with 0.
    rewrite IH. by rewrite Nat.add_succ_r.
Qed.

Lemma zeros_length k : String.length (Py.zeros k) = k.
Proof. induction k; cbn; [done|]. by rewrite IHk. Qed.

Lemma append_length a b :
  String.length (a +:+ b) = (String.length a + String.length b)%nat.
Proof.
  induction a as [|c a IH]; [done|]. rewrite append_cons. cbn. by rewrite IH.
Qed.

Lemma format_0b_reads_back width z :
  0 < width → 0 ≤ z < 2 ^ width →
  String.length (Py.format_0b width z) = Z.to_nat width
  ∧ Py.scan_digits 2 false 0 0 (Py.format_0b width z) = Some (z, Z.to_nat width, "").
Proof.
  intros Hwidth Hz. unfold Py.format_0b.
  assert ((z <? 0) = false) as -> by (apply Z.ltb_ge; lia).
  destruct z as [|p|p]; [| |lia]; cbn [Z.abs_N].
  - rewrite append_length, zeros_length, scan_bin_zeros.
    rewrite (scan_bin_step 0 _ "0" 0) by done. cbn [String.length Py.scan_digits].
    split; [lia|]. do 3 f_equal. lia.
  - pose proof (size_nat_bound p width ltac:(lia) ltac:(lia)) as Hlen.
    rewrite append_length, zeros_length, scan_bin_zeros, scan_bin_digits.
    rewrite bin_digits_length. cbn [String.length Py.scan_digits].
    split; [lia|]. do 3 f_equal; lia.
Qed.

(** X21: [to_twos_complement val bits], for a positive [bits], is a string of
    exactly [bits] binary digits whose value is [val] modulo [2^bits]:
    [val] itself when it is between [0] and [2^bits], and the two's
    complement pattern that sign-extends to [val] when [val] fits [bits]
    signed bits. Higher bits are dropped without notice; a negative
    [bits] is a [ValueError]. *)
Theorem twos_complement_bits (val bits : Z) :
  (bits < 0 → MIPS.to_twos_complement val bits = Raise ValueError)
  ∧ (0 < bits →
     ∃ s, MIPS.to_twos_complement val bits = Ok s
       ∧ String.length s = Z.to_nat bits
       ∧ Py.scan_digits 2 false 0 0 s = Some (val mod 2 ^ bits, Z.to_nat bits, "")
       ∧ (- 2 ^ (bits - 1) ≤ val < 2 ^ (bits - 1) →
          sign_extend bits (val mod 2 ^ bits) = val)).
Proof.
  split.
  - intros Hb. unfold MIPS.to_twos_complement.
    by rewrite (proj2 (Z.ltb_lt _ _) Hb).
  - intros Hb. unfold MIPS.to_twos_complement.
    rewrite (proj2 (Z.ltb_ge _ _)) by lia. eexists. split; [reflexivity|].
    rewrite Z.sub_1_r. change (Z.pred (1 ≪ bits)) with (Z.ones bits).
    rewrite Z.land_ones by lia.
    assert ((if val <? 0 then (1 ≪ bits) + val else val) mod 2 ^ bits
            = val mod 2 ^ bits) as ->.
    { destruct (val <? 0); [|done].
      rewrite Z.shiftl_1_l, Z.add_comm. rewrite <- (Z.mul_1_l (2 ^ bits)) at 1.
      apply Z_mod_plus_full. }
    assert (0 ≤ val mod 2 ^ bits < 2 ^ bits) as Hm
      by (apply Z.mod_pos_bound, Z.pow_pos_nonneg; lia).
    destruct (format_0b_reads_back bits _ Hb Hm) as [Hlen Hscan].
    split; [done|]. split; [done|]. intros Hfit. by apply sign_extend_mod.
Qed.

Lemma twos_complement_bits_witness :
  MIPS.to_twos_complement 5 (-3) = Raise ValueError
  ∧ ∃ s, MIPS.to_twos_complement (-3) 8 = Ok s
      ∧ String.length s = Z.to_nat 8
      ∧ Py.scan_digits 2 false 0 0 s = Some (-3 mod 2 ^ 8, Z.to_nat 8, "")
      ∧ sign_extend 8 (-3 mod 2 ^ 8) = -3.
Proof.
  split.
  - apply (proj1 (twos_complement_bits 5 (-3))). lia.
  - destruct (proj2 (twos_complement_bits (-3) 8)) as (s & H1 & H2 & H3 & H4); [lia|].
    exists s. split; [exact H1|]. split; [exact H2|]. split; [exact H3|].
    apply H4. lia.
Defined.

(** ** Numeric targets *)

Lemma mips_encode_same_resolve (L1 L2 : gmap string Z) k m a p t :
  mips_target_operand m = Some p →
  Py.operands MIPS.lookahead a !! p = Some t →
  resolve L1 t = resolve L2 t →
  MIPS.encode L1 k m a = MIPS.encode L2 k m a.
Proof.
  intros Hm Ht Hres.
  unfold MIPS.encode. generalize dependent (Py.operands MIPS.lookahead a). intros args Ht.
  destruct (mips_target_cases m p Hm) as [[-> ->]|[[-> ->]|[[-> ->]|[[-> ->]|[-> ->]]]]];
    cbn -[resolve].
  - unfold arg. rewrite Ht. cbn -[resolve]. by rewrite Hres.
  - unfold arg. rewrite Ht. cbn -[resolve]. by rewrite Hres.
  - destruct args as [|a0 [|a1 [|a2 rest]]]; try discriminate. injection Ht as ->.
    cbn -[resolve]. destruct (MIPS.parse_reg a0); [|done].
    cbn -[resolve]. destruct (MIPS.parse_reg a1); [|done].
    cbn -[resolve]. by rewrite Hres.
  - destruct args as [|a0 [|a1 rest]]; try discriminate. injection Ht as ->.
    cbn -[resolve]. destruct (MIPS.parse_reg a0); [|done].
    cbn -[resolve]. by rewrite Hres.
  - destruct args as [|a0 [|a1 rest]]; try discriminate. injection Ht as ->.
    cbn -[resolve]. destruct (MIPS.parse_reg a0); [|done].
    cbn -[resolve]. by rewrite Hres.
Qed.

Lemma riscv_encode_same_resolve (L1 L2 : gmap string Z) pc m a p t :
  riscv_target_operand m = Some p →
  Py.operands RISCV.lookahead a !! p = Some t →
  resolve L1 t = resolve L2 t →
  RISCV.encode L1 pc m a = RISCV.encode L2 pc m a.
Proof.
  intros Hm Ht Hres.
  unfold RISCV.encode. generalize dependent (Py.operands RISCV.lookahead a). intros args Ht.
  destruct (riscv_target_cases m p Hm) as [[Hb ->]|[-> ->]].
  - destruct args as [|a0 [|a1 [|a2 rest]]]; try discriminate. injection Ht as ->.
    elem_cases Hb; cbn -[resolve];
      (destruct (RISCV.parse_reg a0); [|done]); cbn -[resolve];
      (destruct (RISCV.parse_reg a1); [|done]); cbn -[resolve]; by rewrite Hres.
  - destruct args as [|a0 [|a1 rest]]; try discriminate. injection Ht as ->.
    cbn -[resolve]. destruct (RISCV.parse_reg a0); [|done]. cbn -[resolve].
    by rewrite Hres.
Qed.

(** X22: A branch or jump target that is not a label but an integer literal
    [n] is taken as the absolute position [n], an instruction index for
    MIPS and an address for RISC-V, not as an offset: the instruction is
    encoded as it would be with a label bound to [n]. A label of that
    name, when there is one, takes precedence over the number. *)
Theorem numeric_targets_absolute (L : gmap string Z) (m a t : string) (p : nat) (n : Z) :
  (mips_target_operand m = Some p →
   Py.operands MIPS.lookahead a !! p = Some t →
   (L !! t = None → Py.int0 t = Ok n →
    ∀ k, MIPS.encode L k m a = MIPS.encode (<[t := n]> L) k m a)
   ∧ (∀ v, L !! t = Some v →
      ∀ k, MIPS.encode L k m a = MIPS.encode {[t := v]} k m a))
  ∧ (riscv_target_operand m = Some p →
     Py.operands RISCV.lookahead a !! p = Some t →
     (L !! t = None → Py.int0 t = Ok n →
      ∀ pc, RISCV.encode L pc m a = RISCV.encode (<[t := n]> L) pc m a)
     ∧ (∀ v, L !! t = Some v →
        ∀ pc, RISCV.encode L pc m a = RISCV.encode {[t := v]} pc m a)).
Proof.
  assert (L !! t = None → Py.int0 t = Ok n → resolve L t = resolve (<[t := n]> L) t) as Hnum.
  { intros HL Hn. unfold resolve. by rewrite HL, lookup_insert_eq. }
  assert (∀ v, L !! t = Some v → resolve L t = resolve {[t := v]} t) as Hlab.
  { intros v HL. unfold resolve. by rewrite HL, lookup_singleton_eq. }
  split; intros Hm Ht; split.
  - intros HL Hn k. by apply (mips_encode_same_resolve _ _ _ _ _ p t), Hnum.
  - intros v HL k. by apply (mips_encode_same_resolve _ _ _ _ _ p t), Hlab.
  - intros HL Hn pc. by apply (riscv_encode_same_resolve _ _ _ _ _ p t), Hnum.
  - intros v HL pc. by apply (riscv_encode_same_resolve _ _ _ _ _ p t), Hlab.
Qed.

Lemma numeric_targets_absolute_witness :
  MIPS.encode ∅ 5 "beq" "$t0, $t1, 8" = MIPS.encode {["8" := 8]} 5 "beq" "$t0, $t1, 8"
  ∧ RISCV.encode {["8" := 40; "end" := 64]} 12 "jal" "ra, 8"
    = RISCV.encode {["8" := 40]} 12 "jal" "ra, 8".
Proof.
  split.
  - destruct (proj1 (numeric_targets_absolute ∅ "beq" "$t0, $t1, 8" "8" 2 8))
      as [H _]; [reflexivity..|].
    apply (H eq_refl eq_refl 5%nat).
  - destruct (proj2 (numeric_targets_absolute {["8" := 40; "end" := 64]}
                       "jal" "ra, 8" "8" 1 0))
      as [_ H]; [reflexivity..|].
    apply (H 40 eq_refl 12).
Defined.

(** ** Mnemonics *)

Lemma all_chars_app p a b :
  all_chars p (a +:+ b) = all_chars p a && all_chars p b.
Proof.
  induction a as [|c a IH]; [done|]. rewrite append_cons. cbn [all_chars].
  by rewrite IH, andb_assoc.
Qed.

Lemma re_split_blanks1_app m c rest :
  all_chars (λ c, negb (Py.is_blank c)) m = true → Py.is_blank c = true →
  Py.re_split_blanks1 (m +:+ String c rest) = (m, Some (Py.skip_blanks rest)).
Proof.
  intros Hm Hc. induction m as [|d m IH].
  - rewrite append_nil_l. cbn [Py.re_split_blanks1]. by rewrite Hc.
  - cbn [all_chars] in Hm. apply andb_prop in Hm as [Hd Hm]. apply negb_true_iff in Hd.
    rewrite append_cons. cbn [Py.re_split_blanks1]. by rewrite Hd, (IH Hm).
Qed.

Lemma re_split_blanks1_none m :
  all_chars (λ c, negb (Py.is_blank c)) m = true → Py.re_split_blanks1 m = (m, None).
Proof.
  induction m as [|d m IH]; [done|]. cbn [all_chars Py.re_split_blanks1].
  intros [Hd Hm]%andb_prop. apply negb_true_iff in Hd. by rewrite Hd, (IH Hm).
Qed.

(** X23: A statement is split at its first run of blanks and tabs: what comes
    before is the mnemonic, read without regard to case, and what comes
    after the run is the operand text, kept as it is written. So two
    statements whose mnemonics differ only in the case of their letters
    and whose operand texts are the same give the same instructions. *)
Theorem mnemonic_case_insensitive (m1 m2 a : string) (c1 c2 : ascii) :
  all_chars (λ c, negb (Py.is_blank c)) m1 = true →
  all_chars (λ c, negb (Py.is_blank c)) m2 = true →
  Py.is_blank c1 = true → Py.is_blank c2 = true →
  statement (m1 +:+ String c1 a) = (Py.lower m1, Py.skip_blanks a)
  ∧ statement m1 = (Py.lower m1, "")
  ∧ (Py.lower m1 = Py.lower m2 →
     statement (m1 +:+ String c1 a) = statement (m2 +:+ String c2 a)
     ∧ statement m1 = statement m2).
Proof.
  intros H1 H2 B1 B2. unfold statement.
  rewrite !re_split_blanks1_app, !re_split_blanks1_none by done.
  cbn [fst snd default]. split; [done|]. split; [done|]. by intros ->.
Qed.

Lemma mnemonic_case_insensitive_witness :
  statement "ADDI $t0, $t1, 5" = ("addi", "$t0, $t1, 5")
  ∧ statement "ADDI $t0, $t1, 5" = statement ("Addi" +:+ String "009" "$t0, $t1, 5").
Proof.
  destruct (mnemonic_case_insensitive "ADDI" "Addi" "$t0, $t1, 5" " " "009")
    as (H1 & _ & H2); [reflexivity..|].
  split; [exact H1|]. exact (proj1 (H2 eq_refl)).
Defined.

(** ** Moving code *)

Lemma scan_moved expand unit c (L : gmap string Z) ns :
  ∀ c0 (L0 L0' : gmap string Z) s2,
    moved_table (unit * Z.of_nat (length c)) L L0 L0' →
    scan expand unit (c0, L0) ns = Ok s2 →
    ∃ L', scan expand unit (c ++ c0, L0') ns = Ok (c ++ s2.1, L')
      ∧ moved_table (unit * Z.of_nat (length c)) L s2.2 L'.
Proof.
  induction ns as [|n ns IH]; intros c0 L0 L0' s2 HR; cbn [scan].
  - intros [= <-]. by exists L0'.
  - intros ([c1 L1] & (new & Hnew & Hc & HL)%scan_line_ok & Hs)%bind_ok.
    cbn in Hc, HL. subst c1 L1.
    unfold scan_line at 1. rewrite Hnew. cbn [mbind result_bind fst snd].
    rewrite <- app_assoc. eapply IH; [|exact Hs].
    destruct (label_of n) as [l|]; [|done].
    intros l'. destruct (decide (l' = l)) as [->|Hne].
    + rewrite !lookup_insert_eq. f_equal. rewrite length_app. lia.
    + rewrite !lookup_insert_ne by done. apply HR.
Qed.

Lemma riscv_pass2_from_app (L : gmap string Z) pc c1 c2 :
  RISCV.pass2_from L pc (c1 ++ c2)
  = out1 ← RISCV.pass2_from L pc c1;
    out2 ← RISCV.pass2_from L (pc + 4 * Z.of_nat (length c1)) c2;
    Ok (out1 ++ out2).
Proof.
  revert pc. induction c1 as [|[m a] c1 IH]; intros pc.
  - cbn. rewrite Z.add_0_r. by destruct (RISCV.pass2_from L pc c2).
  - cbn [app RISCV.pass2_from]. destruct (RISCV.encode L pc m a); [|done].
    cbn [mbind result_bind]. rewrite IH.
    destruct (RISCV.pass2_from L (pc + 4) c1); [|done]. cbn [mbind result_bind].
    replace (pc + 4 + 4 * Z.of_nat (length c1))
      with (pc + 4 * Z.of_nat (length ((m, a) :: c1))) by (cbn [length]; lia).
    by destruct (RISCV.pass2_from L _ c2).
Qed.

Lemma mips_encode_from_app (L : gmap string Z) i c1 c2 :
  MIPS.encode_from L i (c1 ++ c2)
  = out1 ← MIPS.encode_from L i c1;
    out2 ← MIPS.encode_from L (i + length c1) c2;
    Ok (out1 ++ out2).
Proof.
  revert i. induction c1 as [|[m a] c1 IH]; intros i.
  - cbn. rewrite Nat.add_0_r. by destruct (MIPS.encode_from L i c2).
  - cbn [app MIPS.encode_from]. destruct (MIPS.encode L i m a); [|done].
    cbn [mbind result_bind]. rewrite IH.
    destruct (MIPS.encode_from L (S i) c1); [|done]. cbn [mbind result_bind].
    replace (S i + length c1)%nat with (i + length ((m, a) :: c1))%nat by (cbn [length]; lia).
    by destruct (MIPS.encode_from L _ c2).
Qed.

Lemma riscv_encode_no_target (L L' : gmap string Z) pc pc' m a :
  riscv_target_operand m = None → RISCV.encode L pc m a = RISCV.encode L' pc' m a.
Proof.
  unfold riscv_target_operand, RISCV.encode.
  destruct (Py.dict_get RISCV.OPCODES m) as [inf|]; [|done].
  cbn [mbind result_bind or_raise].
  destruct (RISCV.op inf =? 99) eqn:Eb; [done|].
  destruct (RISCV.op inf =? 111) eqn:Ej; [done|]. intros _.
  repeat match goal with |- context [if ?b then _ else _] => destruct b end; done.
Qed.

Lemma riscv_encode_moved (L1 L2 : gmap string Z) pc1 pc2 m a p t v1 v2 :
  riscv_target_operand m = Some p →
  Py.operands RISCV.lookahead a !! p = Some t →
  L1 !! t = Some v1 → L2 !! t = Some v2 → v1 - pc1 = v2 - pc2 →
  RISCV.encode L1 pc1 m a = RISCV.encode L2 pc2 m a.
Proof.
  intros Hm Ht H1%resolve_defined H2%resolve_defined Hoff.
  unfold RISCV.encode. generalize dependent (Py.operands RISCV.lookahead a). intros args Ht.
  destruct (riscv_target_cases m p Hm) as [[Hb ->]|[-> ->]].
  - destruct args as [|a0 [|a1 [|a2 rest]]]; try discriminate. injection Ht as ->.
    elem_cases Hb; cbn -[resolve];
      (destruct (RISCV.parse_reg a0); [|done]); cbn -[resolve];
      (destruct (RISCV.parse_reg a1); [|done]); cbn -[resolve];
      rewrite H1, H2; cbn; by rewrite Hoff.
  - destruct args as [|a0 [|a1 rest]]; try discriminate. injection Ht as ->.
    cbn -[resolve]. destruct (RISCV.parse_reg a0); [|done]. cbn -[resolve].
    rewrite H1, H2. cbn. by rewrite Hoff.
Qed.

Lemma mips_encode_no_target (L L' : gmap string Z) i i' m a :
  mips_target_operand m = None → MIPS.encode L i m a = MIPS.encode L' i' m a.
Proof.
  unfold mips_target_operand, MIPS.encode.
  destruct (Py.dict_get MIPS.R_TYPE m); [done|].
  destruct (Py.mem m ["j"; "jal"]); [done|].
  destruct (Py.mem m ["beq"]); [done|].
  destruct (Py.mem m ["blez"; "bltz"]); [done|]. intros _.
  by destruct (Py.dict_get MIPS.OPCODES m).
Qed.

Lemma mips_encode_moved (L1 L2 : gmap string Z) i1 i2 m a p t v1 v2 :
  m ∈ ["beq"; "blez"; "bltz"] →
  mips_target_operand m = Some p →
  Py.operands MIPS.lookahead a !! p = Some t →
  L1 !! t = Some v1 → L2 !! t = Some v2 →
  v1 - (Z.of_nat i1 + 1) = v2 - (Z.of_nat i2 + 1) →
  MIPS.encode L1 i1 m a = MIPS.encode L2 i2 m a.
Proof.
  intros Hb Hm Ht H1%resolve_defined H2%resolve_defined Hoff.
  unfold MIPS.encode. generalize dependent (Py.operands MIPS.lookahead a). intros args Ht.
  elem_cases Hb; injection Hm as <-.
  - destruct args as [|a0 [|a1 [|a2 rest]]]; try discriminate. injection Ht as ->.
    cbn -[resolve]. destruct (MIPS.parse_reg a0); [|done].
    cbn -[resolve]. destruct (MIPS.parse_reg a1); [|done].
    cbn -[resolve]. rewrite H1, H2. cbn. by rewrite Hoff.
  - destruct args as [|a0 [|a1 rest]]; try discriminate. injection Ht as ->.
    cbn -[resolve]. destruct (MIPS.parse_reg a0); [|done].
    cbn -[resolve]. rewrite H1, H2. cbn. by rewrite Hoff.
  - destruct args as [|a0 [|a1 rest]]; try discriminate. injection Ht as ->.
    cbn -[resolve]. destruct (MIPS.parse_reg a0); [|done].
    cbn -[resolve]. rewrite H1, H2. cbn. by rewrite Hoff.
Qed.

Lemma riscv_pass2_from_moved (L1 L2 : gmap string Z) shift c :
  (∀ k m a, c !! k = Some (m, a) →
     ∀ pc, RISCV.encode L1 (pc + shift) m a = RISCV.encode L2 pc m a) →
  ∀ pc, RISCV.pass2_from L1 (pc + shift) c = RISCV.pass2_from L2 pc c.
Proof.
  induction c as [|[m a] c IH]; intros H pc; [done|]. cbn [RISCV.pass2_from].
  rewrite (H 0%nat m a eq_refl pc).
  replace (pc + shift + 4) with (pc + 4 + shift) by lia.
  rewrite IH; [done|]. intros k m' a' Hk. by apply (H (S k)).
Qed.

Lemma mips_encode_from_moved (L1 L2 : gmap string Z) shift c :
  (∀ k m a, c !! k = Some (m, a) →
     ∀ i, MIPS.encode L1 (i + shift) m a = MIPS.encode L2 i m a) →
  ∀ i, MIPS.encode_from L1 (i + shift) c = MIPS.encode_from L2 i c.
Proof.
  induction c as [|[m a] c IH]; intros H i; [done|]. cbn [MIPS.encode_from].
  rewrite (H 0%nat m a eq_refl i).
  change (S (i + shift)) with (S i + shift)%nat.
  rewrite IH; [done|]. intros k m' a' Hk. by apply (H (S k)).
Qed.

(** X24: Code can be moved. When a program [p2] is assembled behind another
    program [p1], its labels are moved by the length of [p1], and so are
    its instructions; a branch to one of its own labels keeps its offset.
    So if every branch and jump of [p2] goes to a label that [p2] defines
    (and, for MIPS, [p2] has no [j] or [jal], whose target is absolute),
    the words of [p2] in the output of [p1 ++ p2] are the words of [p2]
    assembled alone, after one word for each instruction of [p1]. *)
Theorem code_can_be_moved (p1 p2 : list string) :
  (∀ st2 out2 out,
     RISCV.pass1 (RISCV.source_lines p2) = Ok st2 → RISCV.assemble p2 = Ok out2 →
     (∀ k m a p t,
        RISCV.processed_code st2 !! k = Some (m, a) →
        riscv_target_operand m = Some p →
        Py.operands RISCV.lookahead a !! p = Some t →
        is_Some (RISCV.labels st2 !! t)) →
     RISCV.assemble (p1 ++ p2) = Ok out →
     ∃ st1 out1,
       RISCV.pass1 (RISCV.source_lines p1) = Ok st1
       ∧ length out1 = length (RISCV.processed_code st1)
       ∧ out = out1 ++ out2)
  ∧ (∀ st2 out2 out,
       MIPS.preprocess p2 = Ok st2 → MIPS.assemble p2 = Ok out2 →
       (∀ k m a p t,
          MIPS.clean_lines st2 !! k = Some (m, a) →
          mips_target_operand m = Some p →
          Py.operands MIPS.lookahead a !! p = Some t →
          m ∈ ["beq"; "blez"; "bltz"] ∧ is_Some (MIPS.labels st2 !! t)) →
       MIPS.assemble (p1 ++ p2) = Ok out →
       ∃ st1 out1,
         MIPS.preprocess p1 = Ok st1
         ∧ length out1 = length (MIPS.clean_lines st1)
         ∧ out = out1 ++ out2).
Proof.
  split.
  - intros st2 out2 out Hst2 Hout2 Htargets (st & Hst & Hout)%riscv_assemble_ok.
    apply riscv_assemble_ok in Hout2 as (st2' & Hst2' & Hout2).
    rewrite Hst2 in Hst2'. injection Hst2' as <-.
    rewrite riscv_pass1 in Hst, Hst2. rewrite fmap_app in Hst.
    apply fmap_ok in Hst as (s & Hs & ->). apply fmap_ok in Hst2 as (s2 & Hs2 & ->).
    apply scan_app_ok in Hs as ([c1 L1] & Hs1 & Hs12).
    destruct (scan_moved RISCV.expand 4 c1 L1 (norm <$> p2) [] ∅ L1 s2) as (L' & Hs' & HR);
      [by intros l; rewrite lookup_empty|done|].
    rewrite app_nil_r in Hs'. rewrite Hs' in Hs12. injection Hs12 as <-.
    cbn [riscv_state RISCV.processed_code RISCV.labels fst snd] in *.
    rewrite riscv_pass2_from_app in Hout.
    apply bind_ok in Hout as (out1 & Hout1 & (out2' & Hout2' & [= <-])%bind_ok).
    exists (riscv_state (c1, L1)), out1. rewrite riscv_pass1, Hs1.
    split; [done|]. split; [by apply riscv_pass2_from_ok in Hout1 as [? _]|].
    f_equal.
    rewrite (riscv_pass2_from_moved L' s2.2 (4 * Z.of_nat (length c1)) s2.1) in Hout2'.
    + rewrite Hout2 in Hout2'. by injection Hout2'.
    + intros k m a Hk pc.
      destruct (riscv_target_operand m) as [p|] eqn:Hm;
        [|by apply riscv_encode_no_target].
      destruct (Py.operands RISCV.lookahead a !! p) as [t|] eqn:Ht.
      * destruct (Htargets k m a p t Hk Hm Ht) as [v Hv].
        apply (riscv_encode_moved _ _ _ _ _ _ p t (v + 4 * Z.of_nat (length c1)) v);
          try done; [|lia].
        by rewrite HR, Hv.
      * destruct (riscv_target_cases m p Hm) as [[Hb ->]|[-> ->]].
        -- unfold RISCV.encode. revert Ht. generalize (Py.operands RISCV.lookahead a).
           intros [|a0 [|a1 [|a2 rest]]]; try discriminate; intros _;
             elem_cases Hb; cbn; try done;
             (destruct (RISCV.parse_reg a0); [|done]); cbn;
             (destruct (RISCV.parse_reg a1); done).
        -- unfold RISCV.encode. revert Ht. generalize (Py.operands RISCV.lookahead a).
           intros [|a0 [|a1 rest]]; try discriminate; intros _; cbn; try done;
             by destruct (RISCV.parse_reg a0).
  - intros st2 out2 out Hst2 Hout2 Htargets (st & Hst & Hout)%mips_assemble_ok.
    apply mips_assemble_ok in Hout2 as (st2' & Hst2' & Hout2).
    rewrite Hst2 in Hst2'. injection Hst2' as <-.
    rewrite mips_preprocess in Hst, Hst2. rewrite fmap_app in Hst.
    apply fmap_ok in Hst as (s & Hs & ->). apply fmap_ok in Hst2 as (s2 & Hs2 & ->).
    apply scan_app_ok in Hs as ([c1 L1] & Hs1 & Hs12).
    destruct (scan_moved MIPS.expand 1 c1 L1 (norm <$> p2) [] ∅ L1 s2) as (L' & Hs' & HR);
      [by intros l; rewrite lookup_empty|done|].
    rewrite app_nil_r in Hs'. rewrite Hs' in Hs12. injection Hs12 as <-.
    cbn [mips_state MIPS.clean_lines MIPS.labels fst snd] in *.
    rewrite mips_encode_from_app in Hout.
    apply bind_ok in Hout as (out1 & Hout1 & (out2' & Hout2' & [= <-])%bind_ok).
    exists (mips_state (c1, L1)), out1. rewrite mips_preprocess, Hs1.
    split; [done|]. split; [by apply mips_encode_from_ok in Hout1 as [? _]|].
    f_equal.
    rewrite (mips_encode_from_moved L' s2.2 (length c1) s2.1 ) in Hout2'.
    + rewrite Hout2 in Hout2'. by injection Hout2'.
    + intros k m a Hk i.
      destruct (mips_target_operand m) as [p|] eqn:Hm;
        [|by apply mips_encode_no_target].
      destruct (Py.operands MIPS.lookahead a !! p) as [t|] eqn:Ht.
      * destruct (Htargets k m a p t Hk Hm Ht) as [Hb [v Hv]].
        apply (mips_encode_moved _ _ _ _ _ _ p t (v + 1 * Z.of_nat (length c1)) v);
          try done; [|lia].
        by rewrite HR, Hv.
      * unfold MIPS.encode. revert Ht. generalize (Py.operands MIPS.lookahead a).
        destruct (mips_target_cases m p Hm) as [[-> ->]|[[-> ->]|[[-> ->]|[[-> ->]|[-> ->]]]]];
          intros args Ht; cbn.
        -- by destruct args.
        -- by destruct args.
        -- destruct args as [|a0 [|a1 [|a2 rest]]]; try discriminate; cbn; try done;
             (destruct (MIPS.parse_reg a0); [|done]); cbn;
             (destruct (MIPS.parse_reg a1); done).
        -- destruct args as [|a0 [|a1 rest]]; try discriminate; cbn; try done;
             by destruct (MIPS.parse_reg a0).
        -- destruct args as [|a0 [|a1 rest]]; try discriminate; cbn; try done;
             by destruct (MIPS.parse_reg a0).
Qed.

Lemma code_can_be_moved_witness :
  ∃ st1 out1,
    RISCV.pass1 (RISCV.source_lines ["nop"; "li a0, 5"]) = Ok st1
    ∧ length out1 = length (RISCV.processed_code st1)
    ∧ ["00000013"; "00000537"; "00550513"; "00150513"; "fea50ee3"]
      = out1 ++ ["00150513"; "fea50ee3"].
Proof.
  apply (proj1 (code_can_be_moved ["nop"; "li a0, 5"]
                  ["loop: addi a0, a0, 1"; "beq a0, a0, loop # again"])
           {| RISCV.processed_code := [("addi", "a0, a0, 1"); ("beq", "a0, a0, loop")];
              RISCV.pc := 8; RISCV.labels := {["loop" := 0]} |});
    [reflexivity|reflexivity| |reflexivity].
  intros [|[|k]] m a p t Hk Hm Ht; cbn in Hk; try discriminate;
    injection Hk as <- <-; vm_compute in Hm; try discriminate;
    injection Hm as <-; vm_compute in Ht; injection Ht as <-; by eexists.
Defined.
(** ** Upper immediates *)

(** X25: Upper-immediate instructions, from the operand text [rd, v] to the
    fields of the word, with [rd] a register in range and [v] an integer
    literal [imm]. MIPS [lui]: the register is in bits 20..16, bits 25..21
    are zero and bits 15..0 hold [imm] modulo [2^16]. RISC-V [lui] and
    [auipc]: the register is in bits 11..7 and bits 31..12 hold [imm]
    modulo [2^20]. An immediate out of range is cut without notice. *)
Theorem upper_immediate_format (x v : string) (r imm : Z) :
  plain x = true → plain v = true → 0 ≤ r < 32 → Py.int0 (Py.strip v) = Ok imm →
  (MIPS.parse_reg (Py.strip x) = Ok r →
   ∀ (L : gmap string Z) i,
     ∃ w, MIPS.encode L i "lui" (x +:+ ", " +:+ v) = Ok w
       ∧ field w 31 26 = 0x0f ∧ field w 25 21 = 0 ∧ field w 20 16 = r
       ∧ field w 15 0 = imm mod 2 ^ 16)
  ∧ (RISCV.parse_reg (Py.strip x) = Ok r →
     ∀ (L : gmap string Z) pc m o,
       (m, o) ∈ [("lui", 0x37); ("auipc", 0x17)] →
       ∃ w, RISCV.pass2_from L pc [(m, x +:+ ", " +:+ v)] = Ok [Py.format_08x w]
         ∧ field w 31 12 = imm mod 2 ^ 20 ∧ field w 11 7 = r ∧ field w 6 0 = o).
Proof.
  intros Hx Hv Hr Himm. pose proof (int0_nonempty _ _ Himm) as Nv. split.
  - intros Hreg L i. pose proof (mips_parse_reg_nonempty _ _ Hreg) as Nx.
    exists (MIPS.i_word 0x0f 0 r imm). split.
    + apply (mips_encode_lui L i _ (Py.strip x) (Py.strip v)); try done.
      by apply operands_two.
    + by apply (mips_i_fields 0x0f 0 r imm).
  - intros Hreg L pc m o Hm. pose proof (riscv_parse_reg_nonempty _ _ Hreg) as Nx.
    exists (RISCV.u_word imm r o .& 0xFFFFFFFF). split.
    + cbn [RISCV.pass2_from].
      rewrite (riscv_encode_upper L pc m o _ (Py.strip x) (Py.strip v) r imm);
        [done| | |by apply operands_two|done|done].
      * by table_cases Hm.
      * table_cases Hm; by repeat constructor.
    + assert (0 ≤ o < 128) by (table_cases Hm; lia).
      by apply (riscv_u_fields imm r o).
Qed.

Lemma upper_immediate_format_witness :
  (∃ w, MIPS.encode ∅ 0 "lui" "$t0, 0x12345" = Ok w
     ∧ field w 31 26 = 0x0f ∧ field w 25 21 = 0 ∧ field w 20 16 = 8
     ∧ field w 15 0 = 0x12345 mod 2 ^ 16)
  ∧ (∃ w, RISCV.pass2_from ∅ 0 [("auipc", "t0, 0x12345")] = Ok [Py.format_08x w]
     ∧ field w 31 12 = 0x12345 mod 2 ^ 20 ∧ field w 11 7 = 5 ∧ field w 6 0 = 0x17).
Proof.
  split.
  - destruct (upper_immediate_format "$t0" "0x12345" 8 0x12345) as [H _];
      [reflexivity|reflexivity|lia|reflexivity|].
    apply (H eq_refl ∅ 0%nat).
  - destruct (upper_immediate_format "t0" "0x12345" 5 0x12345) as [_ H];
      [reflexivity|reflexivity|lia|reflexivity|].
    apply (H eq_refl ∅ 0 "auipc" 0x17). by repeat constructor.
Defined.
(** ** The offset of a MIPS memory operand *)

Lemma mips_encode_memory (L : gmap string Z) i m opcode a x y g1 g2 rt rs imm :
  (m, opcode) ∈ [("lb", 0x20); ("lh", 0x21); ("lw", 0x23);
                 ("sb", 0x28); ("sh", 0x29); ("sw", 0x2b)] →
  Py.operands MIPS.lookahead a = [x; y] →
  MIPS.parse_reg x = Ok rt →
  MIPS.search_offset_base y = Some (g1, g2) →
  Py.int0 g1 = Ok imm → MIPS.parse_reg g2 = Ok rs →
  MIPS.encode L i m a = Ok (MIPS.i_word opcode rs rt imm).
Proof.
  intros Hm Ha Hx Hy Hg1 Hg2. unfold MIPS.encode. rewrite Ha.
  table_cases Hm; cbn -[MIPS.search_offset_base]; rewrite Hx;
    cbn -[MIPS.search_offset_base]; rewrite Hy; cbn; rewrite Hg1; cbn;
    rewrite Hg2; reflexivity.
Qed.

(** C8: the claim fails on the MIPS loads and stores. Their offset is not
    an operand read with [int(.., 0)] like the other immediates, but the
    run of decimal digits that the search for [offset($base)] finds. A
    decimal offset, in range or not, is reduced modulo [2^16] as the claim
    says, the rest of the word being what it is for the offset 0. An
    offset written [0x..], which the other immediates and the RISC-V
    memory operand read in base sixteen, is found behind the [x] only and
    read in base ten: the field holds the low bits of another number. *)
Theorem mips_memory_offset_misread (L : gmap string Z) (i : nat) (m a x name : string)
    (opcode rt rs off : Z) :
  (m, opcode) ∈ [("lb", 0x20); ("lh", 0x21); ("lw", 0x23);
                 ("sb", 0x28); ("sh", 0x29); ("sw", 0x2b)] →
  MIPS.parse_reg x = Ok rt →
  all_chars MIPS.is_word name = true → MIPS.parse_reg ("$" +:+ name) = Ok rs →
  (Py.operands MIPS.lookahead a = [x; Py.str off +:+ "($" +:+ name +:+ ")"] →
   ∃ w, MIPS.encode L i m a = Ok w ∧ field w 15 0 = off mod 2 ^ 16
     ∧ w ≫ 16 = MIPS.i_word opcode rs rt 0 ≫ 16)
  ∧ (0 ≤ off →
     Py.operands MIPS.lookahead a = [x; "0x" +:+ Py.str off +:+ "($" +:+ name +:+ ")"] →
     ∃ w, MIPS.encode L i m a = Ok w ∧ field w 15 0 = off mod 2 ^ 16
       ∧ w ≫ 16 = MIPS.i_word opcode rs rt 0 ≫ 16).
Proof.
  intros Hm Hx Hw Hrs.
  assert (Py.is_empty name = false) as Hn.
  { destruct name; [|done]. discriminate Hrs. }
  destruct (mips_i_word_wraps opcode rs rt off) as (_ & Hf & Hh).
  split.
  - intros Ha. exists (MIPS.i_word opcode rs rt off). split; [|done].
    eapply (mips_encode_memory L i m opcode a x);
      [exact Hm|exact Ha|exact Hx| |apply int0_str|exact Hrs].
    apply search_offset_base_here. exact (match_offset_base_here off name "" Hw Hn).
  - intros Hoff Ha. exists (MIPS.i_word opcode rs rt off). split; [|done].
    eapply (mips_encode_memory L i m opcode a x);
      [exact Hm|exact Ha|exact Hx| |apply int0_str|exact Hrs].
    exact (search_offset_base_hex off name "" Hoff Hw Hn).
Qed.

Lemma mips_memory_offset_misread_witness :
  Py.int0 "0x10" = Ok 16
  ∧ (∃ w, MIPS.encode ∅ 0 "lw" "$t0, 0x10($sp)" = Ok w ∧ field w 15 0 = 10 mod 2 ^ 16)
  ∧ 10 mod 2 ^ 16 ≠ 16 mod 2 ^ 16.
Proof.
  split; [reflexivity|]. split; [|discriminate].
  destruct (mips_memory_offset_misread ∅ 0 "lw" "$t0, 0x10($sp)" "$t0" "sp" 0x23 8 29 10)
    as (_ & H); [by repeat constructor|reflexivity..|].
  destruct H as (w & Hw & Hf & _); [lia|reflexivity|].
  exists w. split; [exact Hw|exact Hf].
Defined.

(** The same offset in the three places: the MIPS load holds 10, the
    MIPS [addi] and the RISC-V load hold 16. *)
Example mips_hex_offset_run :
  MIPS.assemble ["lw $t0, 0x10($sp)"] = Ok ["8fa8000a"]
  ∧ field 0x8fa8000a 15 0 = 10
  ∧ MIPS.assemble ["lw $t0, 16($sp)"] = Ok ["8fa80010"]
  ∧ MIPS.assemble ["addi $t0, $sp, 0x10"] = Ok ["23a80010"]
  ∧ field 0x23a80010 15 0 = 16
  ∧ RISCV.assemble ["lw t0, 0x10(sp)"] = Ok ["01012283"]
  ∧ field 0x01012283 31 20 = 16.
Proof. repeat split; vm_compute; reflexivity. Qed.
